(** * OCFT: chunk codec, message protocol and transfer engine

    A shallow embedding of [src/chunker.ts], [src/protocol.ts] and
    [src/transfer.ts], followed by the properties of the specification that
    were checked against it.

    Conventions of the embedding:
    - a [Buffer] is a [list byte]; a JS string is a [string] holding its
      UTF-8 bytes; a JS [number] used as a size, an index or a time stamp is
      an integer [Z]; the one place where the code computes with fractions
      ([getProgress]) is modelled in IEEE binary64 through [SpecFloat];
    - a [Map] is a [gmap], a [Set<number>] a [gset Z];
    - Node's own library ([crypto], [Buffer] base64 and UTF-8 conversion,
      [JSON.parse]) is the [Platform] interface;
    - asynchronous methods of [TransferManager] are computations in the
      monad [M]: they thread the manager's fields, the file system, the list
      of messages handed to [sendMessage], the emitted events and the clock,
      and they either return or throw. One call runs to its end before the
      next starts, as the protocol requires of the host. *)

From Stdlib Require Import ZArith Lia List Bool Ascii String.
From Stdlib Require Import Strings.Byte.
From Stdlib Require Import SpecFloat.
From stdpp Require Import base option list gmap strings pretty.

Local Open Scope string_scope.
Local Open Scope Z_scope.

(** * JavaScript numbers where the code needs fractions *)

Module Number.

Definition prec : Z := 53.
Definition emax : Z := 1024.

(** The binary64 value of an integer (exact below 2^53). *)
Definition of_Z (z : Z) : spec_float := binary_normalize prec emax z 0 false.

Definition div (x y : spec_float) : spec_float := SFdiv prec emax x y.
Definition mul (x y : spec_float) : spec_float := SFmul prec emax x y.

(** [Math.round]: not finite or already integral: unchanged; otherwise the
    closest integer, the one towards +∞ at a tie; a result of zero keeps
    the sign of the argument. *)
Definition Math_round (x : spec_float) : spec_float :=
  match x with
  | S754_finite s m e =>
      if 0 <=? e then x
      else
        let v := cond_Zopp s (Zpos m) in
        let r := (2 * v + 2 ^ (- e)) / 2 ^ (1 - e) in
        if r =? 0 then S754_zero s else of_Z r
  | _ => x
  end.

End Number.

(** * Strings *)

Definition startsWith (text pre : string) : bool := String.prefix pre text.

Fixpoint slice (n : nat) (s : string) : string :=
  match n, s with
  | O, _ => s
  | S n', String _ r => slice n' r
  | S _, EmptyString => EmptyString
  end.

(** [s.split(sep).pop()]: what follows the last [sep], all of [s] without one. *)
Fixpoint split_pop_from (sep : ascii) (s acc : string) : string :=
  match s with
  | EmptyString => acc
  | String c r =>
      if Ascii.eqb c sep then split_pop_from sep r EmptyString
      else split_pop_from sep r (acc ++ String c EmptyString)
  end.

Definition split_pop (sep : ascii) (s : string) : string :=
  split_pop_from sep s EmptyString.

Definition lower_ascii (c : ascii) : ascii :=
  let n := nat_of_ascii c in
  if (Nat.leb 65 n && Nat.leb n 90)%bool then ascii_of_nat (n + 32) else c.

Fixpoint toLowerCase (s : string) : string :=
  match s with
  | EmptyString => EmptyString
  | String c r => String (lower_ascii c) (toLowerCase r)
  end.

(** [a.join(sep)] *)
Fixpoint join (sep : string) (l : list string) : string :=
  match l with
  | [] => ""
  | [x] => x
  | x :: r => x ++ sep ++ join sep r
  end.

(** Truthiness of the optional values the code tests with [!x], [x && ..]
    and [x || ..]. *)
Definition truthy_string (s : string) : bool := negb (String.eqb s "").
Definition truthy_number (n : Z) : bool := negb (n =? 0).

(** A path that is there and not empty, as [!filePath] tests it. *)
Definition truthy_path (filePath : option string) : option string :=
  match filePath with
  | Some p => if truthy_string p then Some p else None
  | None => None
  end.

(** * protocol.ts *)

Definition OCFT_VERSION : string := "1.0".

(** What [getFileInfo] gives as [mimeType], and what a transfer and an offer
    then carry: a string, or one of two objects that are not strings (see
    [mimeTypes_get] below). *)
Inductive MimeType :=
| mime (s : string)
| Object_function
| Object_prototype.
Coercion mime : string >-> MimeType.

Module MessageType.
Inductive t := offer | accept | reject | chunk | ack | complete | error.
End MessageType.

Module OfferPayload.
Record t := mk {
  filename : string;
  size : Z;
  mimeType : MimeType;
  hash : string;
  chunkSize : Z;
  totalChunks : Z;
  secret : option string;
  secretTTL : option Z;
  resumeFrom : option Z
}.
End OfferPayload.

Module AcceptPayload.
Record t := mk { ready : bool; resumeFrom : option Z }.
End AcceptPayload.

Module RejectPayload.
Record t := mk { reason : string }.
End RejectPayload.

Module ChunkPayload.
Record t := mk { index : Z; data : string; hash : string }.
End ChunkPayload.

Module AckPayload.
Record t := mk { index : Z; received : bool; error : option string }.
End AckPayload.

Module CompletePayload.
Record t := mk { totalChunks : Z; hash : string }.
End CompletePayload.

Module ErrorPayload.
Record t := mk { code : string; message : string; recoverable : bool }.
End ErrorPayload.

(** The payload of a message, tagged by the message's [type]. *)
Inductive Payload :=
| POffer (p : OfferPayload.t)
| PAccept (p : AcceptPayload.t)
| PReject (p : RejectPayload.t)
| PChunk (p : ChunkPayload.t)
| PAck (p : AckPayload.t)
| PComplete (p : CompletePayload.t)
| PError (p : ErrorPayload.t).

Module OCFTMessage.
Record t := mk {
  version : string;
  transferId : string;
  from : string;
  to : string;
  timestamp : Z;
  payload : Payload
}.

Definition type (m : t) : MessageType.t :=
  match payload m with
  | POffer _ => MessageType.offer
  | PAccept _ => MessageType.accept
  | PReject _ => MessageType.reject
  | PChunk _ => MessageType.chunk
  | PAck _ => MessageType.ack
  | PComplete _ => MessageType.complete
  | PError _ => MessageType.error
  end.
End OCFTMessage.

Module TransferState.
Inductive t :=
| pending | accepted | rejected | transferring
| completing | completed | failed | cancelled.

Definition eqb (a b : t) : bool :=
  match a, b with
  | pending, pending | accepted, accepted | rejected, rejected
  | transferring, transferring | completing, completing
  | completed, completed | failed, failed | cancelled, cancelled => true
  | _, _ => false
  end.
End TransferState.

Module Direction.
Inductive t := send | receive.
End Direction.

Module TransferInfo.
Record t := mk {
  id : string;
  direction : Direction.t;
  state : TransferState.t;
  peerId : string;
  filename : string;
  size : Z;
  mimeType : MimeType;
  hash : string;
  chunkSize : Z;
  totalChunks : Z;
  receivedChunks : gset Z;
  startedAt : Z;
  updatedAt : Z;
  completedAt : option Z;
  error : option string;
  localPath : option string;
  resumable : bool
}.

Definition set_state (v : TransferState.t) (x : t) : t :=
  mk (id x) (direction x) v (peerId x) (filename x) (size x) (mimeType x)
     (hash x) (chunkSize x) (totalChunks x) (receivedChunks x) (startedAt x)
     (updatedAt x) (completedAt x) (error x) (localPath x) (resumable x).

Definition set_receivedChunks (v : gset Z) (x : t) : t :=
  mk (id x) (direction x) (state x) (peerId x) (filename x) (size x)
     (mimeType x) (hash x) (chunkSize x) (totalChunks x) v (startedAt x)
     (updatedAt x) (completedAt x) (error x) (localPath x) (resumable x).

Definition set_updatedAt (v : Z) (x : t) : t :=
  mk (id x) (direction x) (state x) (peerId x) (filename x) (size x)
     (mimeType x) (hash x) (chunkSize x) (totalChunks x) (receivedChunks x)
     (startedAt x) v (completedAt x) (error x) (localPath x) (resumable x).

Definition set_completedAt (v : option Z) (x : t) : t :=
  mk (id x) (direction x) (state x) (peerId x) (filename x) (size x)
     (mimeType x) (hash x) (chunkSize x) (totalChunks x) (receivedChunks x)
     (startedAt x) (updatedAt x) v (error x) (localPath x) (resumable x).

Definition set_error (v : option string) (x : t) : t :=
  mk (id x) (direction x) (state x) (peerId x) (filename x) (size x)
     (mimeType x) (hash x) (chunkSize x) (totalChunks x) (receivedChunks x)
     (startedAt x) (updatedAt x) (completedAt x) v (localPath x) (resumable x).

Definition set_localPath (v : option string) (x : t) : t :=
  mk (id x) (direction x) (state x) (peerId x) (filename x) (size x)
     (mimeType x) (hash x) (chunkSize x) (totalChunks x) (receivedChunks x)
     (startedAt x) (updatedAt x) (completedAt x) (error x) v (resumable x).

Definition set_resumable (v : bool) (x : t) : t :=
  mk (id x) (direction x) (state x) (peerId x) (filename x) (size x)
     (mimeType x) (hash x) (chunkSize x) (totalChunks x) (receivedChunks x)
     (startedAt x) (updatedAt x) (completedAt x) (error x) (localPath x) v.
End TransferInfo.

(** What the embedding takes from Node: [crypto]'s SHA-256 with a hex digest,
    [Buffer]'s base64 and UTF-8 conversions, and [JSON.parse] read at the
    type [OCFTMessage] ([None] when it throws or the value has another
    shape). *)
Class Platform := {
  createHash_sha256_hex : list byte → string;
  Buffer_toString_base64 : list byte → string;
  Buffer_from_base64 : string → list byte;
  Buffer_toString_utf8 : list byte → string;
  JSON_parse : string → option OCFTMessage.t
}.

Section Protocol.
Context `{Platform}.

Definition deserialize (data : string) : option OCFTMessage.t :=
  match JSON_parse data with
  | Some msg =>
      if (truthy_string (OCFTMessage.version msg)
          && truthy_string (OCFTMessage.transferId msg))%bool
      then Some msg else None
  | None => None
  end.

Definition OCFT_PREFIX : string := "🔗OCFT:".

Definition decodeFromChat (text : string) : option OCFTMessage.t :=
  if negb (startsWith text OCFT_PREFIX) then None
  else
    let b64 := slice (String.length OCFT_PREFIX) text in
    let json := Buffer_toString_utf8 (Buffer_from_base64 b64) in
    deserialize json.

End Protocol.

(** * chunker.ts *)

(** The outcome of a call that may throw. *)
Inductive Result (A : Type) :=
| Ok (a : A)
| Throw (e : string).
Arguments Ok {A} a.
Arguments Throw {A} e.

(** The files of the node, by path. [readFile] and [stat] throw on the empty
    path and on a path that holds no file; [writeFile] creates or replaces
    the file. *)
Abbreviation Files := (gmap string (list byte)).

Definition readFile (fs : Files) (path : string) : Result (list byte) :=
  if negb (truthy_string path) then
    Throw "ENOENT: no such file or directory, open ''"
  else
    match fs !! path with
    | Some data => Ok data
    | None => Throw ("ENOENT: no such file or directory, open '" ++ path ++ "'")
    end.

(** [stat]: rejects like [readFile], with its own error; otherwise the size
    of the file ([stats.size]). *)
Definition stat (fs : Files) (path : string) : Result Z :=
  if negb (truthy_string path) then
    Throw "ENOENT: no such file or directory, stat ''"
  else
    match fs !! path with
    | Some data => Ok (Z.of_nat (length data))
    | None => Throw ("ENOENT: no such file or directory, stat '" ++ path ++ "'")
    end.

(** [writeFile] on a disk that takes the write: the file is created or
    replaced. A write that is rejected is in [Refusing] below. *)
Definition writeFile (fs : Files) (path : string) (data : list byte) : Files :=
  <[path := data]> fs.

(** [buf.subarray(start, end)]: a negative offset counts from the end, both
    offsets are clamped to the buffer, an empty range gives an empty buffer. *)
Definition relative_index (len i : Z) : Z :=
  if i <? 0 then Z.max (len + i) 0 else Z.min i len.

Definition subarray (buf : list byte) (start end_ : Z) : list byte :=
  let len := Z.of_nat (length buf) in
  let b := relative_index len start in
  let e := relative_index len end_ in
  take (Z.to_nat (e - b)) (drop (Z.to_nat b) buf).

(** [Math.ceil(a / b)] on integers, [b] not zero. (On sizes below 2^53 the
    rounding of the binary64 quotient never reaches the next integer, so the
    result is the exact ceiling.) *)
Definition Math_ceil_div (a b : Z) : Z := - ((- a) / b).

Definition DEFAULT_CHUNK_SIZE : Z := 48 * 1024.

Module FileInfo.
Record t := mk {
  filename : string;
  size : Z;
  mimeType : MimeType;
  hash : string;
  chunkSize : Z;
  totalChunks : Z
}.
End FileInfo.

Module Chunk.
Record t := mk { index : Z; data : list byte; hash : string }.
End Chunk.

(** The table of [getFileInfo]. *)
Definition mimeTypes : list (string * string) :=
  [ ("txt", "text/plain"); ("json", "application/json");
    ("js", "text/javascript"); ("ts", "text/typescript");
    ("html", "text/html"); ("css", "text/css"); ("md", "text/markdown");
    ("png", "image/png"); ("jpg", "image/jpeg"); ("jpeg", "image/jpeg");
    ("gif", "image/gif"); ("webp", "image/webp"); ("pdf", "application/pdf");
    ("zip", "application/zip"); ("tar", "application/x-tar");
    ("gz", "application/gzip") ].

Fixpoint assoc (k : string) (l : list (string * string)) : option string :=
  match l with
  | [] => None
  | (k', v) :: r => if String.eqb k k' then Some v else assoc k r
  end.

(** [mimeTypes[ext]]. The table is an object literal, so the lookup also
    finds what the object inherits from [Object.prototype]. [ext] is in
    lower case, and of the inherited names two are: [constructor], whose
    value is the function [Object], and [__proto__], whose value is
    [Object.prototype] itself. Both are truthy, so [||] keeps them. *)
Definition mimeTypes_get (ext : string) : option MimeType :=
  match assoc ext mimeTypes with
  | Some v => Some (mime v)
  | None =>
      if String.eqb ext "constructor" then Some Object_function
      else if String.eqb ext "__proto__" then Some Object_prototype
      else None
  end.

Section Chunker.
Context `{Platform}.

Definition sha256 (data : list byte) : string := createHash_sha256_hex data.

Definition getFileInfo (fs : Files) (filePath : string) (chunkSize : Z)
  : Result FileInfo.t :=
  match stat fs filePath with
  | Throw e => Throw e
  | Ok stats_size =>
      match readFile fs filePath with
      | Throw e => Throw e
      | Ok data =>
          let hash := sha256 data in
          let totalChunks := Math_ceil_div stats_size chunkSize in
          let ext := toLowerCase (split_pop "." filePath) in
          let name := split_pop "/" filePath in
          Ok (FileInfo.mk
                (if truthy_string name then name else "file")
                stats_size
                (default (mime "application/octet-stream") (mimeTypes_get ext))
                hash chunkSize totalChunks)
      end
  end.

Definition readChunk (fs : Files) (filePath : string) (index chunkSize : Z)
  : Result Chunk.t :=
  match readFile fs filePath with
  | Throw e => Throw e
  | Ok data =>
      let start := index * chunkSize in
      let end_ := Z.min (start + chunkSize) (Z.of_nat (length data)) in
      let chunkData := subarray data start end_ in
      Ok (Chunk.mk index chunkData (sha256 chunkData))
  end.

End Chunker.

Module AssembleResult.
Record t := mk { success : bool; error : option string }.
End AssembleResult.

Module ChunkAssembler.
Record t := mk {
  chunks : gmap Z (list byte);
  expectedHash : string;
  totalChunks : Z;
  outputPath : string
}.

Definition new (outputPath expectedHash : string) (totalChunks : Z) : t :=
  mk ∅ expectedHash totalChunks outputPath.

Section Methods.
Context `{Platform}.

Definition addChunk (a : t) (index : Z) (data : list byte)
    (expectedChunkHash : string) : bool * t :=
  let actualHash := sha256 data in
  if negb (String.eqb actualHash expectedChunkHash) then (false, a)
  else (true, mk (<[index := data]> (chunks a)) (expectedHash a)
                 (totalChunks a) (outputPath a)).

Definition isComplete (a : t) : bool :=
  Z.of_nat (size (chunks a)) =? totalChunks a.

Definition getMissingChunks (a : t) : list Z :=
  filter (λ i, chunks a !! i = None) (seqZ 0 (totalChunks a)).

Definition getProgress (a : t) : spec_float :=
  Number.Math_round
    (Number.mul
       (Number.div (Number.of_Z (Z.of_nat (size (chunks a))))
                   (Number.of_Z (totalChunks a)))
       (Number.of_Z 100)).

(** The loop of [assemble] over the indices still to visit: the buffers
    in order, or the first index without a chunk. *)
Fixpoint collect (a : t) (indices : list Z) (buffers : list (list byte))
  : Z + list (list byte) :=
  match indices with
  | [] => inr buffers
  | i :: rest =>
      match chunks a !! i with
      | None => inl i
      | Some chunk => collect a rest (buffers ++ [chunk])
      end
  end.

(** [assemble], its write taken: the result and the files after it.
    [Refusing.assemble] is the method with a write that can be rejected. *)
Definition assemble (a : t) (fs : Files) : AssembleResult.t * Files :=
  if negb (isComplete a) then
    (AssembleResult.mk false
       (Some ("Missing chunks: "
              ++ join ", " (pretty <$> getMissingChunks a))), fs)
  else
    match collect a (seqZ 0 (totalChunks a)) [] with
    | inl i =>
        (AssembleResult.mk false (Some ("Missing chunk " ++ pretty i)), fs)
    | inr buffers =>
        let combined := concat buffers in
        let actualHash := sha256 combined in
        if negb (String.eqb actualHash (expectedHash a)) then
          (AssembleResult.mk false
             (Some ("File hash mismatch: expected " ++ expectedHash a
                    ++ ", got " ++ actualHash)), fs)
        else
          (AssembleResult.mk true None,
           writeFile fs (outputPath a) combined)
    end.

End Methods.
End ChunkAssembler.

(** * transfer.ts *)

Module TrustedPeer.
Record t := mk {
  id : string;
  secret : string;
  name : option string;
  expiresAt : option Z
}.
End TrustedPeer.

Module TransferManagerConfig.
(** An optional key of the object the caller passes: it is left out, or
    it is there, and then its value may be [undefined], which the type of
    an optional key allows. A read gives [undefined] in both of these
    cases; they differ under the constructor's spread. *)
Inductive key (A : Type) :=
| absent
| present (v : option A).
Arguments absent {A}.
Arguments present {A} v.

Definition read {A} (k : key A) : option A :=
  match k with
  | absent => None
  | present v => v
  end.

Record t := mk {
  botId : string;
  secret : string;
  secretTTL : option Z;
  downloadDir : string;
  autoAccept_key : key bool;
  trustedPeers_key : key (list TrustedPeer.t);
  maxFileSize_key : key Z;
  chunkSize_key : key Z
}.

Definition autoAccept (c : t) : option bool := read (autoAccept_key c).
Definition trustedPeers (c : t) : option (list TrustedPeer.t) := read (trustedPeers_key c).
Definition maxFileSize (c : t) : option Z := read (maxFileSize_key c).
Definition chunkSize (c : t) : option Z := read (chunkSize_key c).

(** A key of [{ k: dflt, ...config }]: the caller's key replaces the
    default whenever it is there, also with the value [undefined]. *)
Definition spread {A} (dflt : A) (k : key A) : key A :=
  match k with
  | absent => present (Some dflt)
  | present v => present v
  end.

(** The object the constructor stores: the caller's configuration spread
    over the defaults. *)
Definition with_defaults (c : t) : t :=
  mk (botId c) (secret c) (secretTTL c) (downloadDir c)
     (spread false (autoAccept_key c))
     (spread [] (trustedPeers_key c))
     (spread (100 * 1024 * 1024) (maxFileSize_key c))
     (spread DEFAULT_CHUNK_SIZE (chunkSize_key c)).
End TransferManagerConfig.

(** The notifications of the [EventEmitter], with the transfer's id in place
    of the transfer object. Listeners only observe. *)
Inductive Event :=
| offer_sent (id : string)
| offer_received (id : string)
| transfer_accepted (id : string)
| transfer_rejected (id : string)
| transfer_started (id : string)
| chunk_sent (id : string) (index : Z)
| chunk_received (id : string) (index : Z) (progress : spec_float)
| ack_received (id : string) (index : Z)
| transfer_completed (id : string)
| transfer_failed (id : string)
| transfer_resumed (id : string).

(** A [TransferManager] ([config], [transfers], [assemblers], [filePaths])
    with what it acts on: the node's files, the messages handed to
    [sendMessage] (oldest first; the host's function is taken to resolve),
    the emitted events, and the clock: [clock k] is what the [k]-th call of
    [Date.now()] returns and [ticks] counts the calls made so far. *)
Record State := mkState {
  config : TransferManagerConfig.t;
  transfers : gmap string TransferInfo.t;
  assemblers : gmap string ChunkAssembler.t;
  filePaths : gmap string string;
  files : Files;
  sent : list (string * OCFTMessage.t);
  emitted : list Event;
  clock : nat → Z;
  ticks : nat
}.

Definition set_transfers (v : gmap string TransferInfo.t) (s : State) : State :=
  mkState (config s) v (assemblers s) (filePaths s) (files s) (sent s)
          (emitted s) (clock s) (ticks s).
Definition set_assemblers (v : gmap string ChunkAssembler.t) (s : State) : State :=
  mkState (config s) (transfers s) v (filePaths s) (files s) (sent s)
          (emitted s) (clock s) (ticks s).
Definition set_filePaths (v : gmap string string) (s : State) : State :=
  mkState (config s) (transfers s) (assemblers s) v (files s) (sent s)
          (emitted s) (clock s) (ticks s).
Definition set_files (v : Files) (s : State) : State :=
  mkState (config s) (transfers s) (assemblers s) (filePaths s) v (sent s)
          (emitted s) (clock s) (ticks s).
Definition set_sent (v : list (string * OCFTMessage.t)) (s : State) : State :=
  mkState (config s) (transfers s) (assemblers s) (filePaths s) (files s) v
          (emitted s) (clock s) (ticks s).
Definition set_emitted (v : list Event) (s : State) : State :=
  mkState (config s) (transfers s) (assemblers s) (filePaths s) (files s)
          (sent s) v (clock s) (ticks s).
Definition set_ticks (v : nat) (s : State) : State :=
  mkState (config s) (transfers s) (assemblers s) (filePaths s) (files s)
          (sent s) (emitted s) (clock s) v.

(** [new TransferManager(config, sendMessage)] on a node with the given
    files and clock. *)
Definition TransferManager_new (c : TransferManagerConfig.t) (fs : Files)
    (clk : nat → Z) : State :=
  mkState (TransferManagerConfig.with_defaults c) ∅ ∅ ∅ fs [] [] clk 0.

(** ** The monad of the engine's methods *)

Definition M (A : Type) : Type := State → Result A * State.

Definition ret {A} (a : A) : M A := λ s, (Ok a, s).
Definition throw {A} (e : string) : M A := λ s, (Throw e, s).
Definition bind {A B} (m : M A) (k : A → M B) : M B :=
  λ s, match m s with
       | (Ok a, s') => k a s'
       | (Throw e, s') => (Throw e, s')
       end.

Notation "'let*' x := m 'in' k" := (bind m (λ x, k))
  (at level 10, x name, m at level 100, k at level 200, only parsing).
Notation "m ;; k" := (bind m (λ _, k))
  (at level 100, k at level 200, right associativity, only parsing).

Definition get {A} (f : State → A) : M A := λ s, (Ok (f s), s).
Definition modify (f : State → State) : M unit := λ s, (Ok tt, f s).
Definition lift {A} (r : Result A) : M A := λ s, (r, s).

Definition Date_now : M Z :=
  λ s, (Ok (clock s (ticks s)), set_ticks (S (ticks s)) s).

Definition emit (e : Event) : M unit :=
  modify (λ s, set_emitted (emitted s ++ [e]) s).

(** A mutation of the [TransferInfo] object stored under [id]. *)
Definition update (id : string) (f : TransferInfo.t → TransferInfo.t) : M unit :=
  modify (λ s, set_transfers (alter f id (transfers s)) s).

Definition createMessage (transferId from to : string) (payload : Payload)
  : M OCFTMessage.t :=
  let* now := Date_now in
  ret (OCFTMessage.mk OCFT_VERSION transferId from to now payload).

(** [send]: the message goes to [sendMessage] (as the text [encodeForChat]
    makes of it). *)
Definition send (to : string) (msg : OCFTMessage.t) : M unit :=
  modify (λ s, set_sent (sent s ++ [(to, msg)]) s).

Definition direction_eqb (a b : Direction.t) : bool :=
  match a, b with
  | Direction.send, Direction.send | Direction.receive, Direction.receive => true
  | _, _ => false
  end.

Definition find_peer (peers : option (list TrustedPeer.t)) (peerId : string)
  : option TrustedPeer.t :=
  match peers with
  | Some l => List.find (λ p, String.eqb (TrustedPeer.id p) peerId) l
  | None => None
  end.

Definition getPeerSecret (peerId : string) : M (option string) :=
  let* c := get config in
  ret (TrustedPeer.secret <$> find_peer (TransferManagerConfig.trustedPeers c) peerId).

Definition isValidSecret (secret : option string) (secretTTL : option Z) : M bool :=
  let* c := get config in
  match secret with
  | None => ret false
  | Some s =>
      if negb (truthy_string s) then ret false
      else if negb (String.eqb s (TransferManagerConfig.secret c)) then ret false
      else
        match secretTTL with
        | Some ttl =>
            if truthy_number ttl then
              let* now := Date_now in
              if now >? ttl then ret false else ret true
            else ret true
        | None => ret true
        end
  end.

Definition isPeerTrustValid (peer : TrustedPeer.t) : M bool :=
  match TrustedPeer.expiresAt peer with
  | Some e =>
      if truthy_number e then
        let* now := Date_now in ret (now <? e)
      else ret true
  | None => ret true
  end.

Section Engine.
Context `{Platform}.

(** ** Helpers *)

Definition sendNextChunk (transferId : string) (index : Z) : M unit :=
  let* transfer := get (λ s, transfers s !! transferId) in
  let* filePath := get (λ s, filePaths s !! transferId) in
  match transfer, truthy_path filePath with
  | Some transfer, Some filePath =>
      let* fs := get files in
      let* chunk :=
        lift (readChunk fs filePath index (TransferInfo.chunkSize transfer)) in
      let* botId := get (λ s, TransferManagerConfig.botId (config s)) in
      let* chunkMsg :=
        createMessage transferId botId (TransferInfo.peerId transfer)
          (PChunk (ChunkPayload.mk (Chunk.index chunk)
                     (Buffer_toString_base64 (Chunk.data chunk))
                     (Chunk.hash chunk))) in
      send (TransferInfo.peerId transfer) chunkMsg ;;
      emit (chunk_sent transferId index)
  | _, _ => ret tt
  end.

(** The [secretTTL] of an outgoing offer. *)
Definition offer_secretTTL : M (option Z) :=
  let* c := get config in
  match TransferManagerConfig.secretTTL c with
  | Some ttl =>
      if truthy_number ttl then
        let* now := Date_now in ret (Some (now + ttl))
      else ret None
  | None => ret None
  end.

(** ** Public API *)

(** [nano] is the string [nanoid(12)] returns. *)
Definition sendFile (peerId filePath nano : string) : M string :=
  let* c := get config in
  let* fs := get files in
  let* fileInfo :=
    lift (getFileInfo fs filePath
            (default DEFAULT_CHUNK_SIZE (TransferManagerConfig.chunkSize c))) in
  let transferId := "xfer_" ++ nano in
  let* startedAt := Date_now in
  let* updatedAt := Date_now in
  let transfer :=
    TransferInfo.mk transferId Direction.send TransferState.pending peerId
      (FileInfo.filename fileInfo) (FileInfo.size fileInfo)
      (FileInfo.mimeType fileInfo) (FileInfo.hash fileInfo)
      (FileInfo.chunkSize fileInfo) (FileInfo.totalChunks fileInfo)
      ∅ startedAt updatedAt None None (Some filePath) false in
  modify (λ s, set_transfers (<[transferId := transfer]> (transfers s)) s) ;;
  modify (λ s, set_filePaths (<[transferId := filePath]> (filePaths s)) s) ;;
  let* secret := getPeerSecret peerId in
  let* secretTTL := offer_secretTTL in
  let* offer :=
    createMessage transferId (TransferManagerConfig.botId c) peerId
      (POffer (OfferPayload.mk
                 (FileInfo.filename fileInfo) (FileInfo.size fileInfo)
                 (FileInfo.mimeType fileInfo) (FileInfo.hash fileInfo)
                 (FileInfo.chunkSize fileInfo) (FileInfo.totalChunks fileInfo)
                 secret secretTTL None)) in
  send peerId offer ;;
  emit (offer_sent transferId) ;;
  ret transferId.

(** What [acceptTransfer] and [rejectTransfer] require of the transfer. *)
Definition processable (transfer : option TransferInfo.t) : option TransferInfo.t :=
  match transfer with
  | Some t =>
      if (negb (direction_eqb (TransferInfo.direction t) Direction.receive)
          || negb (TransferState.eqb (TransferInfo.state t) TransferState.pending))%bool
      then None else Some t
  | None => None
  end.

Definition acceptTransfer (transferId : string) (resumeFrom : option Z) : M unit :=
  let* transfer := get (λ s, transfers s !! transferId) in
  match processable transfer with
  | None => throw "Invalid transfer or already processed"
  | Some transfer =>
      update transferId (TransferInfo.set_state TransferState.accepted) ;;
      let* now := Date_now in
      update transferId (TransferInfo.set_updatedAt now) ;;
      update transferId (TransferInfo.set_resumable true) ;;
      let* c := get config in
      let outputPath :=
        TransferManagerConfig.downloadDir c ++ "/" ++ TransferInfo.filename transfer in
      update transferId (TransferInfo.set_localPath (Some outputPath)) ;;
      let assembler :=
        ChunkAssembler.new outputPath (TransferInfo.hash transfer)
          (TransferInfo.totalChunks transfer) in
      modify (λ s, set_assemblers (<[transferId := assembler]> (assemblers s)) s) ;;
      let* accept :=
        createMessage transferId (TransferManagerConfig.botId c)
          (TransferInfo.peerId transfer)
          (PAccept (AcceptPayload.mk true resumeFrom)) in
      send (TransferInfo.peerId transfer) accept ;;
      emit (transfer_accepted transferId)
  end.

Definition rejectTransfer (transferId reason : string) : M unit :=
  let* transfer := get (λ s, transfers s !! transferId) in
  match processable transfer with
  | None => throw "Invalid transfer or already processed"
  | Some transfer =>
      update transferId (TransferInfo.set_state TransferState.rejected) ;;
      let* now := Date_now in
      update transferId (TransferInfo.set_updatedAt now) ;;
      update transferId (TransferInfo.set_error (Some reason)) ;;
      let* c := get config in
      let* reject :=
        createMessage transferId (TransferManagerConfig.botId c)
          (TransferInfo.peerId transfer)
          (PReject (RejectPayload.mk reason)) in
      send (TransferInfo.peerId transfer) reject ;;
      emit (transfer_rejected transferId)
  end.

Definition getTransfer (transferId : string) (s : State) : option TransferInfo.t :=
  transfers s !! transferId.

(** ** Handlers *)

(** [payload.size > (this.config.maxFileSize || Infinity)] *)
Definition exceeds_limit (size : Z) (maxFileSize : option Z) : bool :=
  match maxFileSize with
  | Some m => if truthy_number m then size >? m else false
  | None => false
  end.

Definition handleOffer (msg : OCFTMessage.t) (payload : OfferPayload.t) : M unit :=
  let* c := get config in
  let transferId := OCFTMessage.transferId msg in
  if exceeds_limit (OfferPayload.size payload) (TransferManagerConfig.maxFileSize c)
  then
    let* reject :=
      createMessage transferId (TransferManagerConfig.botId c)
        (OCFTMessage.from msg)
        (PReject (RejectPayload.mk
                    ("File too large: " ++ pretty (OfferPayload.size payload)
                     ++ " bytes exceeds limit"))) in
    send (OCFTMessage.from msg) reject
  else
    let* startedAt := Date_now in
    let* updatedAt := Date_now in
    let transfer :=
      TransferInfo.mk transferId Direction.receive TransferState.pending
        (OCFTMessage.from msg)
        (OfferPayload.filename payload) (OfferPayload.size payload)
        (OfferPayload.mimeType payload) (OfferPayload.hash payload)
        (OfferPayload.chunkSize payload) (OfferPayload.totalChunks payload)
        ∅ startedAt updatedAt None None None false in
    modify (λ s, set_transfers (<[transferId := transfer]> (transfers s)) s) ;;
    emit (offer_received transferId) ;;
    let* valid :=
      isValidSecret (OfferPayload.secret payload) (OfferPayload.secretTTL payload) in
    if valid then acceptTransfer transferId (OfferPayload.resumeFrom payload)
    else if default false (TransferManagerConfig.autoAccept c) then
      match find_peer (TransferManagerConfig.trustedPeers c) (OCFTMessage.from msg) with
      | Some trustedPeer =>
          let* ok := isPeerTrustValid trustedPeer in
          if ok then acceptTransfer transferId (OfferPayload.resumeFrom payload)
          else ret tt
      | None => ret tt
      end
    else ret tt.

(** The transfer a handler works on: tracked, and of the given direction. *)
Definition tracked (d : Direction.t) (transfer : option TransferInfo.t)
  : option TransferInfo.t :=
  match transfer with
  | Some t => if direction_eqb (TransferInfo.direction t) d then Some t else None
  | None => None
  end.

Definition handleAccept (msg : OCFTMessage.t) (payload : AcceptPayload.t) : M unit :=
  let transferId := OCFTMessage.transferId msg in
  let* transfer := get (λ s, transfers s !! transferId) in
  match tracked Direction.send transfer with
  | None => ret tt
  | Some _ =>
      update transferId (TransferInfo.set_state TransferState.transferring) ;;
      let* now := Date_now in
      update transferId (TransferInfo.set_updatedAt now) ;;
      emit (transfer_started transferId) ;;
      let startIndex := default 0 (AcceptPayload.resumeFrom payload) in
      sendNextChunk transferId startIndex
  end.

Definition handleReject (msg : OCFTMessage.t) (payload : RejectPayload.t) : M unit :=
  let transferId := OCFTMessage.transferId msg in
  let* transfer := get (λ s, transfers s !! transferId) in
  match transfer with
  | None => ret tt
  | Some _ =>
      update transferId (TransferInfo.set_state TransferState.rejected) ;;
      update transferId (TransferInfo.set_error (Some (RejectPayload.reason payload))) ;;
      let* now := Date_now in
      update transferId (TransferInfo.set_updatedAt now) ;;
      emit (transfer_rejected transferId)
  end.

Definition handleChunk (msg : OCFTMessage.t) (payload : ChunkPayload.t) : M unit :=
  let transferId := OCFTMessage.transferId msg in
  let* transfer := get (λ s, transfers s !! transferId) in
  match tracked Direction.receive transfer with
  | None => ret tt
  | Some _ =>
      let* assembler := get (λ s, assemblers s !! transferId) in
      match assembler with
      | None => ret tt
      | Some assembler =>
          update transferId (TransferInfo.set_state TransferState.transferring) ;;
          let data := Buffer_from_base64 (ChunkPayload.data payload) in
          let '(success, assembler) :=
            ChunkAssembler.addChunk assembler (ChunkPayload.index payload) data
              (ChunkPayload.hash payload) in
          modify (λ s, set_assemblers (<[transferId := assembler]> (assemblers s)) s) ;;
          (if success then
             update transferId
               (λ t, TransferInfo.set_receivedChunks
                       ({[ChunkPayload.index payload]} ∪ TransferInfo.receivedChunks t) t)
           else ret tt) ;;
          let* now := Date_now in
          update transferId (TransferInfo.set_updatedAt now) ;;
          let* botId := get (λ s, TransferManagerConfig.botId (config s)) in
          let* ack :=
            createMessage transferId botId (OCFTMessage.from msg)
              (PAck (AckPayload.mk (ChunkPayload.index payload) success
                       (if success then None else Some "Hash mismatch"))) in
          send (OCFTMessage.from msg) ack ;;
          emit (chunk_received transferId (ChunkPayload.index payload)
                  (ChunkAssembler.getProgress assembler))
      end
  end.

Definition handleAck (msg : OCFTMessage.t) (payload : AckPayload.t) : M unit :=
  let transferId := OCFTMessage.transferId msg in
  let* transfer := get (λ s, transfers s !! transferId) in
  match tracked Direction.send transfer with
  | None => ret tt
  | Some transfer =>
      if (TransferState.eqb (TransferInfo.state transfer) TransferState.completed
          || TransferState.eqb (TransferInfo.state transfer) TransferState.completing)%bool
      then
        if AckPayload.index payload =? -1 then
          update transferId (TransferInfo.set_state TransferState.completed) ;;
          let* now := Date_now in
          update transferId (TransferInfo.set_completedAt (Some now)) ;;
          emit (transfer_completed transferId)
        else ret tt
      else if negb (AckPayload.received payload) then
        sendNextChunk transferId (AckPayload.index payload)
      else
        update transferId
          (λ t, TransferInfo.set_receivedChunks
                  ({[AckPayload.index payload]} ∪ TransferInfo.receivedChunks t) t) ;;
        let* now := Date_now in
        update transferId (TransferInfo.set_updatedAt now) ;;
        emit (ack_received transferId (AckPayload.index payload)) ;;
        let nextIndex := AckPayload.index payload + 1 in
        if nextIndex <? TransferInfo.totalChunks transfer then
          sendNextChunk transferId nextIndex
        else
          update transferId (TransferInfo.set_state TransferState.completing) ;;
          let* botId := get (λ s, TransferManagerConfig.botId (config s)) in
          let* complete :=
            createMessage transferId botId (TransferInfo.peerId transfer)
              (PComplete (CompletePayload.mk (TransferInfo.totalChunks transfer)
                            (TransferInfo.hash transfer))) in
          send (TransferInfo.peerId transfer) complete
  end.

(** [handleComplete], the write of [assemble] taken.
    [Refusing.handleComplete] is the handler with a write that can be
    rejected: it throws what the write throws, before any change. *)
Definition handleComplete (msg : OCFTMessage.t) (payload : CompletePayload.t) : M unit :=
  let transferId := OCFTMessage.transferId msg in
  let* transfer := get (λ s, transfers s !! transferId) in
  match tracked Direction.receive transfer with
  | None => ret tt
  | Some _ =>
      let* assembler := get (λ s, assemblers s !! transferId) in
      match assembler with
      | None => ret tt
      | Some assembler =>
          let* fs := get files in
          let '(result, fs') := ChunkAssembler.assemble assembler fs in
          modify (set_files fs') ;;
          (if AssembleResult.success result then
             update transferId (TransferInfo.set_state TransferState.completed) ;;
             let* now := Date_now in
             update transferId (TransferInfo.set_completedAt (Some now)) ;;
             emit (transfer_completed transferId)
           else
             update transferId (TransferInfo.set_state TransferState.failed) ;;
             update transferId (TransferInfo.set_error (AssembleResult.error result)) ;;
             emit (transfer_failed transferId)) ;;
          let* now := Date_now in
          update transferId (TransferInfo.set_updatedAt now) ;;
          let* botId := get (λ s, TransferManagerConfig.botId (config s)) in
          let* ack :=
            createMessage transferId botId (OCFTMessage.from msg)
              (PAck (AckPayload.mk (-1) (AssembleResult.success result)
                       (AssembleResult.error result))) in
          send (OCFTMessage.from msg) ack
      end
  end.

Definition handleError (msg : OCFTMessage.t) (payload : ErrorPayload.t) : M unit :=
  let transferId := OCFTMessage.transferId msg in
  let* transfer := get (λ s, transfers s !! transferId) in
  match transfer with
  | None => ret tt
  | Some _ =>
      update transferId (TransferInfo.set_state TransferState.failed) ;;
      update transferId (TransferInfo.set_error (Some (ErrorPayload.message payload))) ;;
      let* now := Date_now in
      update transferId (TransferInfo.set_updatedAt now) ;;
      emit (transfer_failed transferId)
  end.

(** ** Message handling *)

(** The [switch] of [handleMessage]. *)
Definition dispatch (msg : OCFTMessage.t) : M unit :=
  match OCFTMessage.payload msg with
  | POffer p => handleOffer msg p
  | PAccept p => handleAccept msg p
  | PReject p => handleReject msg p
  | PChunk p => handleChunk msg p
  | PAck p => handleAck msg p
  | PComplete p => handleComplete msg p
  | PError p => handleError msg p
  end.

Definition handleMessage (fromId text : string) : M bool :=
  if negb (startsWith text OCFT_PREFIX) then ret false
  else
    match decodeFromChat text with
    | None => ret false
    | Some msg =>
        let* botId := get (λ s, TransferManagerConfig.botId (config s)) in
        if negb (String.eqb (OCFTMessage.to msg) botId) then ret false
        else dispatch msg ;; ret true
    end.

(** ** Resume *)

(** [Math.max(...Array.from(receivedChunks), -1)] *)
Definition last_index (receivedChunks : gset Z) : Z :=
  set_fold Z.max (-1) receivedChunks.

Definition resumeTransfer (transferId : string) : M unit :=
  let* transfer := get (λ s, transfers s !! transferId) in
  match transfer with
  | None => throw "Transfer not found"
  | Some transfer =>
      if TransferState.eqb (TransferInfo.state transfer) TransferState.completed
      then throw "Transfer already completed"
      else if direction_eqb (TransferInfo.direction transfer) Direction.receive then
        let lastChunk := last_index (TransferInfo.receivedChunks transfer) in
        update transferId (TransferInfo.set_state TransferState.pending) ;;
        acceptTransfer transferId (Some (lastChunk + 1))
      else
        let lastAcked := last_index (TransferInfo.receivedChunks transfer) in
        let* filePath := get (λ s, filePaths s !! transferId) in
        match truthy_path filePath with
        | None => throw "File path not found"
        | Some _ =>
            let* c := get config in
            let* secret := getPeerSecret (TransferInfo.peerId transfer) in
            let* secretTTL := offer_secretTTL in
            let* offer :=
              createMessage transferId (TransferManagerConfig.botId c)
                (TransferInfo.peerId transfer)
                (POffer (OfferPayload.mk
                           (TransferInfo.filename transfer) (TransferInfo.size transfer)
                           (TransferInfo.mimeType transfer) (TransferInfo.hash transfer)
                           (TransferInfo.chunkSize transfer)
                           (TransferInfo.totalChunks transfer)
                           secret secretTTL (Some (lastAcked + 1)))) in
            update transferId (TransferInfo.set_state TransferState.pending) ;;
            send (TransferInfo.peerId transfer) offer ;;
            emit (transfer_resumed transferId)
        end
  end.

End Engine.

(** * Node's library on concrete inputs

    SHA-256 as FIPS 180-4 defines it and base64 as RFC 4648 does, for the
    examples that run the engine. *)

Module SHA256.

Definition w32 (x : Z) : Z := x mod 2 ^ 32.
Definition add32 (x y : Z) : Z := w32 (x + y).
Definition rotr (n x : Z) : Z := Z.lor (Z.shiftr x n) (w32 (Z.shiftl x (32 - n))).

Definition Ch (x y z : Z) : Z := Z.lxor (Z.land x y) (Z.land (Z.lnot x) z).
Definition Maj (x y z : Z) : Z :=
  Z.lxor (Z.lxor (Z.land x y) (Z.land x z)) (Z.land y z).
Definition Sigma0 (x : Z) : Z := Z.lxor (Z.lxor (rotr 2 x) (rotr 13 x)) (rotr 22 x).
Definition Sigma1 (x : Z) : Z := Z.lxor (Z.lxor (rotr 6 x) (rotr 11 x)) (rotr 25 x).
Definition sigma0 (x : Z) : Z := Z.lxor (Z.lxor (rotr 7 x) (rotr 18 x)) (Z.shiftr x 3).
Definition sigma1 (x : Z) : Z := Z.lxor (Z.lxor (rotr 17 x) (rotr 19 x)) (Z.shiftr x 10).

Definition K : list Z :=
  [ 1116352408; 1899447441; 3049323471; 3921009573;
    961987163; 1508970993; 2453635748; 2870763221;
    3624381080; 310598401; 607225278; 1426881987;
    1925078388; 2162078206; 2614888103; 3248222580;
    3835390401; 4022224774; 264347078; 604807628;
    770255983; 1249150122; 1555081692; 1996064986;
    2554220882; 2821834349; 2952996808; 3210313671;
    3336571891; 3584528711; 113926993; 338241895;
    666307205; 773529912; 1294757372; 1396182291;
    1695183700; 1986661051; 2177026350; 2456956037;
    2730485921; 2820302411; 3259730800; 3345764771;
    3516065817; 3600352804; 4094571909; 275423344;
    430227734; 506948616; 659060556; 883997877;
    958139571; 1322822218; 1537002063; 1747873779;
    1955562222; 2024104815; 2227730452; 2361852424;
    2428436474; 2756734187; 3204031479; 3329325298 ].

Definition H0 : list Z :=
  [ 1779033703; 3144134277; 1013904242; 2773480762;
    1359893119; 2600822924; 528734635; 1541459225 ].

(** Big-endian bytes of a number, [n] of them. *)
Fixpoint be_bytes (n : nat) (x : Z) : list Z :=
  match n with
  | O => []
  | S n' => be_bytes n' (x / 256) ++ [x mod 256]
  end.

Definition pad (msg : list Z) : list Z :=
  let len := Z.of_nat (length msg) in
  let zeros := Z.to_nat ((55 - len) mod 64) in
  msg ++ [128] ++ replicate zeros 0 ++ be_bytes 8 (8 * len).

(** The 32-bit big-endian words of a byte sequence. *)
Fixpoint words (fuel : nat) (bs : list Z) : list Z :=
  match fuel, bs with
  | S f, b0 :: b1 :: b2 :: b3 :: r =>
      (((b0 * 256 + b1) * 256 + b2) * 256 + b3) :: words f r
  | _, _ => []
  end.

(** The message schedule, most recent word first. *)
Fixpoint schedule (n : nat) (w : list Z) : list Z :=
  match n with
  | O => w
  | S n' =>
      let x := add32 (add32 (sigma1 (nth 1 w 0)) (nth 6 w 0))
                     (add32 (sigma0 (nth 14 w 0)) (nth 15 w 0)) in
      schedule n' (x :: w)
  end.

Definition round (s : list Z) (kw : Z * Z) : list Z :=
  match s with
  | [a; b; c; d; e; f; g; h] =>
      let t1 := add32 (add32 (add32 h (Sigma1 e)) (add32 (Ch e f g) (fst kw))) (snd kw) in
      let t2 := add32 (Sigma0 a) (Maj a b c) in
      [add32 t1 t2; a; b; c; add32 d t1; e; f; g]
  | _ => s
  end.

Definition compress (h : list Z) (block : list Z) : list Z :=
  let w := rev (schedule 48 (rev block)) in
  let s := fold_left round (combine K w) h in
  zip_with add32 h s.

Fixpoint blocks (fuel : nat) (h ws : list Z) : list Z :=
  match fuel with
  | O => h
  | S f =>
      match ws with
      | [] => h
      | _ => blocks f (compress h (take 16 ws)) (drop 16 ws)
      end
  end.

Definition hex_digit (d : Z) : ascii :=
  ascii_of_nat (Z.to_nat (if d <? 10 then 48 + d else 87 + d)).

Fixpoint hex (n : nat) (x : Z) : string :=
  match n with
  | O => EmptyString
  | S n' => hex n' (x / 16) ++ String (hex_digit (x mod 16)) EmptyString
  end.

Definition digest_hex (data : list byte) : string :=
  let bs := pad ((λ b, Z.of_N (Byte.to_N b)) <$> data) in
  let ws := words (length bs) bs in
  let h := blocks (length ws) H0 ws in
  String.concat "" (hex 8 <$> h).

End SHA256.

Module Base64.

Definition alphabet : string :=
  "ABCDEFGHIJKLMNOPQRSTUVWXYZabcdefghijklmnopqrstuvwxyz0123456789+/".

Definition digit (d : Z) : ascii :=
  default "="%char (String.get (Z.to_nat d) alphabet).

Fixpoint encode_bytes (fuel : nat) (bs : list Z) : string :=
  match fuel, bs with
  | S f, b0 :: b1 :: b2 :: r =>
      let n := (b0 * 256 + b1) * 256 + b2 in
      String (digit (n / 262144)) (String (digit (n / 4096 mod 64))
        (String (digit (n / 64 mod 64)) (String (digit (n mod 64))
           (encode_bytes f r))))
  | S _, [b0; b1] =>
      let n := (b0 * 256 + b1) * 256 in
      String (digit (n / 262144)) (String (digit (n / 4096 mod 64))
        (String (digit (n / 64 mod 64)) "="))
  | S _, [b0] =>
      let n := b0 * 65536 in
      String (digit (n / 262144)) (String (digit (n / 4096 mod 64)) "==")
  | _, _ => EmptyString
  end.

Definition encode (data : list byte) : string :=
  encode_bytes (S (length data)) ((λ b, Z.of_N (Byte.to_N b)) <$> data).

(** The value of a character of the alphabet. *)
Definition value (c : ascii) : option Z :=
  let n := Z.of_nat (nat_of_ascii c) in
  if (65 <=? n) && (n <=? 90) then Some (n - 65)
  else if (97 <=? n) && (n <=? 122) then Some (n - 71)
  else if (48 <=? n) && (n <=? 57) then Some (n + 4)
  else if n =? 43 then Some 62
  else if n =? 47 then Some 63
  else None.

(** The 6-bit digits up to the padding. *)
Fixpoint digits (s : string) : list Z :=
  match s with
  | EmptyString => []
  | String c r =>
      match value c with
      | Some v => v :: digits r
      | None => if Ascii.eqb c "="%char then [] else digits r
      end
  end.

Definition to_byte (z : Z) : byte :=
  default x00 (Byte.of_N (Z.to_N (z mod 256))).

Fixpoint decode_digits (fuel : nat) (ds : list Z) : list byte :=
  match fuel, ds with
  | S f, d0 :: d1 :: d2 :: d3 :: r =>
      let n := ((d0 * 64 + d1) * 64 + d2) * 64 + d3 in
      to_byte (n / 65536) :: to_byte (n / 256) :: to_byte n :: decode_digits f r
  | S _, [d0; d1; d2] =>
      let n := ((d0 * 64 + d1) * 64 + d2) * 64 in
      [to_byte (n / 65536); to_byte (n / 256)]
  | S _, [d0; d1] =>
      let n := (d0 * 64 + d1) * 4096 in
      [to_byte (n / 65536)]
  | _, _ => []
  end.

Definition decode (s : string) : list byte :=
  let ds := digits s in decode_digits (S (length ds)) ds.

End Base64.

Definition string_of_bytes (bs : list byte) : string := string_of_list_byte bs.

(** * Definitions the properties are stated with *)

Section Harness.
Context `{Platform}.

(** Feeding an assembler the chunks [readChunk] produces for the given
    indices, in the order given; [None] when a read throws or a chunk is
    refused. *)
Fixpoint feed (fs : Files) (filePath : string) (chunkSize : Z)
    (indices : list Z) (a : ChunkAssembler.t) : option ChunkAssembler.t :=
  match indices with
  | [] => Some a
  | i :: rest =>
      match readChunk fs filePath i chunkSize with
      | Ok c =>
          match ChunkAssembler.addChunk a (Chunk.index c) (Chunk.data c) (Chunk.hash c) with
          | (true, a') => feed fs filePath chunkSize rest a'
          | (false, _) => None
          end
      | Throw _ => None
      end
  end.

End Harness.

(** The stored chunks with an index in [0, totalChunks), concatenated in
    index order. *)
Definition in_order (a : ChunkAssembler.t) : list byte :=
  concat (omap (λ i, ChunkAssembler.chunks a !! i) (seqZ 0 (ChunkAssembler.totalChunks a))).

(** The progress value of [count] chunks out of [total]. *)
Definition progress_of (count total : Z) : spec_float :=
  Number.Math_round
    (Number.mul (Number.div (Number.of_Z count) (Number.of_Z total)) (Number.of_Z 100)).

(** [mrs] is the position of the fraction [N / D] as the rounding of
    [SpecFloat] records it: its integer part, whether the rest reaches one
    half, and whether anything is left beyond that. *)
Definition located (N D : Z) (mrs : shr_record) : Prop :=
  0 < D ∧ 0 ≤ shr_m mrs
  ∧ shr_m mrs * D ≤ N < (shr_m mrs + 1) * D
  ∧ shr_r mrs = ((2 * shr_m mrs + 1) * D <=? 2 * N)
  ∧ shr_s mrs = negb (N =? shr_m mrs * D) && negb (2 * N =? (2 * shr_m mrs + 1) * D).

(** The bytes [readChunk] cuts out for chunk [i]. *)
Definition chunk_bytes (data : list byte) (i chunkSize : Z) : list byte :=
  subarray data (i * chunkSize)
    (Z.min (i * chunkSize + chunkSize) (Z.of_nat (length data))).


(** * Sample nodes

    The examples run the engine on Node's library as given above. The JSON
    texts are written with ['] for the double quote, and [JSON.parse] is
    tabulated on them. *)

Fixpoint json (s : string) : string :=
  match s with
  | EmptyString => EmptyString
  | String c r => String (if Ascii.eqb c "'"%char then ascii_of_nat 34 else c) (json r)
  end.

Definition hello_hash : string :=
  "2cf24dba5fb0a30e26e83b2ac5b9e29e1b161e5c1fa7425e73043362938b9824".
Definition empty_hash : string :=
  "e3b0c44298fc1c149afbf4c8996fb92427ae41e4649b934ca495991b7852b855".

Definition offer_json : string :=
  json ("{'version':'1.0','type':'offer','transferId':'xfer_demo','from':'alice',"
        ++ "'to':'bob','timestamp':1700000000000,'payload':{'filename':'notes.txt',"
        ++ "'size':5,'mimeType':'text/plain','hash':'" ++ hello_hash
        ++ "','chunkSize':5,'totalChunks':1,'secret':'s3cret'}}").
Definition offer_message : OCFTMessage.t :=
  OCFTMessage.mk "1.0" "xfer_demo" "alice" "bob" 1700000000000
    (POffer (OfferPayload.mk "notes.txt" 5 "text/plain" hello_hash 5 1
               (Some "s3cret") None None)).

Definition chunk0_json : string :=
  json ("{'version':'1.0','type':'chunk','transferId':'xfer_demo','from':'alice',"
        ++ "'to':'bob','timestamp':1700000000001,'payload':{'index':0,"
        ++ "'data':'aGVsbG8=','hash':'" ++ hello_hash ++ "'}}").
Definition chunk0_message : OCFTMessage.t :=
  OCFTMessage.mk "1.0" "xfer_demo" "alice" "bob" 1700000000001
    (PChunk (ChunkPayload.mk 0 "aGVsbG8=" hello_hash)).

Definition chunk1_json : string :=
  json ("{'version':'1.0','type':'chunk','transferId':'xfer_demo','from':'alice',"
        ++ "'to':'bob','timestamp':1700000000002,'payload':{'index':1,"
        ++ "'data':'','hash':'" ++ empty_hash ++ "'}}").
Definition chunk1_message : OCFTMessage.t :=
  OCFTMessage.mk "1.0" "xfer_demo" "alice" "bob" 1700000000002
    (PChunk (ChunkPayload.mk 1 "" empty_hash)).

Definition stray_json : string :=
  json ("{'version':'1.0','type':'reject','transferId':'xfer_demo','from':'alice',"
        ++ "'to':'carol','timestamp':1700000000003,'payload':{'reason':'busy'}}").
Definition stray_message : OCFTMessage.t :=
  OCFTMessage.mk "1.0" "xfer_demo" "alice" "carol" 1700000000003
    (PReject (RejectPayload.mk "busy")).

Definition sample_texts : list (string * OCFTMessage.t) :=
  [ (offer_json, offer_message); (chunk0_json, chunk0_message);
    (chunk1_json, chunk1_message); (stray_json, stray_message) ].

Definition node : Platform :=
  {| createHash_sha256_hex := SHA256.digest_hex;
     Buffer_toString_base64 := Base64.encode;
     Buffer_from_base64 := Base64.decode;
     Buffer_toString_utf8 := string_of_bytes;
     JSON_parse := λ s, snd <$> List.find (λ e, String.eqb s (fst e)) sample_texts |}.

(** The chat text of a JSON text: the prefix and the base64 of its bytes. *)
Definition chat_text (json_text : string) : string :=
  OCFT_PREFIX ++ Base64.encode (list_byte_of_string json_text).

Definition sample_files : Files :=
  {[ "/data/notes.txt" := list_byte_of_string "hello world!";
     "/data/empty.bin" := [] ]}.

Definition sample_clock (k : nat) : Z := 1700000000000 + Z.of_nat k.

Definition bob_config : TransferManagerConfig.t :=
  TransferManagerConfig.mk "bob" "s3cret" None "/downloads"
    TransferManagerConfig.absent TransferManagerConfig.absent
    TransferManagerConfig.absent TransferManagerConfig.absent.

Definition bob : State := TransferManager_new bob_config ∅ sample_clock.

Definition alice_config : TransferManagerConfig.t :=
  TransferManagerConfig.mk "alice" "al1ce" None "/downloads"
    TransferManagerConfig.absent TransferManagerConfig.absent
    TransferManagerConfig.absent (TransferManagerConfig.present (Some 5)).

Definition alice : State := TransferManager_new alice_config sample_files sample_clock.

(** An assembler for three chunks that holds two of them. *)
Definition two_of_three : ChunkAssembler.t :=
  ChunkAssembler.mk {[ 0 := list_byte_of_string "hello"; 1 := list_byte_of_string " worl" ]}
    "7509e5bda0c762d2bac7f90d758b5b2263fa01ccbc542ab5e3df163be08e6ca9" 3
    "/downloads/notes.txt".

Section Messages.
Context `{Platform}.

(** The payload of the chunk message for chunk [i] of a file. *)
Definition chunk_payload (data : list byte) (chunkSize i : Z) : Payload :=
  PChunk (ChunkPayload.mk i
            (Buffer_toString_base64 (chunk_bytes data i chunkSize))
            (sha256 (chunk_bytes data i chunkSize))).

(** Acknowledgements handled one after the other. *)
Fixpoint handleAcks (acks : list (OCFTMessage.t * AckPayload.t)) : M unit :=
  match acks with
  | [] => ret tt
  | (msg, payload) :: rest => handleAck msg payload ;; handleAcks rest
  end.

End Messages.

(** The payloads of the messages sent, oldest first. *)
Definition sent_payloads (s : State) : list Payload :=
  (λ m, OCFTMessage.payload m.2) <$> sent s.


(** Whether [handleAck] takes the transfer to be past its last chunk. *)
Definition finishing (t : TransferInfo.t) : bool :=
  TransferState.eqb (TransferInfo.state t) TransferState.completed
  || TransferState.eqb (TransferInfo.state t) TransferState.completing.

Section Sending.
Context `{Platform}.


End Sending.

(** ** Invariants of the transfer table *)

(** [m] keeps [J] true of the configuration and the transfers, whether it
    returns or throws. *)
Definition preserves {A} (J : TransferManagerConfig.t → gmap string TransferInfo.t → Prop)
    (m : M A) : Prop :=
  ∀ s, J (config s) (transfers s) → J (config (m s).2) (transfers (m s).2).

(** The indices recorded for a transfer lie in [0, totalChunks). *)
Definition in_range (t : TransferInfo.t) : Prop :=
  0 ≤ TransferInfo.totalChunks t
  ∧ ∀ i, i ∈ TransferInfo.receivedChunks t → 0 ≤ i < TransferInfo.totalChunks t.

Definition well_bounded (c : TransferManagerConfig.t)
    (m : gmap string TransferInfo.t) : Prop :=
  0 < default DEFAULT_CHUNK_SIZE (TransferManagerConfig.chunkSize c)
  ∧ ∀ id t, m !! id = Some t → in_range t.

(** [well_bounded], and [i] is an index of the transfer [id] if there is one. *)
Definition well_bounded_with (id : string) (i : Z) (c : TransferManagerConfig.t)
    (m : gmap string TransferInfo.t) : Prop :=
  well_bounded c m
  ∧ ∀ t, m !! id = Some t → 0 ≤ i < TransferInfo.totalChunks t.

(** A mutation of a transfer that leaves its chunk count and its recorded
    indices alone. *)
Definition keeps (f : TransferInfo.t → TransferInfo.t) : Prop :=
  ∀ t, TransferInfo.totalChunks (f t) = TransferInfo.totalChunks t
       ∧ TransferInfo.receivedChunks (f t) = TransferInfo.receivedChunks t.

Section Calls.
Context `{Platform}.

(** What the host does with the engine. *)
Inductive Call :=
| call_handleMessage (fromId text : string)
| call_sendFile (peerId filePath nano : string)
| call_acceptTransfer (transferId : string) (resumeFrom : option Z)
| call_rejectTransfer (transferId reason : string)
| call_resumeTransfer (transferId : string).

Definition perform (c : Call) (s : State) : State :=
  match c with
  | call_handleMessage fromId text => (handleMessage fromId text s).2
  | call_sendFile peerId filePath nano => (sendFile peerId filePath nano s).2
  | call_acceptTransfer transferId resumeFrom => (acceptTransfer transferId resumeFrom s).2
  | call_rejectTransfer transferId reason => (rejectTransfer transferId reason s).2
  | call_resumeTransfer transferId => (resumeTransfer transferId s).2
  end.

(** The chunk counts and indices a message carries are in range for the
    engine's state: an offer declares no negative chunk count; a chunk
    for a tracked transfer, and an acknowledgement the sender will record
    (one with [received = true], before the transfer is completing), name
    an index of [0, totalChunks). *)
Definition indices_in_range (s : State) (msg : OCFTMessage.t) : Prop :=
  match OCFTMessage.payload msg with
  | POffer p => 0 ≤ OfferPayload.totalChunks p
  | PChunk p =>
      ∀ t, transfers s !! OCFTMessage.transferId msg = Some t →
           0 ≤ ChunkPayload.index p < TransferInfo.totalChunks t
  | PAck p =>
      ∀ t, transfers s !! OCFTMessage.transferId msg = Some t →
           finishing t = true ∨ AckPayload.received p = false
           ∨ 0 ≤ AckPayload.index p < TransferInfo.totalChunks t
  | _ => True
  end.

Definition call_in_range (s : State) (c : Call) : Prop :=
  match c with
  | call_handleMessage _ text =>
      ∀ msg, decodeFromChat text = Some msg → indices_in_range s msg
  | _ => True
  end.

(** A sequence of calls, each in range for the state it meets. *)
Fixpoint calls_in_range (s : State) (cs : list Call) : Prop :=
  match cs with
  | [] => True
  | c :: rest => call_in_range s c ∧ calls_in_range (perform c s) rest
  end.

Definition perform_all (cs : list Call) (s : State) : State :=
  fold_left (λ s c, perform c s) cs s.

End Calls.

(** The state in which [handleOffer] evaluates auto-accept: the offer is
    tracked as a [pending] transfer and announced. *)
Definition offered (msg : OCFTMessage.t) (p : OfferPayload.t) (st : State) : State :=
  let id := OCFTMessage.transferId msg in
  mkState (config st)
    (<[id := TransferInfo.mk id Direction.receive TransferState.pending
               (OCFTMessage.from msg) (OfferPayload.filename p) (OfferPayload.size p)
               (OfferPayload.mimeType p) (OfferPayload.hash p)
               (OfferPayload.chunkSize p) (OfferPayload.totalChunks p) ∅
               (clock st (ticks st)) (clock st (S (ticks st))) None None None false]>
       (transfers st))
    (assemblers st) (filePaths st) (files st) (sent st)
    (emitted st ++ [offer_received id]) (clock st) (S (S (ticks st))).

(** ** A sender and what it is told *)

Definition transfer_id : string := "xfer_abcdefghijkl".

(** [alice] after [sendFile("bob", "/data/notes.txt")]. *)
Definition alice_offering : State :=
  (@sendFile node "bob" "/data/notes.txt" "abcdefghijkl" alice).2.

Definition alice_transfer : TransferInfo.t :=
  TransferInfo.mk transfer_id Direction.send TransferState.pending "bob"
    "notes.txt" 12 "text/plain"
    "7509e5bda0c762d2bac7f90d758b5b2263fa01ccbc542ab5e3df163be08e6ca9" 5 3 ∅
    1700000000000 1700000000001 None None (Some "/data/notes.txt") false.

Definition accept_payload : AcceptPayload.t := AcceptPayload.mk true None.
Definition accept_message : OCFTMessage.t :=
  OCFTMessage.mk "1.0" transfer_id "bob" "alice" 1700000000100 (PAccept accept_payload).

Definition ack_payload (i : Z) : AckPayload.t := AckPayload.mk i true None.
Definition ack_message (i : Z) : OCFTMessage.t :=
  OCFTMessage.mk "1.0" transfer_id "bob" "alice" (1700000000200 + i) (PAck (ack_payload i)).

Definition three_acks : list (OCFTMessage.t * AckPayload.t) :=
  [ (ack_message 0, ack_payload 0); (ack_message 1, ack_payload 1);
    (ack_message 2, ack_payload 2) ].

(** [alice] after the accept and the three acknowledgements. *)
Definition alice_completing : State :=
  ((@handleAccept node accept_message accept_payload ;; @handleAcks node three_acks)
     alice_offering).2.

Definition final_ack_payload : AckPayload.t := AckPayload.mk (-1) true None.
Definition final_ack_message : OCFTMessage.t :=
  OCFTMessage.mk "1.0" transfer_id "bob" "alice" 1700000000300 (PAck final_ack_payload).

Definition error_payload : ErrorPayload.t := ErrorPayload.mk "E_PEER" "peer gave up" false.
Definition error_message : OCFTMessage.t :=
  OCFTMessage.mk "1.0" transfer_id "bob" "alice" 1700000000050 (PError error_payload).

(** [alice] after the peer reported an error: the transfer is [failed]. *)
Definition alice_failed : State := (handleError error_message error_payload alice_offering).2.

Definition reject_payload : RejectPayload.t := RejectPayload.mk "busy".
Definition reject_message : OCFTMessage.t :=
  OCFTMessage.mk "1.0" transfer_id "bob" "alice" 1700000000060 (PReject reject_payload).

(** [alice] after the peer rejected the offer. *)
Definition alice_rejected : State :=
  (handleReject reject_message reject_payload alice_offering).2.

(** The transfer a state tracks under [id], or the sample transfer without
    one. *)
Definition transfer_of (id : string) (s : State) : TransferInfo.t :=
  default alice_transfer (transfers s !! id).

Definition offer_payload : OfferPayload.t :=
  OfferPayload.mk "notes.txt" 5 "text/plain" hello_hash 5 1 (Some "s3cret") None None.

(** An offer whose secret expires at the very time the receiver checks it
    (the third reading of [sample_clock]). *)
Definition expiring_payload : OfferPayload.t :=
  OfferPayload.mk "notes.txt" 5 "text/plain" hello_hash 5 1 (Some "s3cret")
    (Some 1700000000002) None.
Definition expiring_message : OCFTMessage.t :=
  OCFTMessage.mk "1.0" "xfer_demo" "alice" "bob" 1700000000000 (POffer expiring_payload).

(** An offer with another secret. *)
Definition guessing_payload : OfferPayload.t :=
  OfferPayload.mk "notes.txt" 5 "text/plain" hello_hash 5 1 (Some "guess") None None.
Definition guessing_message : OCFTMessage.t :=
  OCFTMessage.mk "1.0" "xfer_demo" "alice" "bob" 1700000000000 (POffer guessing_payload).

(** What the receiver is handed: the offer and the chunk of a one-chunk
    file, and then a chunk with index 1. *)
Definition offer_and_chunk : list Call :=
  [ call_handleMessage "alice" (chat_text offer_json);
    call_handleMessage "alice" (chat_text chunk0_json) ].

Definition offer_and_two_chunks : list Call :=
  offer_and_chunk ++ [ call_handleMessage "alice" (chat_text chunk1_json) ].



(** A property of the configuration alone. *)
Definition about_config (J : TransferManagerConfig.t → gmap string TransferInfo.t → Prop)
  : Prop :=
  ∀ c m m', J c m → J c m'.

(** The mutation that records index [i]. *)
Definition record_index (i : Z) (t : TransferInfo.t) : TransferInfo.t :=
  TransferInfo.set_receivedChunks ({[i]} ∪ TransferInfo.receivedChunks t) t.

(** * The rest of chunker.ts *)

Section ReadAll.
Context `{Platform}.

(** The chunks the generator [readAllChunks] yields, in the order it yields
    them. The file is read once, before the first chunk is cut, so a file
    that cannot be read makes the first request throw. *)
Definition readAllChunks (fs : Files) (filePath : string) (chunkSize : Z)
  : Result (list Chunk.t) :=
  match readFile fs filePath with
  | Throw e => Throw e
  | Ok data =>
      let totalChunks := Math_ceil_div (Z.of_nat (length data)) chunkSize in
      Ok ((λ i,
             let start := i * chunkSize in
             let end_ := Z.min (start + chunkSize) (Z.of_nat (length data)) in
             let chunkData := subarray data start end_ in
             Chunk.mk i chunkData (sha256 chunkData))
            <$> seqZ 0 totalChunks)
  end.

End ReadAll.

(** Whether a character occurs in a string. *)
Fixpoint occurs (c : ascii) (s : string) : bool :=
  match s with
  | EmptyString => false
  | String c' r => Ascii.eqb c c' || occurs c r
  end.

(** The description of the sample file, cut into chunks of five bytes. *)
Definition notes_info : FileInfo.t :=
  FileInfo.mk "notes.txt" 12 "text/plain"
    "7509e5bda0c762d2bac7f90d758b5b2263fa01ccbc542ab5e3df163be08e6ca9" 5 3.

Section AddChunks.
Context `{Platform}.

(** Chunks (index, bytes, announced hash) offered to an assembler one after
    the other, each accepted or refused by [addChunk]. *)
Fixpoint addChunks (l : list (Z * list byte * string)) (a : ChunkAssembler.t)
  : ChunkAssembler.t :=
  match l with
  | [] => a
  | (i, d, h) :: rest => addChunks rest (ChunkAssembler.addChunk a i d h).2
  end.

End AddChunks.

(** An assembler for one chunk that was given a chunk with index 1. *)
Definition one_and_stray : ChunkAssembler.t :=
  ChunkAssembler.mk {[ 1 := [] ]} hello_hash 1 "/downloads/notes.txt".

(** * The rest of transfer.ts *)

Section Receiving.
Context `{Platform}.

(** Chunk messages handled one after the other. *)
Fixpoint handleChunks (chunks : list (OCFTMessage.t * ChunkPayload.t)) : M unit :=
  match chunks with
  | [] => ret tt
  | (msg, payload) :: rest => handleChunk msg payload ;; handleChunks rest
  end.

End Receiving.

Section ChunkMessages.
Context `{Platform}.

(** The chunk messages of a file for transfer [id]: each carries a chunk
    of the file as the sender encodes it. *)
Definition chunks_of (id : string) (data : list byte) (chunkSize : Z)
    (chunks : list (OCFTMessage.t * ChunkPayload.t)) : Prop :=
  ∀ msg p, (msg, p) ∈ chunks →
    OCFTMessage.transferId msg = id
    ∧ PChunk p = chunk_payload data chunkSize (ChunkPayload.index p).

End ChunkMessages.

(** The transfer [id] is an incoming one whose assembler, made for [n]
    chunks, holds no chunk 0. *)
Definition lacks_first (id : string) (n : Z) (s : State) : Prop :=
  (∃ t, transfers s !! id = Some t ∧ TransferInfo.direction t = Direction.receive)
  ∧ ∃ a, assemblers s !! id = Some a
         ∧ ChunkAssembler.totalChunks a = n
         ∧ ChunkAssembler.chunks a !! 0 = None.

(** * The sending half of protocol.ts *)

(** What [serialize] and [encodeForChat] take from Node: [JSON.stringify] on
    a message, and [Buffer.from] on a string, which gives its UTF-8 bytes. *)
Class Encoder := {
  JSON_stringify : OCFTMessage.t → string;
  Buffer_from_utf8 : string → list byte
}.

Section Encoding.
Context `{Platform} `{Encoder}.

Definition serialize (msg : OCFTMessage.t) : string := JSON_stringify msg.

Definition encodeForChat (msg : OCFTMessage.t) : string :=
  let json := serialize msg in
  let b64 := Buffer_toString_base64 (Buffer_from_utf8 json) in
  OCFT_PREFIX ++ b64.

End Encoding.

(** Equality of messages is decidable. *)
#[global] Instance MimeType_eq_dec : EqDecision MimeType.
Proof. solve_decision. Defined.
#[global] Instance OfferPayload_eq_dec : EqDecision OfferPayload.t.
Proof. solve_decision. Defined.
#[global] Instance AcceptPayload_eq_dec : EqDecision AcceptPayload.t.
Proof. solve_decision. Defined.
#[global] Instance RejectPayload_eq_dec : EqDecision RejectPayload.t.
Proof. solve_decision. Defined.
#[global] Instance ChunkPayload_eq_dec : EqDecision ChunkPayload.t.
Proof. solve_decision. Defined.
#[global] Instance AckPayload_eq_dec : EqDecision AckPayload.t.
Proof. solve_decision. Defined.
#[global] Instance CompletePayload_eq_dec : EqDecision CompletePayload.t.
Proof. solve_decision. Defined.
#[global] Instance ErrorPayload_eq_dec : EqDecision ErrorPayload.t.
Proof. solve_decision. Defined.
#[global] Instance Payload_eq_dec : EqDecision Payload.
Proof. solve_decision. Defined.
#[global] Instance OCFTMessage_eq_dec : EqDecision OCFTMessage.t.
Proof. solve_decision. Defined.

(** [JSON.stringify] on the sample messages, the inverse of the tabulated
    [JSON.parse]; the strings of the model are UTF-8 byte strings. *)
Definition node_encoder : Encoder :=
  {| JSON_stringify :=
       λ m, default "" (fst <$> List.find (λ e, bool_decide (m = snd e)) sample_texts);
     Buffer_from_utf8 := list_byte_of_string |}.

(** ** A receiver and what it is told *)

(** [bob] after the offer that carries his secret: the transfer is accepted. *)
Definition bob_accepted : State := (handleOffer offer_message offer_payload bob).2.

(** [bob] after the offer that carries another secret: the transfer is
    pending. *)
Definition bob_pending : State := (handleOffer guessing_message guessing_payload bob).2.

Definition chunk0_payload : ChunkPayload.t := ChunkPayload.mk 0 "aGVsbG8=" hello_hash.

(** [bob] after the offer and the one chunk of the file. *)
Definition bob_receiving : State :=
  (@handleChunk node chunk0_message chunk0_payload bob_accepted).2.

Definition complete_payload : CompletePayload.t := CompletePayload.mk 1 hello_hash.
Definition complete_message : OCFTMessage.t :=
  OCFTMessage.mk "1.0" "xfer_demo" "alice" "bob" 1700000000400 (PComplete complete_payload).

(** The assembler a state holds under [id], or an empty one without it. *)
Definition assembler_of (id : string) (s : State) : ChunkAssembler.t :=
  default (ChunkAssembler.new "" "" 0) (assemblers s !! id).

(** [alice] after the peer accepted: the transfer is [transferring]. *)
Definition alice_sending : State :=
  (@handleAccept node accept_message accept_payload alice_offering).2.

(** The acknowledgement of a refused chunk 1. *)
Definition nack_payload : AckPayload.t := AckPayload.mk 1 false (Some "Hash mismatch").
Definition nack_message : OCFTMessage.t :=
  OCFTMessage.mk "1.0" transfer_id "bob" "alice" 1700000000250 (PAck nack_payload).

(** An offer of 200 MB, above the default limit. *)
Definition big_payload : OfferPayload.t :=
  OfferPayload.mk "film.bin" 200000000 "application/octet-stream" hello_hash 49152 4070
    (Some "s3cret") None None.
Definition big_message : OCFTMessage.t :=
  OCFTMessage.mk "1.0" "xfer_big" "alice" "bob" 1700000000000 (POffer big_payload).

(** A node that accepts what the trusted peer "alice" offers. *)
Definition carol_config : TransferManagerConfig.t :=
  TransferManagerConfig.mk "carol" "c4rol" None "/inbox"
    (TransferManagerConfig.present (Some true))
    (TransferManagerConfig.present (Some [TrustedPeer.mk "alice" "al1ce" None None]))
    TransferManagerConfig.absent TransferManagerConfig.absent.

Definition carol : State := TransferManager_new carol_config ∅ sample_clock.

(** A node made with [maxFileSize: undefined]: the key is there, so the
    default of 100 MB is not put in. *)
Definition erin_config : TransferManagerConfig.t :=
  TransferManagerConfig.mk "bob" "s3cret" None "/downloads"
    TransferManagerConfig.absent TransferManagerConfig.absent
    (TransferManagerConfig.present None) TransferManagerConfig.absent.

Definition erin : State := TransferManager_new erin_config ∅ sample_clock.

(** An offer to "carol" without a secret. *)
Definition plain_payload : OfferPayload.t :=
  OfferPayload.mk "notes.txt" 5 "text/plain" hello_hash 5 1 None None None.
Definition plain_message : OCFTMessage.t :=
  OCFTMessage.mk "1.0" "xfer_demo" "alice" "carol" 1700000000000 (POffer plain_payload).

(** ** Listing the transfers *)

(** [listTransfers()]: the tracked transfers. The code lists them in the
    order in which their ids were first tracked; the table of the model
    keeps no such order, so the list here is in the order of the ids, and
    what is proved of it is about the transfers it holds, not their order. *)
Definition listTransfers (s : State) : list TransferInfo.t :=
  (map_to_list (transfers s)).*2.

Definition getResumableTransfers (s : State) : list TransferInfo.t :=
  List.filter
    (λ t, TransferInfo.resumable t
          && negb (TransferState.eqb (TransferInfo.state t) TransferState.completed)
          && negb (TransferState.eqb (TransferInfo.state t) TransferState.rejected)
          && (0 <? Z.of_nat (size (TransferInfo.receivedChunks t))))
    (listTransfers s).

(** Every transfer is stored under its own id, and one marked resumable is
    an incoming one. *)
Definition well_kept (c : TransferManagerConfig.t) (m : gmap string TransferInfo.t) : Prop :=
  ∀ id t, m !! id = Some t →
    TransferInfo.id t = id
    ∧ (TransferInfo.resumable t = true → TransferInfo.direction t = Direction.receive).

(** [well_kept], and the transfer [id], if there is one, is an incoming one. *)
Definition well_kept_at (id : string) (c : TransferManagerConfig.t)
    (m : gmap string TransferInfo.t) : Prop :=
  well_kept c m
  ∧ ∀ t, m !! id = Some t → TransferInfo.direction t = Direction.receive.

(** A mutation of a transfer that leaves its id, its direction and its
    resumable mark alone. *)
Definition steady (f : TransferInfo.t → TransferInfo.t) : Prop :=
  ∀ t, TransferInfo.id (f t) = TransferInfo.id t
       ∧ TransferInfo.direction (f t) = TransferInfo.direction t
       ∧ TransferInfo.resumable (f t) = TransferInfo.resumable t.

(** ** A disk that may refuse a write

    [writeFile] above always resolves, and with it [assemble] and
    [handleComplete]: they are the code on a disk that takes every write. A
    write can also be rejected: the directory is missing, the path names a
    directory, the disk is full. Here [refuses path] is the error a write to
    [path] is rejected with, if it is. [assemble] awaits the write and
    [handleComplete] awaits [assemble], and neither catches, so the error
    passes through both. *)
Module Refusing.
Section Refusing.
Context `{Platform}.
Variable refuses : string → option string.

Definition writeFile (fs : Files) (path : string) (data : list byte)
  : Result Files :=
  match refuses path with
  | Some e => Throw e
  | None => Ok (<[path := data]> fs)
  end.

Definition assemble (a : ChunkAssembler.t) (fs : Files)
  : Result AssembleResult.t * Files :=
  if negb (ChunkAssembler.isComplete a) then
    (Ok (AssembleResult.mk false
           (Some ("Missing chunks: "
                  ++ join ", " (pretty <$> ChunkAssembler.getMissingChunks a)))), fs)
  else
    match ChunkAssembler.collect a (seqZ 0 (ChunkAssembler.totalChunks a)) [] with
    | inl i =>
        (Ok (AssembleResult.mk false (Some ("Missing chunk " ++ pretty i))), fs)
    | inr buffers =>
        let combined := concat buffers in
        let actualHash := sha256 combined in
        if negb (String.eqb actualHash (ChunkAssembler.expectedHash a)) then
          (Ok (AssembleResult.mk false
                 (Some ("File hash mismatch: expected "
                        ++ ChunkAssembler.expectedHash a
                        ++ ", got " ++ actualHash))), fs)
        else
          match writeFile fs (ChunkAssembler.outputPath a) combined with
          | Throw e => (Throw e, fs)
          | Ok fs' => (Ok (AssembleResult.mk true None), fs')
          end
    end.

Definition handleComplete (msg : OCFTMessage.t) (payload : CompletePayload.t)
  : M unit :=
  let transferId := OCFTMessage.transferId msg in
  let* transfer := get (λ s, transfers s !! transferId) in
  match tracked Direction.receive transfer with
  | None => ret tt
  | Some _ =>
      let* assembler := get (λ s, assemblers s !! transferId) in
      match assembler with
      | None => ret tt
      | Some assembler =>
          let* fs := get files in
          let '(result, fs') := assemble assembler fs in
          modify (set_files fs') ;;
          let* result := lift result in
          (if AssembleResult.success result then
             update transferId (TransferInfo.set_state TransferState.completed) ;;
             let* now := Date_now in
             update transferId (TransferInfo.set_completedAt (Some now)) ;;
             emit (transfer_completed transferId)
           else
             update transferId (TransferInfo.set_state TransferState.failed) ;;
             update transferId (TransferInfo.set_error (AssembleResult.error result)) ;;
             emit (transfer_failed transferId)) ;;
          let* now := Date_now in
          update transferId (TransferInfo.set_updatedAt now) ;;
          let* botId := get (λ s, TransferManagerConfig.botId (config s)) in
          let* ack :=
            createMessage transferId botId (OCFTMessage.from msg)
              (PAck (AckPayload.mk (-1) (AssembleResult.success result)
                       (AssembleResult.error result))) in
          send (OCFTMessage.from msg) ack
      end
  end.

End Refusing.
End Refusing.

(** ** Two nodes wired back to back *)

(** The messages of a [sent] list that went to the node [dest], oldest
    first. *)
Definition addressed_to (dest : string) (l : list (string * OCFTMessage.t))
  : list OCFTMessage.t :=
  snd <$> List.filter (λ e, String.eqb (fst e) dest) l.

(** The messages [peer] has sent to the node [me]. *)
Definition inbox (me peer : State) : list OCFTMessage.t :=
  addressed_to (TransferManagerConfig.botId (config me)) (sent peer).

(** The messages are for transfer [id], from [from] to [to_], and carry the
    given payloads, in this order. *)
Definition carries (id from to_ : string) (msgs : list OCFTMessage.t)
    (payloads : list Payload) : Prop :=
  Forall2 (λ m p, OCFTMessage.transferId m = id
                  ∧ OCFTMessage.from m = from
                  ∧ OCFTMessage.to m = to_
                  ∧ OCFTMessage.payload m = p) msgs payloads.

Section Session.
Context `{Platform}.

(** What [handleMessage] does with the message its text decodes to. *)
Definition receive (msg : OCFTMessage.t) : M bool :=
  let* botId := get (λ s, TransferManagerConfig.botId (config s)) in
  if negb (String.eqb (OCFTMessage.to msg) botId) then ret false
  else dispatch msg ;; ret true.

(** Two nodes wired back to back: what one sends to the other's id is
    what the other handles, one message at a time and in the order sent
    (the demo wires two managers this way, through one queue per node);
    [ka] and [kb] count what [a] and [b] have handled so far. When both
    have a message to handle, [a] goes first. The exchange ends when
    nothing is left to handle, when a handler throws, or when the fuel is
    used up. The text encoding between [send] and [handleMessage] is left
    out: [receive] starts from the decoded message. *)
Fixpoint exchange (fuel : nat) (a b : State) (ka kb : nat) : State * State :=
  match fuel with
  | O => (a, b)
  | S fuel =>
      match inbox a b !! ka with
      | Some msg =>
          match receive msg a with
          | (Ok _, a') => exchange fuel a' b (S ka) kb
          | (Throw _, a') => (a', b)
          end
      | None =>
          match inbox b a !! kb with
          | Some msg =>
              match receive msg b with
              | (Ok _, b') => exchange fuel a b' ka (S kb)
              | (Throw _, b') => (a, b')
              end
          | None => (a, b)
          end
      end
  end.

(** The sender [a] after [sendFile]: it tracks the transfer, remembers
    the path, and what it has sent to the peer is the offer. *)
Definition sender_offered (c : TransferManagerConfig.t) (fs : Files)
    (id path peer : string) (data : list byte) (chunkSize : Z) (offer : Payload)
    (a : State) : Prop :=
  let n := Math_ceil_div (Z.of_nat (length data)) chunkSize in
  config a = c ∧ files a = fs ∧ filePaths a !! id = Some path
  ∧ (∃ t, transfers a !! id = Some t
          ∧ TransferInfo.direction t = Direction.send
          ∧ TransferInfo.peerId t = peer
          ∧ TransferInfo.totalChunks t = n
          ∧ TransferInfo.chunkSize t = chunkSize
          ∧ TransferInfo.hash t = sha256 data)
  ∧ carries id (TransferManagerConfig.botId c) peer (addressed_to peer (sent a)) [offer].

(** The sender [a] of a file of [n] chunks after [k] acknowledgements:
    it still has the file, the transfer is [transferring] ([completing]
    once [k = n]), and what it has sent to the peer is the offer, the
    chunks 0 .. min(k, n-1) and, once [k = n], the complete message. *)
Definition sender_at (c : TransferManagerConfig.t) (fs : Files) (id path peer : string)
    (data : list byte) (chunkSize : Z) (offer : Payload) (k : nat) (a : State) : Prop :=
  let n := Math_ceil_div (Z.of_nat (length data)) chunkSize in
  config a = c ∧ files a = fs ∧ filePaths a !! id = Some path
  ∧ (∃ t, transfers a !! id = Some t
          ∧ TransferInfo.direction t = Direction.send
          ∧ TransferInfo.peerId t = peer
          ∧ TransferInfo.totalChunks t = n
          ∧ TransferInfo.chunkSize t = chunkSize
          ∧ TransferInfo.hash t = sha256 data
          ∧ TransferInfo.state t
            = (if Z.of_nat k =? n then TransferState.completing
               else TransferState.transferring))
  ∧ carries id (TransferManagerConfig.botId c) peer (addressed_to peer (sent a))
      (offer :: (chunk_payload data chunkSize <$> seqZ 0 (Z.min (Z.of_nat k + 1) n))
       ++ (if Z.of_nat k =? n
           then [PComplete (CompletePayload.mk n (sha256 data))] else [])).

(** The receiver [b] after [k] chunks: no file written yet, an assembler
    that holds the chunks 0 .. k-1, and the accept and the
    acknowledgements of these chunks sent to the peer. *)
Definition receiver_at (c : TransferManagerConfig.t) (fs : Files) (id out peer : string)
    (data : list byte) (chunkSize : Z) (k : nat) (b : State) : Prop :=
  let n := Math_ceil_div (Z.of_nat (length data)) chunkSize in
  config b = c ∧ files b = fs
  ∧ (∃ t, transfers b !! id = Some t ∧ TransferInfo.direction t = Direction.receive)
  ∧ (∃ a, assemblers b !! id = Some a
          ∧ ChunkAssembler.expectedHash a = sha256 data
          ∧ ChunkAssembler.totalChunks a = n
          ∧ ChunkAssembler.outputPath a = out
          ∧ ∀ i, ChunkAssembler.chunks a !! i
                 = if decide (0 ≤ i < Z.of_nat k)
                   then Some (chunk_bytes data i chunkSize) else None)
  ∧ carries id (TransferManagerConfig.botId c) peer (addressed_to peer (sent b))
      (PAccept (AcceptPayload.mk true None)
       :: ((λ i, PAck (AckPayload.mk i true None)) <$> seqZ 0 (Z.of_nat k))).

(** A sender whose transfer is in state [st] and that has sent the peer
    messages with the given payloads. *)
Definition sender_with (c : TransferManagerConfig.t) (fs : Files) (id path peer : string)
    (data : list byte) (chunkSize : Z) (st : TransferState.t) (payloads : list Payload)
    (a : State) : Prop :=
  config a = c ∧ files a = fs ∧ filePaths a !! id = Some path
  ∧ (∃ t, transfers a !! id = Some t
          ∧ TransferInfo.direction t = Direction.send
          ∧ TransferInfo.peerId t = peer
          ∧ TransferInfo.totalChunks t = Math_ceil_div (Z.of_nat (length data)) chunkSize
          ∧ TransferInfo.chunkSize t = chunkSize
          ∧ TransferInfo.hash t = sha256 data
          ∧ TransferInfo.state t = st)
  ∧ carries id (TransferManagerConfig.botId c) peer (addressed_to peer (sent a)) payloads.

(** A receiver that has written no file, whose assembler holds the given
    chunks, and that has sent the peer messages with the given payloads. *)
Definition receiver_with (c : TransferManagerConfig.t) (fs : Files) (id out peer : string)
    (data : list byte) (chunkSize : Z) (chunks : gmap Z (list byte))
    (payloads : list Payload) (b : State) : Prop :=
  config b = c ∧ files b = fs
  ∧ (∃ t, transfers b !! id = Some t ∧ TransferInfo.direction t = Direction.receive)
  ∧ (∃ a, assemblers b !! id = Some a
          ∧ ChunkAssembler.expectedHash a = sha256 data
          ∧ ChunkAssembler.totalChunks a
            = Math_ceil_div (Z.of_nat (length data)) chunkSize
          ∧ ChunkAssembler.outputPath a = out
          ∧ ChunkAssembler.chunks a = chunks)
  ∧ carries id (TransferManagerConfig.botId c) peer (addressed_to peer (sent b)) payloads.

(** The receiver once it has assembled the file: the file is written,
    the transfer is [completed], and the final acknowledgement has gone
    out after those of the chunks. *)
Definition receiver_done (c : TransferManagerConfig.t) (fs : Files) (id out peer : string)
    (data : list byte) (chunkSize : Z) (b : State) : Prop :=
  let n := Math_ceil_div (Z.of_nat (length data)) chunkSize in
  config b = c ∧ files b = <[out := data]> fs
  ∧ (∃ t, transfers b !! id = Some t
          ∧ TransferInfo.direction t = Direction.receive
          ∧ TransferInfo.state t = TransferState.completed)
  ∧ carries id (TransferManagerConfig.botId c) peer (addressed_to peer (sent b))
      ((PAccept (AcceptPayload.mk true None)
        :: ((λ i, PAck (AckPayload.mk i true None)) <$> seqZ 0 n))
       ++ [PAck (AckPayload.mk (-1) true None)]).

End Session.

(** A sender that has the receiver "bob" among its trusted peers, with
    bob's secret. *)
Definition dave_config : TransferManagerConfig.t :=
  TransferManagerConfig.mk "dave" "d4ve" None "/downloads"
    TransferManagerConfig.absent
    (TransferManagerConfig.present (Some [TrustedPeer.mk "bob" "s3cret" None None]))
    TransferManagerConfig.absent (TransferManagerConfig.present (Some 5)).
(** * Properties of the chunk codec *)

Local Open Scope list_scope.

(** * The configuration the constructor stores *)

Lemma with_defaults_chunkSize (c : TransferManagerConfig.t) :
  default DEFAULT_CHUNK_SIZE (TransferManagerConfig.chunkSize (TransferManagerConfig.with_defaults c))
  = default DEFAULT_CHUNK_SIZE (TransferManagerConfig.chunkSize c).
Proof.
  unfold TransferManagerConfig.chunkSize. simpl.
  by destruct (TransferManagerConfig.chunkSize_key c) as [|[v|]].
Qed.

Lemma with_defaults_autoAccept (c : TransferManagerConfig.t) :
  default false (TransferManagerConfig.autoAccept (TransferManagerConfig.with_defaults c))
  = default false (TransferManagerConfig.autoAccept c).
Proof.
  unfold TransferManagerConfig.autoAccept. simpl.
  by destruct (TransferManagerConfig.autoAccept_key c) as [|[v|]].
Qed.

Lemma with_defaults_find_peer (c : TransferManagerConfig.t) (peerId : string) :
  find_peer (TransferManagerConfig.trustedPeers (TransferManagerConfig.with_defaults c)) peerId
  = find_peer (TransferManagerConfig.trustedPeers c) peerId.
Proof.
  unfold TransferManagerConfig.trustedPeers. simpl.
  by destruct (TransferManagerConfig.trustedPeers_key c) as [|[v|]].
Qed.

(** [stat] and [readFile] succeed on the same paths. *)
Lemma stat_readFile (fs : Files) (path : string) (sz : Z) (data : list byte) :
  stat fs path = Ok sz → readFile fs path = Ok data → sz = Z.of_nat (length data).
Proof.
  unfold stat, readFile. destruct (negb (truthy_string path)); [done|].
  destruct (fs !! path); [|done]. by intros [= <-] [= <-].
Qed.

Lemma stat_Throw (fs : Files) (path e : string) :
  stat fs path = Throw e → ∃ e', readFile fs path = Throw e'.
Proof.
  unfold stat, readFile. destruct (negb (truthy_string path)); [by eexists|].
  destruct (fs !! path); [done|by eexists].
Qed.

Lemma Math_ceil_div_spec (a b : Z) :
  0 ≤ a → 0 < b →
  0 ≤ Math_ceil_div a b ∧ a ≤ Math_ceil_div a b * b ∧ Math_ceil_div a b * b < a + b.
Proof.
  intros Ha Hb. unfold Math_ceil_div.
  pose proof (Z.div_mod (- a) b ltac:(lia)) as Hdm.
  pose proof (Z.mod_pos_bound (- a) b Hb) as Hm.
  nia.
Qed.

Lemma subarray_inside (buf : list byte) (s e : Z) :
  0 ≤ s → s ≤ e → e ≤ Z.of_nat (length buf) →
  subarray buf s e = take (Z.to_nat (e - s)) (drop (Z.to_nat s) buf).
Proof.
  intros Hs He Hl. unfold subarray, relative_index.
  destruct (Z.ltb_spec s 0); [lia|]. destruct (Z.ltb_spec e 0); [lia|].
  rewrite !Z.min_l by lia. reflexivity.
Qed.

Lemma chunk_bytes_take_drop (data : list byte) (i cs : Z) :
  0 ≤ i → 0 < cs →
  chunk_bytes data i cs
  = take (Z.to_nat cs) (drop (Z.to_nat (i * cs)) data).
Proof.
  intros Hi Hcs. unfold chunk_bytes.
  set (len := Z.of_nat (length data)).
  destruct (Z.le_gt_cases (i * cs) len) as [Hin|Hout].
  - rewrite subarray_inside by lia.
    destruct (Z.le_gt_cases (i * cs + cs) len).
    + rewrite Z.min_l by lia. f_equal. lia.
    + rewrite Z.min_r by lia.
      rewrite !take_ge; [done| |]; rewrite length_drop; subst len; lia.
  - unfold subarray, relative_index. fold len.
    destruct (Z.ltb_spec (i * cs) 0); [nia|].
    destruct (Z.ltb_spec (Z.min (i * cs + cs) len) 0); [lia|].
    rewrite (Z.min_r (i * cs) len) by lia.
    rewrite (drop_ge data (Z.to_nat (i * cs))) by (subst len; lia).
    rewrite (drop_ge data (Z.to_nat len)) by (subst len; lia).
    by rewrite !take_nil.
Qed.

Lemma concat_chunk_bytes (data : list byte) (cs : Z) (n : nat) :
  0 < cs →
  concat ((λ i, chunk_bytes data i cs) <$> seqZ 0 (Z.of_nat n))
  = take (Z.to_nat (Z.of_nat n * cs)) data.
Proof.
  intros Hcs. induction n as [|n IH].
  - by rewrite take_0.
  - rewrite seqZ_S, fmap_app, concat_app, IH. simpl. rewrite app_nil_r.
    rewrite chunk_bytes_take_drop by lia.
    rewrite Z.add_0_l, take_take_drop. f_equal. lia.
Qed.

Lemma concat_all_chunk_bytes (data : list byte) (cs : Z) :
  0 < cs →
  concat ((λ i, chunk_bytes data i cs)
          <$> seqZ 0 (Math_ceil_div (Z.of_nat (length data)) cs))
  = data.
Proof.
  intros Hcs.
  destruct (Math_ceil_div_spec (Z.of_nat (length data)) cs) as (Hn & Hge & _);
    [lia|lia|].
  rewrite <-(Z2Nat.id (Math_ceil_div _ _)) by done.
  rewrite concat_chunk_bytes by done.
  apply take_ge. rewrite Z2Nat.id by done. lia.
Qed.

Lemma readFile_Ok (fs : Files) (path : string) (data : list byte) :
  readFile fs path = Ok data → fs !! path = Some data.
Proof.
  unfold readFile. destruct (negb (truthy_string path)); [done|].
  destruct (fs !! path); [|done]. by intros [= ->].
Qed.

Lemma readFile_Ok_path (fs : Files) (path : string) (data : list byte) :
  readFile fs path = Ok data → truthy_path (Some path) = Some path.
Proof.
  unfold readFile, truthy_path. by destruct (truthy_string path).
Qed.

Section ChunkCodec.
Context `{Platform}.

Lemma readChunk_found (fs : Files) (path : string) (data : list byte) (i cs : Z) :
  readFile fs path = Ok data →
  readChunk fs path i cs
  = Ok (Chunk.mk i (chunk_bytes data i cs) (sha256 (chunk_bytes data i cs))).
Proof. intros Hf. unfold readChunk. by rewrite Hf. Qed.

Lemma addChunk_matching (a : ChunkAssembler.t) (i : Z) (d : list byte) :
  ChunkAssembler.addChunk a i d (sha256 d)
  = (true, ChunkAssembler.mk (<[i := d]> (ChunkAssembler.chunks a))
             (ChunkAssembler.expectedHash a) (ChunkAssembler.totalChunks a)
             (ChunkAssembler.outputPath a)).
Proof. unfold ChunkAssembler.addChunk. by rewrite String.eqb_refl. Qed.

Lemma addChunk_refused (a : ChunkAssembler.t) (i : Z) (d : list byte) (h : string) :
  sha256 d ≠ h → ChunkAssembler.addChunk a i d h = (false, a).
Proof.
  intros Hne. unfold ChunkAssembler.addChunk.
  destruct (String.eqb_spec (sha256 d) h); [done|reflexivity].
Qed.

Lemma feed_chunks (fs : Files) (path : string) (data : list byte) (cs : Z)
    (indices : list Z) (a : ChunkAssembler.t) :
  readFile fs path = Ok data →
  ∃ a', feed fs path cs indices a = Some a'
        ∧ ChunkAssembler.expectedHash a' = ChunkAssembler.expectedHash a
        ∧ ChunkAssembler.totalChunks a' = ChunkAssembler.totalChunks a
        ∧ ChunkAssembler.outputPath a' = ChunkAssembler.outputPath a
        ∧ ∀ i, ChunkAssembler.chunks a' !! i
               = if decide (i ∈ indices) then Some (chunk_bytes data i cs)
                 else ChunkAssembler.chunks a !! i.
Proof.
  intros Hf. revert a. induction indices as [|j rest IH]; intros a.
  - exists a. by repeat split.
  - simpl. rewrite (readChunk_found _ _ _ _ _ Hf). simpl.
    rewrite addChunk_matching.
    destruct (IH (ChunkAssembler.mk (<[j := chunk_bytes data j cs]> (ChunkAssembler.chunks a))
                    (ChunkAssembler.expectedHash a) (ChunkAssembler.totalChunks a)
                    (ChunkAssembler.outputPath a)))
      as (a' & Hfeed & Hh & Ht & Ho & Hc).
    exists a'. repeat split; try done. intros i. rewrite Hc. simpl.
    destruct (decide (i = j)) as [->|Hne].
    + rewrite lookup_insert_eq.
      rewrite (decide_True _ _ (list_elem_of_here j rest)).
      by destruct (decide (j ∈ rest)).
    + rewrite lookup_insert_ne by done.
      destruct (decide (i ∈ rest)).
      * by rewrite decide_True by (by apply list_elem_of_further).
      * rewrite decide_False; [done|].
        by intros [?|?]%elem_of_cons.
Qed.

Lemma collect_all (a : ChunkAssembler.t) (f : Z → list byte) (l : list Z)
    (acc : list (list byte)) :
  (∀ i, i ∈ l → ChunkAssembler.chunks a !! i = Some (f i)) →
  ChunkAssembler.collect a l acc = inr (acc ++ (f <$> l))%list.
Proof.
  revert acc. induction l as [|i l IH]; intros acc Hl; simpl.
  - by rewrite app_nil_r.
  - rewrite (Hl i) by set_solver. rewrite IH by set_solver.
    by rewrite <-app_assoc.
Qed.

Lemma collect_result (a : ChunkAssembler.t) (l : list Z) (acc : list (list byte)) :
  match ChunkAssembler.collect a l acc with
  | inl i => i ∈ l ∧ ChunkAssembler.chunks a !! i = None
  | inr buffers =>
      (∀ i, i ∈ l → is_Some (ChunkAssembler.chunks a !! i))
      ∧ buffers = (acc ++ omap (λ i, ChunkAssembler.chunks a !! i) l)%list
  end.
Proof.
  revert acc. induction l as [|i l IH]; intros acc; simpl.
  - split; [set_solver|by rewrite app_nil_r].
  - destruct (ChunkAssembler.chunks a !! i) as [c|] eqn:Hi.
    + specialize (IH (acc ++ [c])).
      destruct (ChunkAssembler.collect a l (acc ++ [c])) as [j|buffers].
      * destruct IH. split; [set_solver|done].
      * destruct IH as [Hall ->]. split.
        -- intros k [->|Hk]%elem_of_cons; [by rewrite Hi|auto].
        -- by rewrite <-app_assoc.
    + split; [set_solver|done].
Qed.

(** A map defined exactly on [0, n) has [n] entries. *)
Lemma size_range (m : gmap Z (list byte)) (n : Z) :
  0 ≤ n →
  (∀ i, is_Some (m !! i) ↔ 0 ≤ i < n) →
  Z.of_nat (size m) = n.
Proof.
  intros Hn Hdom.
  assert (dom m = list_to_set (seqZ 0 n) :> gset Z) as Hd.
  { apply set_eq. intros i. rewrite elem_of_dom, Hdom, elem_of_list_to_set, elem_of_seqZ. lia. }
  rewrite <-size_dom, Hd, size_list_to_set by apply NoDup_seqZ.
  rewrite length_seqZ. lia.
Qed.

End ChunkCodec.

Section RoundTrip.
Context `{Platform}.

Lemma getFileInfo_found (fs : Files) (path : string) (cs : Z) (info : FileInfo.t) :
  getFileInfo fs path cs = Ok info →
  ∃ data, readFile fs path = Ok data
          ∧ FileInfo.hash info = sha256 data
          ∧ FileInfo.size info = Z.of_nat (length data)
          ∧ FileInfo.totalChunks info = Math_ceil_div (Z.of_nat (length data)) cs.
Proof.
  unfold getFileInfo. destruct (stat fs path) as [sz|] eqn:Hstat; [|done].
  destruct (readFile fs path) as [data|] eqn:Hread; [|done].
  intros [= <-]. exists data. simpl.
  by rewrite (stat_readFile _ _ _ _ Hstat Hread).
Qed.

Lemma getFileInfo_readable (fs : Files) (path : string) (cs : Z) (data : list byte) :
  readFile fs path = Ok data →
  getFileInfo fs path cs
  = Ok (FileInfo.mk
          (if truthy_string (split_pop "/" path) then split_pop "/" path else "file")
          (Z.of_nat (length data))
          (default (mime "application/octet-stream")
             (mimeTypes_get (toLowerCase (split_pop "." path))))
          (sha256 data) cs (Math_ceil_div (Z.of_nat (length data)) cs)).
Proof.
  intros Hread. unfold getFileInfo.
  destruct (stat fs path) as [sz|e] eqn:Hstat.
  - rewrite Hread. by rewrite (stat_readFile _ _ _ _ Hstat Hread).
  - destruct (stat_Throw _ _ _ Hstat) as [e' He']. by rewrite Hread in He'.
Qed.

(** C1. Round trip: the chunks [readChunk] gives for the indices of
    [0, totalChunks), fed to an assembler made from the file's description
    in any order and with any repetition, are all accepted; [assemble] then
    succeeds and writes the bytes of the original file, whose SHA-256 is
    the hash of the description. *)
Theorem round_trip (fs : Files) (path out : string) (chunkSize : Z)
    (info : FileInfo.t) (indices : list Z) :
  0 < chunkSize →
  getFileInfo fs path chunkSize = Ok info →
  (∀ i, i ∈ indices ↔ 0 ≤ i < FileInfo.totalChunks info) →
  ∃ a data,
    fs !! path = Some data
    ∧ feed fs path chunkSize indices
        (ChunkAssembler.new out (FileInfo.hash info) (FileInfo.totalChunks info))
      = Some a
    ∧ ChunkAssembler.assemble a fs
      = (AssembleResult.mk true None, <[out := data]> fs)
    ∧ sha256 data = FileInfo.hash info.
Proof.
  intros Hcs Hinfo Hidx.
  destruct (getFileInfo_found _ _ _ _ Hinfo) as (data & Hf & Hhash & _ & Htot).
  destruct (feed_chunks fs path data chunkSize indices
              (ChunkAssembler.new out (FileInfo.hash info) (FileInfo.totalChunks info)) Hf)
    as (a & Hfeed & Hh & Ht & Ho & Hc).
  simpl in Hh, Ht, Ho.
  exists a, data. split; [by apply readFile_Ok|]. split; [done|]. split; [|done].
  destruct (Math_ceil_div_spec (Z.of_nat (length data)) chunkSize) as (Hn & _);
    [lia|lia|].
  assert (∀ i, 0 ≤ i < FileInfo.totalChunks info →
               ChunkAssembler.chunks a !! i = Some (chunk_bytes data i chunkSize)) as Hin.
  { intros i Hi. rewrite Hc. by rewrite decide_True by (by apply Hidx). }
  assert (∀ i, ¬ 0 ≤ i < FileInfo.totalChunks info →
               ChunkAssembler.chunks a !! i = None) as Hout.
  { intros i Hi. rewrite Hc. rewrite decide_False by (by rewrite Hidx). done. }
  unfold ChunkAssembler.assemble, ChunkAssembler.isComplete.
  rewrite (size_range (ChunkAssembler.chunks a) (ChunkAssembler.totalChunks a)).
  - rewrite Z.eqb_refl. simpl.
    rewrite (collect_all a (λ i, chunk_bytes data i chunkSize)).
    + simpl. rewrite Ht, Htot, concat_all_chunk_bytes by done.
      rewrite Hh, Hhash, String.eqb_refl. simpl. by rewrite Ho.
    + intros i Hi%elem_of_seqZ. apply Hin. lia.
  - rewrite Ht, Htot. done.
  - intros i. rewrite Ht. split.
    + intros [c Hc']. destruct (decide (0 ≤ i < FileInfo.totalChunks info)); [done|].
      rewrite Hout in Hc' by done. done.
    + intros Hi. rewrite Hin by done. eauto.
Qed.

End RoundTrip.

Section ReadChunk.
Context `{Platform}.

(** C8, as the code has it. [readChunk] on a readable file returns a chunk
    for every index and never fails on account of the index: the chunk
    carries the index and the SHA-256 of its bytes; for an index of
    [0, totalChunks) the bytes are those of the file at
    [index*chunkSize, min(S, (index+1)*chunkSize)); for an index of
    [totalChunks] or more they are empty. *)
Theorem readChunk_range (fs : Files) (path : string) (data : list byte)
    (index chunkSize : Z) :
  readFile fs path = Ok data →
  0 < chunkSize →
  ∃ c, readChunk fs path index chunkSize = Ok c
       ∧ Chunk.index c = index
       ∧ Chunk.hash c = sha256 (Chunk.data c)
       ∧ (0 ≤ index < Math_ceil_div (Z.of_nat (length data)) chunkSize →
          let lo := index * chunkSize in
          let hi := Z.min (Z.of_nat (length data)) ((index + 1) * chunkSize) in
          Z.of_nat (length (Chunk.data c)) = hi - lo
          ∧ ∀ j : nat, Z.of_nat j < hi - lo →
                       Chunk.data c !! j = data !! Z.to_nat (lo + Z.of_nat j))
       ∧ (Math_ceil_div (Z.of_nat (length data)) chunkSize ≤ index →
          Chunk.data c = []).
Proof.
  intros Hf Hcs. eexists. split; [by apply readChunk_found|]. simpl.
  split; [done|]. split; [done|].
  destruct (Math_ceil_div_spec (Z.of_nat (length data)) chunkSize)
    as (Hn & Hge & Hlt); [lia|lia|].
  split.
  - intros Hi. rewrite chunk_bytes_take_drop by lia.
    assert (index * chunkSize < Z.of_nat (length data)) by nia.
    split.
    + rewrite length_take, length_drop. lia.
    + intros j Hj. rewrite lookup_take_lt by lia.
      rewrite lookup_drop. f_equal. lia.
  - intros Hi. rewrite chunk_bytes_take_drop by lia.
    rewrite drop_ge by nia. apply take_nil.
Qed.

End ReadChunk.

Section Assemble.
Context `{Platform}.

Lemma getMissingChunks_spec (a : ChunkAssembler.t) (i : Z) :
  i ∈ ChunkAssembler.getMissingChunks a
  ↔ 0 ≤ i < ChunkAssembler.totalChunks a ∧ ChunkAssembler.chunks a !! i = None.
Proof.
  unfold ChunkAssembler.getMissingChunks.
  rewrite list_elem_of_filter, elem_of_seqZ. intuition lia.
Qed.

(** C4. Completeness gate and atomicity. With fewer stored chunks than
    [totalChunks], [assemble] fails with the error that lists, once each,
    exactly the indices of [0, totalChunks) without a chunk. In every case
    either it fails and the files are as before, or it succeeds, every
    index of [0, totalChunks) has a chunk, the SHA-256 of their
    concatenation in index order is the expected hash, and that
    concatenation is what was written to the output path. *)
Theorem assemble_gate (a : ChunkAssembler.t) (fs : Files) :
  (Z.of_nat (size (ChunkAssembler.chunks a)) < ChunkAssembler.totalChunks a →
   ChunkAssembler.assemble a fs
   = (AssembleResult.mk false
        (Some ("Missing chunks: "
               ++ join ", " (pretty <$> ChunkAssembler.getMissingChunks a))%string), fs)
   ∧ NoDup (ChunkAssembler.getMissingChunks a)
   ∧ ∀ i, i ∈ ChunkAssembler.getMissingChunks a
          ↔ 0 ≤ i < ChunkAssembler.totalChunks a
            ∧ ChunkAssembler.chunks a !! i = None)
  ∧ ((AssembleResult.success (ChunkAssembler.assemble a fs).1 = false
      ∧ (ChunkAssembler.assemble a fs).2 = fs)
     ∨ (AssembleResult.success (ChunkAssembler.assemble a fs).1 = true
        ∧ (∀ i, 0 ≤ i < ChunkAssembler.totalChunks a →
                is_Some (ChunkAssembler.chunks a !! i))
        ∧ sha256 (in_order a) = ChunkAssembler.expectedHash a
        ∧ (ChunkAssembler.assemble a fs).2
          = <[ChunkAssembler.outputPath a := in_order a]> fs)).
Proof.
  split.
  - intros Hlt. split; [|split].
    + unfold ChunkAssembler.assemble, ChunkAssembler.isComplete.
      destruct (Z.eqb_spec (Z.of_nat (size (ChunkAssembler.chunks a)))
                  (ChunkAssembler.totalChunks a)); [lia|done].
    + apply NoDup_filter, NoDup_seqZ.
    + apply getMissingChunks_spec.
  - unfold ChunkAssembler.assemble.
    destruct (ChunkAssembler.isComplete a); simpl; [|by left].
    pose proof (collect_result a (seqZ 0 (ChunkAssembler.totalChunks a)) []) as Hc.
    destruct (ChunkAssembler.collect a (seqZ 0 (ChunkAssembler.totalChunks a)) [])
      as [i|buffers]; simpl; [by left|].
    destruct Hc as [Hall ->]. simpl. fold (in_order a).
    destruct (String.eqb_spec (sha256 (in_order a)) (ChunkAssembler.expectedHash a));
      simpl; [|by left].
    right. repeat split; try done.
    intros i Hi. apply Hall, elem_of_seqZ. lia.
Qed.

End Assemble.

(** * Node's library on test vectors *)

Example sha256_abc :
  SHA256.digest_hex (list_byte_of_string "abc")
  = "ba7816bf8f01cfea414140de5dae2223b00361a396177a9cb410ff61f20015ad".
Proof. vm_compute. reflexivity. Qed.

Example sha256_empty : SHA256.digest_hex [] = empty_hash.
Proof. vm_compute. reflexivity. Qed.

Example sha256_hello : SHA256.digest_hex (list_byte_of_string "hello") = hello_hash.
Proof. vm_compute. reflexivity. Qed.

Example base64_round_trip :
  Base64.encode (list_byte_of_string "hello") = "aGVsbG8="
  ∧ Base64.decode "aGVsbG8=" = list_byte_of_string "hello".
Proof. vm_compute. split; reflexivity. Qed.

Example chat_text_offer :
  chat_text offer_json
  = ("🔗OCFT:eyJ2ZXJzaW9uIjoiMS4wIiwidHlwZSI6Im9mZmVyIiwidHJhbnNmZXJJZCI6InhmZXJfZGVtbyIsImZyb20iOiJhbGljZSIsInRvIjoiYm9iIiwidGltZXN0YW1wIjoxNzAwMDAwMDAwMDAwLCJwYXlsb2FkIjp7ImZpbGVuYW1lIjoibm90ZXMudHh0Iiwic2l6ZSI6NSwibWltZVR5cGUiOiJ0ZXh0L3BsYWluIiwiaGFzaCI6IjJjZjI0ZGJhNWZiMGEzMGUyNmU4M2IyYWM1YjllMjllMWIxNjFlNWMxZmE3NDI1ZTczMDQzMzYyOTM4Yjk4MjQiLCJjaHVua1NpemUiOjUsInRvdGFsQ2h1bmtzIjoxLCJzZWNyZXQiOiJzM2NyZXQifX0=")%string.
Proof. vm_compute. reflexivity. Qed.

Section ChunkCodecExamples.
Local Existing Instance node.

Lemma round_trip_witness :
  ∃ a data,
    sample_files !! "/data/notes.txt" = Some data
    ∧ feed sample_files "/data/notes.txt" 5 [2; 0; 1; 0]
        (ChunkAssembler.new "/downloads/notes.txt"
           "7509e5bda0c762d2bac7f90d758b5b2263fa01ccbc542ab5e3df163be08e6ca9" 3)
      = Some a
    ∧ ChunkAssembler.assemble a sample_files
      = (AssembleResult.mk true None, <["/downloads/notes.txt" := data]> sample_files)
    ∧ sha256 data = "7509e5bda0c762d2bac7f90d758b5b2263fa01ccbc542ab5e3df163be08e6ca9".
Proof.
  apply (round_trip sample_files "/data/notes.txt" "/downloads/notes.txt" 5
           (FileInfo.mk "notes.txt" 12 "text/plain"
              "7509e5bda0c762d2bac7f90d758b5b2263fa01ccbc542ab5e3df163be08e6ca9" 5 3)
           [2; 0; 1; 0]).
  - lia.
  - vm_compute. reflexivity.
  - intros i. simpl. rewrite !elem_of_cons, elem_of_nil. lia.
Defined.

End ChunkCodecExamples.

Section ReadChunkExamples.
Local Existing Instance node.

Lemma readChunk_range_witness :
  ∃ c, readChunk sample_files "/data/notes.txt" 2 5 = Ok c
       ∧ Chunk.index c = 2
       ∧ Chunk.hash c = sha256 (Chunk.data c)
       ∧ (0 ≤ 2 < Math_ceil_div 12 5 →
          Z.of_nat (length (Chunk.data c)) = Z.min 12 ((2 + 1) * 5) - 2 * 5
          ∧ ∀ j : nat, Z.of_nat j < Z.min 12 ((2 + 1) * 5) - 2 * 5 →
                       Chunk.data c !! j
                       = list_byte_of_string "hello world!" !! Z.to_nat (2 * 5 + Z.of_nat j))
       ∧ (Math_ceil_div 12 5 ≤ 2 → Chunk.data c = []).
Proof.
  apply (readChunk_range sample_files "/data/notes.txt"
           (list_byte_of_string "hello world!") 2 5).
  - vm_compute. reflexivity.
  - lia.
Defined.

(** C8, as stated, fails. The file has 12 bytes, so with chunks of 5 bytes
    the valid indices are 0, 1 and 2; for index 7 [readChunk] does not
    fail: it returns an empty chunk with the SHA-256 of no bytes. *)
Lemma readChunk_out_of_range_returns :
  Math_ceil_div 12 5 = 3
  ∧ readChunk sample_files "/data/notes.txt" 7 5 = Ok (Chunk.mk 7 [] empty_hash)
  ∧ ¬ ∃ e, readChunk sample_files "/data/notes.txt" 7 5 = Throw e.
Proof.
  assert (readChunk sample_files "/data/notes.txt" 7 5 = Ok (Chunk.mk 7 [] empty_hash)) as E
    by (vm_compute; reflexivity).
  split; [reflexivity|]. split; [exact E|].
  intros [e He]. rewrite E in He. discriminate He.
Qed.

(** A negative index is read from the end of the file, as
    [Buffer.subarray] does. *)
Example readChunk_negative_index :
  Chunk.data <$> (match readChunk sample_files "/data/notes.txt" (-2) 5 with
                  | Ok c => Some c | Throw _ => None end)
  = Some (list_byte_of_string "llo w").
Proof. vm_compute. reflexivity. Qed.

Lemma assemble_gate_witness :
  Z.of_nat (size (ChunkAssembler.chunks two_of_three))
  < ChunkAssembler.totalChunks two_of_three
  ∧ ChunkAssembler.assemble two_of_three sample_files
    = (AssembleResult.mk false
         (Some ("Missing chunks: "
                ++ join ", " (pretty <$> ChunkAssembler.getMissingChunks two_of_three))%string),
       sample_files).
Proof.
  assert (Z.of_nat (size (ChunkAssembler.chunks two_of_three))
          < ChunkAssembler.totalChunks two_of_three) as Hlt by (vm_compute; reflexivity).
  split; [exact Hlt|].
  exact (proj1 (proj1 (assemble_gate two_of_three sample_files) Hlt)).
Defined.

Example assemble_two_of_three :
  (ChunkAssembler.assemble two_of_three sample_files).1
  = AssembleResult.mk false (Some "Missing chunks: 2").
Proof. vm_compute. reflexivity. Qed.

End ReadChunkExamples.

(** * Progress *)

(** ** Binary64 rounding, division and multiplication

    [getProgress] divides, multiplies and rounds in binary64. The lemmas
    below follow [SpecFloat]'s operations on the numbers that occur there:
    integers below 2^53, their quotient, and the product with 100. *)

Lemma digits2_pos_size (p : positive) : digits2_pos p = Pos.size p.
Proof. induction p; simpl; congruence. Qed.

Lemma Zdigits2_bounds (m : Z) :
  0 < m → 2 ^ (Zdigits2 m - 1) ≤ m < 2 ^ Zdigits2 m.
Proof.
  destruct m as [|p|p]; [lia| |lia]. intros _. simpl Zdigits2.
  rewrite digits2_pos_size.
  pose proof (Pos.size_gt p) as Hgt. pose proof (Pos.size_le p) as Hle.
  assert (Z.pos p < 2 ^ Z.pos (Pos.size p)) as H1.
  { change 2 with (Z.pos 2). rewrite <-Pos2Z.inj_pow. lia. }
  assert (2 ^ Z.pos (Pos.size p) ≤ 2 * Z.pos p) as H2.
  { change 2 with (Z.pos 2) at 1. rewrite <-Pos2Z.inj_pow. lia. }
  split; [|done].
  replace (Z.pos (Pos.size p)) with (Z.succ (Z.pos (Pos.size p) - 1)) in H2 by lia.
  rewrite Z.pow_succ_r in H2 by lia. lia.
Qed.

Lemma Zdigits2_unique (m d : Z) :
  2 ^ (d - 1) ≤ m < 2 ^ d → 0 < m → Zdigits2 m = d.
Proof.
  intros [Hlo Hhi] Hm. pose proof (Zdigits2_bounds m Hm) as [Hl Hh].
  assert (0 < Zdigits2 m) as Hd by (destruct m; simpl; lia).
  assert (0 < d) as Hd'.
  { destruct (Z.lt_trichotomy d 0) as [?|[->|?]]; [|simpl in Hhi; lia|done].
    rewrite Z.pow_neg_r in Hhi by lia. lia. }
  destruct (Z.lt_trichotomy (Zdigits2 m) d) as [Hlt|[?|Hgt]]; [|done|].
  - assert (2 ^ Zdigits2 m ≤ 2 ^ (d - 1)) by (apply Z.pow_le_mono_r; lia). lia.
  - assert (2 ^ d ≤ 2 ^ (Zdigits2 m - 1)) by (apply Z.pow_le_mono_r; lia). lia.
Qed.

Ltac cases_Z :=
  repeat match goal with
         | |- context [?a <=? ?b] => destruct (Z.leb_spec a b)
         | |- context [?a =? ?b] => destruct (Z.eqb_spec a b)
         | H : context [?a <=? ?b] |- _ => destruct (Z.leb_spec a b)
         | H : context [?a =? ?b] |- _ => destruct (Z.eqb_spec a b)
         end.

Lemma shr_1_located (N D : Z) (mrs : shr_record) :
  located N D mrs → located N (2 * D) (shr_1 mrs).
Proof.
  destruct mrs as [m r s]. intros (HD & Hm & Hb & Hr & Hs). simpl in *. subst r s.
  destruct m as [|[p|p|]|p]; simpl shr_1; unfold located; simpl shr_m; simpl shr_r;
    simpl shr_s; try lia.
  all: split; [lia|]; split; [lia|]; split; [lia|].
  all: cases_Z; simpl; split; try reflexivity; try lia.
Qed.

Lemma iter_shr_1_located (p : positive) (N D : Z) (mrs : shr_record) :
  located N D mrs → located N (2 ^ Z.pos p * D) (SpecFloat.iter_pos shr_1 p mrs).
Proof.
  revert N D mrs. induction p as [p IH|p IH|]; intros N D mrs Hl; simpl SpecFloat.iter_pos.
  - apply shr_1_located, IH, IH in Hl.
    replace (2 ^ Z.pos p~1 * D) with (2 ^ Z.pos p * (2 ^ Z.pos p * (2 * D))); [done|].
    replace (Z.pos p~1) with (Z.pos p + Z.pos p + 1) by lia.
    rewrite !Z.pow_add_r by lia. change (2 ^ 1) with 2. ring.
  - apply IH, IH in Hl.
    replace (2 ^ Z.pos p~0 * D) with (2 ^ Z.pos p * (2 ^ Z.pos p * D)); [done|].
    replace (Z.pos p~0) with (Z.pos p + Z.pos p) by lia.
    rewrite !Z.pow_add_r by lia. ring.
  - by apply shr_1_located.
Qed.

(** Shifting by [n] places divides by [2 ^ n]. *)
Lemma shr_located (n e N D : Z) (mrs : shr_record) :
  0 ≤ n → located N D mrs →
  located N (2 ^ n * D) (shr mrs e n).1 ∧ (shr mrs e n).2 = e + n.
Proof.
  intros Hn Hl. destruct n as [|p|p]; [| |lia]; simpl.
  - split; [|lia]. by destruct D.
  - split; [|done]. by apply iter_shr_1_located.
Qed.

Lemma shr_record_of_loc_m (m : Z) (l : location) : shr_m (shr_record_of_loc m l) = m.
Proof. by destruct l as [|[]]. Qed.

(** Rounding to nearest, ties to even: the result is at most one half away. *)
Lemma round_nearest_even_located (N D : Z) (mrs : shr_record) :
  located N D mrs →
  let m := round_nearest_even (shr_m mrs) (loc_of_shr_record mrs) in
  (m = shr_m mrs ∨ m = shr_m mrs + 1)
  ∧ 2 * Z.abs (m * D - N) ≤ D
  ∧ (N = shr_m mrs * D → m = shr_m mrs).
Proof.
  destruct mrs as [m r s]. intros (HD & Hm & Hb & Hr & Hs). simpl in *.
  destruct r, s; simpl; cases_Z; simpl in *; try discriminate;
    try destruct (Z.even m); repeat split; try lia; try (by left); try (by right).
Qed.

Lemma fexp_normal (e : Z) : -1074 ≤ e - 53 → fexp 53 1024 e = e - 53.
Proof. unfold fexp, emin. lia. Qed.

(** Rounding a number that has at least 53 digits and lies in the normal
    range: the result has a 53-digit mantissa and is at most half a unit of
    its last place away; it is the number itself when that fits. *)
Lemma binary_round_aux_normal (mx ex : Z) (lx : location) (N D : Z) :
  let d := Zdigits2 mx in
  0 < mx → 53 ≤ d → -1074 ≤ d + ex - 53 → d + ex ≤ 1023 →
  located N D (shr_record_of_loc mx lx) →
  ∃ (m : positive) (j : Z),
    binary_round_aux 53 1024 false mx ex lx = S754_finite false m (ex + j)
    ∧ 2 ^ 52 ≤ Z.pos m < 2 ^ 53
    ∧ d - 53 ≤ j ≤ d - 52
    ∧ 2 * Z.abs (Z.pos m * 2 ^ j * D - N) ≤ 2 ^ (d - 53) * D
    ∧ (∀ i s, 0 ≤ s → 0 < i < 2 ^ 53 → N = i * 2 ^ s * D → Z.pos m * 2 ^ j * D = N).
Proof.
  intros d Hmx Hd Hlo Hhi Hloc.
  pose proof (Zdigits2_bounds mx Hmx) as [Hml Hmh]. fold d in Hml, Hmh.
  set (k := d - 53) in *. assert (0 ≤ k) as Hk by lia.
  assert (0 < 2 ^ k) as HK by (apply Z.pow_pos_nonneg; lia).
  replace (d - 1) with (52 + k) in Hml by lia.
  replace d with (53 + k) in Hmh by lia.
  rewrite Z.pow_add_r in Hml, Hmh by lia.
  unfold binary_round_aux, shr_fexp. fold d.
  rewrite (fexp_normal (d + ex)) by lia.
  replace (d + ex - 53 - ex) with k by lia.
  destruct (shr_located k ex N D _ Hk Hloc) as [Hl1 He1].
  destruct (shr (shr_record_of_loc mx lx) ex k) as [mrs1 e1]. simpl in Hl1, He1. subst e1.
  destruct (round_nearest_even_located N (2 ^ k * D) mrs1 Hl1) as (Hm & Herr & Hex).
  set (m1 := round_nearest_even (shr_m mrs1) (loc_of_shr_record mrs1)) in *.
  destruct Hl1 as (HD1 & Hm0 & Hb1 & _). destruct Hloc as (HD & _ & Hb & _).
  rewrite shr_record_of_loc_m in Hb.
  assert (2 ^ 52 ≤ shr_m mrs1 < 2 ^ 53) as Hrange.
  { split.
    - apply Z.lt_succ_r. apply (Z.mul_lt_mono_pos_r (2 ^ k * D)); [lia|]. nia.
    - apply (Z.mul_lt_mono_pos_r (2 ^ k * D)); [lia|]. nia. }
  assert (∀ z, N = z * (2 ^ k * D) → m1 * 2 ^ k * D = N) as Hexact0.
  { intros z Hz. rewrite Hex; [|].
    - assert (z = shr_m mrs1) as <-; [|lia].
      apply Z.le_antisymm.
      + apply Z.lt_succ_r. apply (Z.mul_lt_mono_pos_r (2 ^ k * D)); [lia|]. lia.
      + apply (Z.mul_le_mono_pos_r _ _ (2 ^ k * D)); [lia|]. lia.
    - assert (z = shr_m mrs1) as <-; [|lia].
      apply Z.le_antisymm.
      + apply Z.lt_succ_r. apply (Z.mul_lt_mono_pos_r (2 ^ k * D)); [lia|]. lia.
      + apply (Z.mul_le_mono_pos_r _ _ (2 ^ k * D)); [lia|]. lia. }
  assert (∀ i s, 0 ≤ s → 0 < i < 2 ^ 53 → N = i * 2 ^ s * D → m1 * 2 ^ k * D = N)
    as Hexact.
  { intros i s Hs Hi HN.
    assert (0 < 2 ^ s) as HS by (apply Z.pow_pos_nonneg; lia).
    assert (mx = i * 2 ^ s) as Hmx_eq.
    { apply Z.le_antisymm.
      - apply (Z.mul_le_mono_pos_r _ _ D); [lia|]. lia.
      - apply Z.lt_succ_r. apply (Z.mul_lt_mono_pos_r D); [lia|]. lia. }
    assert (k ≤ s) as Hks.
    { destruct (decide (k ≤ s)); [done|].
      assert (2 ^ (53 + s) ≤ 2 ^ (52 + k)) as Hp by (apply Z.pow_le_mono_r; lia).
      rewrite !Z.pow_add_r in Hp by lia. nia. }
    apply (Hexact0 (i * 2 ^ (s - k))).
    rewrite HN. replace s with ((s - k) + k) at 1 by lia.
    rewrite Z.pow_add_r by lia. ring. }
  destruct (decide (m1 = 2 ^ 53)) as [Htop|Hbelow].
  - (* the mantissa reached 2^53: one more place is shifted out *)
    rewrite Htop. change (Zdigits2 (2 ^ 53)) with 54.
    rewrite (fexp_normal (54 + (ex + k))) by lia.
    replace (54 + (ex + k) - 53 - (ex + k)) with 1 by lia.
    change (2 ^ 53) with 9007199254740992 at 1 2. simpl.
    replace (ex + k + 1 <=? 1024 - 53) with true by (symmetry; apply Z.leb_le; lia).
    exists 4503599627370496%positive, (k + 1).
    split; [f_equal; lia|]. split; [by vm_compute|]. split; [lia|].
    assert (4503599627370496 * 2 ^ (k + 1) = m1 * 2 ^ k) as Hval.
    { rewrite Htop, Z.pow_add_r by lia. change (2 ^ 53) with 9007199254740992. lia. }
    rewrite Hval. split; [|done].
    replace (m1 * 2 ^ k * D - N) with (m1 * (2 ^ k * D) - N) by ring. done.
  - assert (2 ^ 52 ≤ m1 < 2 ^ 53) as Hm1 by lia.
    rewrite (Zdigits2_unique m1 53) by lia.
    rewrite (fexp_normal (53 + (ex + k))) by lia.
    replace (53 + (ex + k) - 53 - (ex + k)) with 0 by lia. simpl.
    destruct m1 as [|p|p] eqn:Hp; [lia| |lia].
    replace (ex + k <=? 1024 - 53) with true by (symmetry; apply Z.leb_le; lia).
    exists p, k. split; [done|]. split; [done|]. split; [lia|]. split; [|done].
    replace (Z.pos p * 2 ^ k * D - N) with (Z.pos p * (2 ^ k * D) - N) by ring. done.
Qed.

Lemma Pos_iter_xO (p n : positive) : Z.pos (Pos.iter xO p n) = Z.pos p * 2 ^ Z.pos n.
Proof.
  induction n as [|n IH] using Pos.peano_ind.
  - simpl. lia.
  - rewrite Pos.iter_succ.
    change (Z.pos (Pos.iter xO p n)~0) with (2 * Z.pos (Pos.iter xO p n)).
    rewrite IH, Pos2Z.inj_succ, Z.pow_succ_r by lia. ring.
Qed.

Lemma located_exact (m : Z) : 0 ≤ m → located m 1 (shr_record_of_loc m loc_Exact).
Proof.
  intros Hm. unfold located. cbn [shr_record_of_loc shr_m shr_r shr_s].
  split; [lia|]. split; [lia|]. split; [lia|].
  cases_Z; simpl; split; try reflexivity; lia.
Qed.

(** A positive integer below 2^53 is a binary64 number: its digits, moved
    up to fill the 53 places of the mantissa. *)
Lemma of_Z_small (c : Z) :
  0 < c < 2 ^ 53 →
  ∃ (m : positive) (a : Z),
    Number.of_Z c = S754_finite false m (- a)
    ∧ 0 ≤ a ≤ 52 ∧ Z.pos m = c * 2 ^ a ∧ 2 ^ 52 ≤ Z.pos m < 2 ^ 53.
Proof.
  intros [Hc0 Hc]. destruct c as [|p|p]; [lia| |lia].
  pose proof (Zdigits2_bounds (Z.pos p) Hc0) as [Hl Hh].
  set (d := Zdigits2 (Z.pos p)) in *.
  assert (0 < d) as Hd0 by (subst d; simpl; lia).
  assert (d ≤ 53) as Hd.
  { destruct (decide (d ≤ 53)); [done|].
    assert (2 ^ 53 ≤ 2 ^ (d - 1)) by (apply Z.pow_le_mono_r; lia). lia. }
  unfold Number.of_Z, Number.prec, Number.emax, binary_normalize, binary_round, shl_align.
  change (Z.pos (digits2_pos p)) with d. rewrite Z.add_0_r.
  rewrite (fexp_normal d) by lia. rewrite Z.sub_0_r.
  assert (∃ mz : positive,
            Z.pos mz = Z.pos p * 2 ^ (53 - d)
            ∧ match d - 53 with
              | Z.neg s => (Pos.iter xO p s, d - 53)
              | _ => (p, 0)
              end = (mz, d - 53)) as (mz & Hmz & ->).
  { destruct (d - 53) as [|s|s] eqn:Hs; [|lia|].
    - exists p. replace (53 - d) with 0 by lia. split; [simpl; lia|done].
    - exists (Pos.iter xO p s). rewrite Pos_iter_xO.
      replace (53 - d) with (Z.pos s) by lia. done. }
  assert (2 ^ 52 ≤ Z.pos mz < 2 ^ 53) as Hrange.
  { rewrite Hmz.
    assert (2 ^ 52 = 2 ^ (d - 1) * 2 ^ (53 - d)) as ->
      by (rewrite <-Z.pow_add_r by lia; f_equal; lia).
    assert (2 ^ 53 = 2 ^ d * 2 ^ (53 - d)) as ->
      by (rewrite <-Z.pow_add_r by lia; f_equal; lia).
    assert (0 < 2 ^ (53 - d)) by (apply Z.pow_pos_nonneg; lia).
    split; [apply Z.mul_le_mono_nonneg_r; lia|apply Z.mul_lt_mono_pos_r; lia]. }
  destruct (binary_round_aux_normal (Z.pos mz) (d - 53) loc_Exact (Z.pos mz) 1)
    as (m & j & -> & Hm & Hj & _ & Hex); try done.
  - rewrite (Zdigits2_unique (Z.pos mz) 53); [lia|lia|lia].
  - rewrite (Zdigits2_unique (Z.pos mz) 53); [lia|lia|lia].
  - rewrite (Zdigits2_unique (Z.pos mz) 53); [lia|lia|lia].
  - by apply located_exact.
  - rewrite (Zdigits2_unique (Z.pos mz) 53) in Hj by lia.
    specialize (Hex (Z.pos mz) 0 ltac:(lia) ltac:(lia)). simpl in Hex.
    rewrite !Z.mul_1_r in Hex. specialize (Hex eq_refl).
    assert (j = 0) as ->.
    { destruct (decide (j = 0)); [done|]. assert (j = 1) as -> by lia.
      change (2 ^ 1) with 2 in Hex. lia. }
    rewrite Z.mul_1_r in Hex.
    exists m, (53 - d). replace (d - 53 + 0) with (- (53 - d)) by lia.
    split; [done|]. split; [lia|]. split; [lia|lia].
Qed.

(** A 53-digit mantissa times a power of two is a binary64 number. *)
Lemma of_Z_exact (m : positive) (e : Z) :
  2 ^ 52 ≤ Z.pos m < 2 ^ 53 → 0 ≤ e ≤ 970 →
  Number.of_Z (Z.pos m * 2 ^ e) = S754_finite false m e.
Proof.
  intros Hm He.
  assert (0 < 2 ^ e) as HE by (apply Z.pow_pos_nonneg; lia).
  assert (0 < Z.pos m * 2 ^ e) as Hpos by lia.
  destruct (Z.pos m * 2 ^ e) as [|p|p] eqn:Hp; [lia| |lia].
  assert (Zdigits2 (Z.pos p) = 53 + e) as Hd.
  { apply Zdigits2_unique; [|lia]. rewrite <-Hp.
    replace (53 + e - 1) with (52 + e) by lia. rewrite !Z.pow_add_r by lia. nia. }
  unfold Number.of_Z, Number.prec, Number.emax, binary_normalize, binary_round, shl_align.
  change (Z.pos (digits2_pos p)) with (Zdigits2 (Z.pos p)). rewrite Hd, Z.add_0_r.
  rewrite (fexp_normal (53 + e)) by lia. rewrite Z.sub_0_r.
  replace (53 + e - 53) with e by lia.
  assert (match e with Z.neg s => (Pos.iter xO p s, e) | _ => (p, 0) end = (p, 0)) as ->
    by (destruct e; [done|done|lia]).
  destruct (binary_round_aux_normal (Z.pos p) 0 loc_Exact (Z.pos p) 1)
    as (m' & j & -> & Hm' & Hj & _ & Hex); rewrite ?Hd; try lia.
  - by apply located_exact.
  - rewrite Hd in Hj.
    specialize (Hex (Z.pos m) e ltac:(lia) ltac:(lia)).
    rewrite !Z.mul_1_r in Hex. specialize (Hex (eq_sym Hp)).
    assert (j = 53 + e - 53) as ->.
    { destruct (decide (j = 53 + e - 53)); [done|].
      assert (j = e + 1) as -> by lia.
      rewrite Z.pow_add_r in Hex by lia. change (2 ^ 1) with 2 in Hex. nia. }
    replace (53 + e - 53) with e in * by lia.
    assert (Z.pos m' = Z.pos m) as [= ->] by nia. by rewrite Z.add_0_l.
Qed.

(** The location [SFdiv] computes from the remainder. *)
Lemma new_location_located (N D q r : Z) :
  0 < D → 0 ≤ r < D → 0 ≤ q → N = D * q + r →
  located N D (shr_record_of_loc q (new_location D r)).
Proof.
  intros HD Hr Hq ->. unfold new_location, new_location_even, new_location_odd.
  destruct (Z.even D) eqn:Heven.
  - destruct (Z.eqb_spec r 0) as [->|Hr0].
    + unfold located. cbn [shr_record_of_loc shr_m shr_r shr_s].
      repeat split; try lia; cases_Z; simpl; try reflexivity; lia.
    + destruct (Z.compare_spec (2 * r) D); unfold located;
        cbn [shr_record_of_loc shr_m shr_r shr_s];
        repeat split; try lia; cases_Z; simpl; try reflexivity; lia.
  - assert (Z.odd D = true) as Hodd by (by rewrite <-Z.negb_even, Heven).
    apply Z.odd_spec in Hodd as [x Hx].
    destruct (Z.eqb_spec r 0) as [->|Hr0].
    + unfold located. cbn [shr_record_of_loc shr_m shr_r shr_s].
      repeat split; try lia; cases_Z; simpl; try reflexivity; lia.
    + destruct (Z.compare_spec (2 * r + 1) D); unfold located;
        cbn [shr_record_of_loc shr_m shr_r shr_s];
        repeat split; try lia; cases_Z; simpl; try reflexivity; lia.
Qed.

(** Division of two 53-digit mantissas: the quotient is rounded with a
    relative error of at most 2^-53, and not at all when it has 53
    significant digits or fewer. *)
Lemma div_normal (m1 m2 : positive) (e1 e2 : Z) :
  2 ^ 52 ≤ Z.pos m1 < 2 ^ 53 → 2 ^ 52 ≤ Z.pos m2 < 2 ^ 53 →
  -52 ≤ e1 ≤ 0 → -52 ≤ e2 ≤ 0 →
  ∃ (m : positive) (j : Z),
    Number.div (S754_finite false m1 e1) (S754_finite false m2 e2)
    = S754_finite false m (e1 - e2 - 53 + j)
    ∧ 2 ^ 52 ≤ Z.pos m < 2 ^ 53
    ∧ 0 ≤ j ≤ 2
    ∧ Z.abs (Z.pos m * 2 ^ j * Z.pos m2 - Z.pos m1 * 2 ^ 53) ≤ Z.pos m1
    ∧ (∀ i s, 0 ≤ s → 0 < i < 2 ^ 53 → Z.pos m1 * 2 ^ 53 = i * 2 ^ s * Z.pos m2 →
              Z.pos m * 2 ^ j * Z.pos m2 = Z.pos m1 * 2 ^ 53).
Proof.
  intros Hm1 Hm2 He1 He2.
  unfold Number.div, Number.prec, Number.emax, SFdiv, SFdiv_core_binary.
  rewrite (Zdigits2_unique (Z.pos m1) 53), (Zdigits2_unique (Z.pos m2) 53) by lia.
  replace (53 + e1 - (53 + e2)) with (e1 - e2) by lia.
  rewrite (fexp_normal (e1 - e2)) by lia.
  rewrite Z.min_l by lia.
  replace (e1 - e2 - (e1 - e2 - 53)) with 53 by lia.
  rewrite Z.shiftl_mul_pow2 by lia.
  pose proof (Z_div_mod (Z.pos m1 * 2 ^ 53) (Z.pos m2) ltac:(lia)) as Hdiv.
  destruct (Z.div_eucl (Z.pos m1 * 2 ^ 53) (Z.pos m2)) as [q r].
  destruct Hdiv as [Hqr Hr].
  assert (2 ^ 52 ≤ q < 2 ^ 54) as Hq.
  { change (2 ^ 54) with (2 * 2 ^ 53). change (2 ^ 53) with (2 * 2 ^ 52) in *.
    set (A := 2 ^ 52) in *. assert (0 < A) by (by vm_compute). nia. }
  cbn [xorb]. set (d := Zdigits2 q).
  assert (d = 53 ∨ d = 54) as Hd.
  { destruct (decide (q < 2 ^ 53)).
    - left. apply Zdigits2_unique; lia.
    - right. apply Zdigits2_unique; [|lia]. change (54 - 1) with 53. lia. }
  destruct (binary_round_aux_normal q (e1 - e2 - 53) (new_location (Z.pos m2) r)
              (Z.pos m1 * 2 ^ 53) (Z.pos m2))
    as (m & j & -> & Hm & Hj & Herr & Hex); fold d; try lia.
  - apply new_location_located; lia.
  - fold d in Hj, Herr.
    exists m, j. split; [done|]. split; [done|]. split; [lia|]. split; [|done].
    destruct Hd as [Hd|Hd]; rewrite Hd in Herr.
    + change (2 ^ (53 - 53)) with 1 in Herr. lia.
    + change (2 ^ (54 - 53)) with 2 in Herr.
      assert (2 ^ 53 ≤ q).
      { pose proof (Zdigits2_bounds q ltac:(lia)) as [Hl _]. fold d in Hl.
        rewrite Hd in Hl. exact Hl. }
      assert (Z.pos m2 ≤ Z.pos m1); [|lia].
      set (B := 2 ^ 53) in *. assert (0 < B) by (by vm_compute). nia.
Qed.

(** Multiplication of two 53-digit mantissas, likewise. *)
Lemma mul_normal (m1 m2 : positive) (e1 e2 : Z) :
  2 ^ 52 ≤ Z.pos m1 < 2 ^ 53 → 2 ^ 52 ≤ Z.pos m2 < 2 ^ 53 →
  -1021 ≤ e1 + e2 + 52 → e1 + e2 + 106 ≤ 1023 →
  ∃ (m : positive) (j : Z),
    Number.mul (S754_finite false m1 e1) (S754_finite false m2 e2)
    = S754_finite false m (e1 + e2 + j)
    ∧ 2 ^ 52 ≤ Z.pos m < 2 ^ 53
    ∧ 52 ≤ j ≤ 54
    ∧ 2 ^ 53 * Z.abs (Z.pos m * 2 ^ j - Z.pos m1 * Z.pos m2) ≤ Z.pos m1 * Z.pos m2
    ∧ (∀ i s, 0 ≤ s → 0 < i < 2 ^ 53 → Z.pos m1 * Z.pos m2 = i * 2 ^ s →
              Z.pos m * 2 ^ j = Z.pos m1 * Z.pos m2).
Proof.
  intros Hm1 Hm2 Hlo Hhi.
  unfold Number.mul, Number.prec, Number.emax, SFmul. cbn [xorb].
  rewrite Pos2Z.inj_mul.
  set (P := Z.pos m1 * Z.pos m2).
  assert (2 ^ 104 ≤ P < 2 ^ 106) as HP.
  { subst P. change (2 ^ 104) with (2 ^ 52 * 2 ^ 52). change (2 ^ 106) with (2 ^ 53 * 2 ^ 53).
    set (A := 2 ^ 52) in *. set (B := 2 ^ 53) in *.
    assert (0 < A) by (by vm_compute). assert (0 < B) by (by vm_compute). nia. }
  set (d := Zdigits2 P).
  assert (d = 105 ∨ d = 106) as Hd.
  { destruct (decide (P < 2 ^ 105)).
    - left. apply Zdigits2_unique; [|lia]. change (105 - 1) with 104. lia.
    - right. apply Zdigits2_unique; [|lia]. change (106 - 1) with 105. lia. }
  destruct (binary_round_aux_normal P (e1 + e2) loc_Exact P 1)
    as (m & j & -> & Hm & Hj & Herr & Hex); fold d; try lia.
  - apply located_exact. lia.
  - fold d in Hj, Herr.
    exists m, j. split; [done|]. split; [done|]. split; [lia|].
    rewrite !Z.mul_1_r in Herr. split.
    + pose proof (Zdigits2_bounds P ltac:(lia)) as [Hl _]. fold d in Hl.
      assert (2 ^ 53 * 2 ^ (d - 53) = 2 * 2 ^ (d - 1)) as Hpow.
      { rewrite <-Z.pow_add_r by lia. replace (53 + (d - 53)) with (1 + (d - 1)) by lia.
        rewrite Z.pow_add_r by lia. done. }
      assert (0 < 2 ^ (d - 53)) by (apply Z.pow_pos_nonneg; lia).
      nia.
    + intros i s Hs Hi HPi. specialize (Hex i s Hs Hi).
      rewrite !Z.mul_1_r in Hex. by apply Hex.
Qed.

(** [Math.round] of a positive binary64 number is the integer [r] with
    [r - 1/2 ≤ x < r + 1/2]: a tie goes up. *)
Lemma Math_round_finite (m : positive) (e : Z) :
  2 ^ 52 ≤ Z.pos m < 2 ^ 53 → e ≤ 970 →
  ∃ r, Number.Math_round (S754_finite false m e) = Number.of_Z r
       ∧ 0 ≤ r
       ∧ (0 ≤ e → r = Z.pos m * 2 ^ e)
       ∧ (e < 0 → 2 * 2 ^ (- e) * r ≤ 2 * Z.pos m + 2 ^ (- e) < 2 * 2 ^ (- e) * (r + 1)).
Proof.
  intros Hm He. unfold Number.Math_round.
  destruct (Z.leb_spec 0 e) as [Hpos|Hneg].
  - exists (Z.pos m * 2 ^ e). rewrite of_Z_exact by lia.
    assert (0 < 2 ^ e) by (apply Z.pow_pos_nonneg; lia).
    split; [done|]. split; [lia|]. split; [done|lia].
  - cbn [cond_Zopp].
    assert (0 < 2 ^ (- e)) as HW by (apply Z.pow_pos_nonneg; lia).
    assert (2 ^ (1 - e) = 2 * 2 ^ (- e)) as ->.
    { replace (1 - e) with (1 + - e) by lia. by rewrite Z.pow_add_r by lia. }
    set (r := (2 * Z.pos m + 2 ^ (- e)) / (2 * 2 ^ (- e))).
    assert (2 * 2 ^ (- e) * r ≤ 2 * Z.pos m + 2 ^ (- e) < 2 * 2 ^ (- e) * (r + 1)) as Hr.
    { split.
      - subst r. apply Z.mul_div_le. lia.
      - replace (r + 1) with (Z.succ r) by lia. subst r. apply Z.mul_succ_div_gt. lia. }
    assert (0 ≤ r) as Hr0 by (subst r; apply Z.div_pos; lia).
    exists r. split; [|split; [done|split; [lia|done]]].
    destruct (Z.eqb_spec r 0) as [->|]; [reflexivity|done].
Qed.

(** The computation of [getProgress] on safe integers: the result is
    [Math.round] of a number [Y / (H * t)] that is within a relative error of
    about 2^-52 of [100 * c / t], and equal to it when [c / t] is a binary
    fraction with a short numerator. *)
Lemma progress_core (c t : Z) :
  0 < c < 2 ^ 53 → 0 < t < 2 ^ 53 →
  ∃ r Y H,
    progress_of c t = Number.of_Z r
    ∧ 0 ≤ r ∧ 0 < H
    ∧ 2 * H * r * t ≤ 2 * Y + H * t < 2 * H * (r + 1) * t
    ∧ 2 ^ 106 * Z.abs (Y - 100 * c * H) ≤ 100 * c * H * (2 ^ 54 + 1)
    ∧ (∀ u i n, 0 ≤ n → t = u * 2 ^ n → c = u * i → 25 * i < 2 ^ 53 →
                Y = 100 * c * H).
Proof.
  intros Hc Ht.
  destruct (of_Z_small c Hc) as (m1 & a & Hofc & Ha & Hm1 & Hr1).
  destruct (of_Z_small t Ht) as (m2 & b & Hoft & Hb & Hm2 & Hr2).
  assert (Number.of_Z 100 = S754_finite false 7036874417766400 (-46)) as Hof100
    by (vm_compute; reflexivity).
  destruct (div_normal m1 m2 (- a) (- b)) as (mq & j & Hdiv & Hrq & Hj & Herr1 & Hex1);
    try lia.
  destruct (mul_normal mq 7036874417766400 (- a - - b - 53 + j) (-46))
    as (my & j' & Hmul & Hry & Hj' & Herr2 & Hex2); try lia.
  set (ey := - a - - b - 53 + j + -46 + j') in *.
  destruct (Math_round_finite my ey) as (r & Hround & Hr0 & Hge & Hlt); [done|lia|].
  set (M := 7036874417766400) in *.
  set (Ea := 2 ^ a) in *. set (Eb := 2 ^ b) in *.
  set (J := 2 ^ j) in *. set (J' := 2 ^ j') in *.
  assert (0 < Ea) as HEa by (apply Z.pow_pos_nonneg; lia).
  assert (0 < Eb) as HEb by (apply Z.pow_pos_nonneg; lia).
  assert (0 < J) as HJ by (apply Z.pow_pos_nonneg; lia).
  assert (0 < J') as HJ' by (apply Z.pow_pos_nonneg; lia).
  set (H := Ea * 2 ^ 99).
  set (G := J * J' * Eb).
  set (Y := Z.pos my * G * t).
  assert (0 < H) as HH by (subst H; lia).
  assert (0 < G) as HG by (subst G; repeat apply Z.mul_pos_pos; lia).
  exists r, Y, H.
  split. { unfold progress_of. by rewrite Hofc, Hoft, Hof100, Hdiv, Hmul. }
  split; [done|]. split; [done|].
  (* what the two roundings give *)
  assert (2 ^ 53 * M * Z.pos m1 = 100 * c * H) as HcH.
  { subst H M. rewrite Hm1. fold Ea. change (2 ^ 99) with (2 ^ 53 * 70368744177664).
    ring. }
  assert (Y - M * 2 ^ 53 * Z.pos m1
          = (Z.pos my * J' - Z.pos mq * M) * (J * Z.pos m2)
            + M * (Z.pos mq * J * Z.pos m2 - Z.pos m1 * 2 ^ 53)) as Hsplit.
  { subst Y G. rewrite Hm2. fold Eb. ring. }
  split.
  { (* rounding to the integer *)
    destruct (Z.lt_ge_cases ey 0) as [Hneg|Hpos].
    - specialize (Hlt Hneg). set (W := 2 ^ (- ey)) in *.
      assert (0 < W) as HW by (apply Z.pow_pos_nonneg; lia).
      assert (W * G = H) as HWG.
      { subst W G H J J' Eb Ea. rewrite <-!Z.pow_add_r by lia. f_equal. lia. }
      assert (0 < G * t) as HGt by (apply Z.mul_pos_pos; lia).
      destruct Hlt as [Hl1 Hl2].
      apply (Z.mul_le_mono_nonneg_r _ _ (G * t)) in Hl1; [|lia].
      apply (Z.mul_lt_mono_pos_r (G * t)) in Hl2; [|lia].
      replace (2 * W * r * (G * t)) with (2 * (W * G) * r * t) in Hl1 by ring.
      replace ((2 * Z.pos my + W) * (G * t)) with (2 * Y + (W * G) * t) in Hl1, Hl2
        by (subst Y; ring).
      replace (2 * W * (r + 1) * (G * t)) with (2 * (W * G) * (r + 1) * t) in Hl2 by ring.
      rewrite HWG in Hl1, Hl2. done.
    - specialize (Hge Hpos). set (V := 2 ^ ey) in *.
      assert (0 < V) as HV by (apply Z.pow_pos_nonneg; lia).
      assert (G = V * H) as HGV.
      { subst V G H J J' Eb Ea. rewrite <-!Z.pow_add_r by lia. f_equal. lia. }
      assert (Y = H * r * t) as -> by (subst Y; rewrite HGV, Hge; ring).
      assert (0 < H * t) by (apply Z.mul_pos_pos; lia). lia. }
  split.
  { (* the error of the two roundings *)
    replace (100 * c * H) with (M * 2 ^ 53 * Z.pos m1) by (rewrite <-HcH; ring).
    rewrite Hsplit.
    set (p := Z.pos my * J' - Z.pos mq * M) in *.
    set (q := Z.pos mq * J * Z.pos m2 - Z.pos m1 * 2 ^ 53) in *.
    assert (0 < M) as HM by done.
    assert (0 < J * Z.pos m2) as HJm by nia.
    assert (2 ^ 53 * Z.abs (p * (J * Z.pos m2)) ≤ Z.pos mq * M * (J * Z.pos m2)) as Hp.
    { rewrite Z.abs_mul, (Z.abs_eq (J * Z.pos m2)) by lia.
      rewrite Z.mul_assoc. apply Z.mul_le_mono_nonneg_r; [lia|done]. }
    assert (Z.abs (M * q) ≤ M * Z.pos m1) as Hq.
    { rewrite Z.abs_mul, (Z.abs_eq M) by lia. apply Z.mul_le_mono_nonneg_l; [lia|done]. }
    assert (Z.pos mq * J * Z.pos m2 ≤ Z.pos m1 * 2 ^ 53 + Z.pos m1) as Hq' by lia.
    pose proof (Z.abs_triangle (p * (J * Z.pos m2)) (M * q)) as Htri.
    assert (2 ^ 53 * Z.abs (p * (J * Z.pos m2) + M * q)
            ≤ M * Z.pos m1 * (2 ^ 54 + 1)) as Hsum.
    { assert (Z.pos mq * M * (J * Z.pos m2) ≤ M * (Z.pos m1 * 2 ^ 53 + Z.pos m1)) as Hx.
      { replace (Z.pos mq * M * (J * Z.pos m2)) with (M * (Z.pos mq * J * Z.pos m2)) by ring.
        apply Z.mul_le_mono_nonneg_l; [lia|done]. }
      change (2 ^ 54) with 18014398509481984.
      change (2 ^ 53) with 9007199254740992 in *. subst M. lia. }
    change (2 ^ 106) with (2 ^ 53 * 2 ^ 53).
    rewrite <-Z.mul_assoc.
    replace (M * 2 ^ 53 * Z.pos m1 * (2 ^ 54 + 1))
      with (2 ^ 53 * (M * Z.pos m1 * (2 ^ 54 + 1))) by ring.
    apply Z.mul_le_mono_nonneg_l; [by vm_compute|done]. }
  (* a binary fraction is not rounded *)
  intros u i n Hn Htu Hcu Hi.
  assert (0 < 2 ^ n) as HN by (apply Z.pow_pos_nonneg; lia).
  assert (0 < u) as Hu by (clear - Htu Ht HN; nia).
  assert (0 < i) as Hi0 by (clear - Hcu Hc Hu; nia).
  assert (n + b < 53) as Hnb.
  { destruct (decide (n + b < 53)); [done|].
    assert (2 ^ 53 ≤ 2 ^ (n + b)) as Hp by (apply Z.pow_le_mono_r; lia).
    rewrite Z.pow_add_r in Hp by lia. fold Eb in Hp.
    assert (2 ^ n * Eb ≤ u * (2 ^ n * Eb)) as Hle.
    { rewrite <-(Z.mul_1_l (2 ^ n * Eb)) at 1. apply Z.mul_le_mono_nonneg_r; lia. }
    rewrite Htu in Hm2. clear - Hp Hle Hm2 Hr2. lia. }
  set (s := a + 53 - n - b).
  assert (Ea * 2 ^ 53 = 2 ^ s * (2 ^ n * Eb)) as Hs.
  { subst s Ea Eb. rewrite <-!Z.pow_add_r by lia. f_equal. lia. }
  assert (Z.pos mq * J * Z.pos m2 = Z.pos m1 * 2 ^ 53) as Hq.
  { apply (Hex1 i s); [lia|lia|].
    rewrite Hm1, Hm2, Hcu, Htu. fold Ea Eb.
    replace (u * i * Ea * 2 ^ 53) with (u * i * (Ea * 2 ^ 53)) by ring.
    rewrite Hs. ring. }
  assert (Z.pos mq * J = i * 2 ^ s) as HqJ.
  { apply (Z.mul_cancel_r _ _ (Z.pos m2)); [lia|]. rewrite Hq.
    rewrite Hm1, Hm2, Hcu, Htu. fold Ea Eb.
    replace (u * i * Ea * 2 ^ 53) with (u * i * (Ea * 2 ^ 53)) by ring.
    rewrite Hs. ring. }
  assert (Z.pos my * J' = Z.pos mq * M) as Hp.
  { apply (Hex2 (25 * i) (s + 48 - j)); [lia|lia|].
    apply (Z.mul_cancel_r _ _ J); [lia|].
    replace (Z.pos mq * M * J) with (Z.pos mq * J * M) by ring. rewrite HqJ.
    replace (25 * i * 2 ^ (s + 48 - j) * J) with (25 * i * (2 ^ (s + 48 - j) * J)) by ring.
    subst J. rewrite <-Z.pow_add_r by lia. replace (s + 48 - j + j) with (s + 48) by lia.
    rewrite Z.pow_add_r by lia. subst M. change (2 ^ 48) with 281474976710656. ring. }
  apply Zminus_eq. rewrite <-HcH.
  replace (2 ^ 53 * M * Z.pos m1) with (M * 2 ^ 53 * Z.pos m1) by ring.
  rewrite Hsplit, Hp, Hq. ring.
Qed.

Lemma progress_of_zero (t : Z) : 0 < t < 2 ^ 53 → progress_of 0 t = Number.of_Z 0.
Proof.
  intros Ht. destruct (of_Z_small t Ht) as (m2 & b & Hoft & _).
  unfold progress_of. rewrite Hoft. reflexivity.
Qed.

Lemma getProgress_progress_of (a : ChunkAssembler.t) :
  ChunkAssembler.getProgress a
  = progress_of (Z.of_nat (size (ChunkAssembler.chunks a))) (ChunkAssembler.totalChunks a).
Proof. reflexivity. Qed.

(** C9, as the code has it. For an assembler whose chunk count [c] and
    expected total [t > 0] are safe integers (below 2^53, the range in which
    a number is the integer it is read as), [getProgress] is
    [Math.round((c / t) * 100)] in binary64. It is an integer [r] with
    |r - 100 c / t| ≤ 1/2 + (100 c / t) (2^-52 + 2^-106): one rounding to the
    integer after two roundings of relative error 2^-53. While
    200 c < 2^52 this makes [r] a nearest integer of [100 c / t], so that
    quotient's floor or the floor plus one; and when [c / t] is a binary
    fraction [i / 2^n] (as for 1 of 8) nothing is rounded before
    [Math.round], which takes a half up: [r] is the floor of
    [100 c / t + 1/2]. *)
Theorem getProgress_nearest (a : ChunkAssembler.t) :
  let c := Z.of_nat (size (ChunkAssembler.chunks a)) in
  let t := ChunkAssembler.totalChunks a in
  0 < t < 2 ^ 53 → c < 2 ^ 53 →
  ∃ r, ChunkAssembler.getProgress a = Number.of_Z r
       ∧ 0 ≤ r
       ∧ 2 ^ 106 * Z.abs (2 * t * r - 200 * c) ≤ 2 ^ 106 * t + 200 * c * (2 ^ 54 + 1)
       ∧ (200 * c < 2 ^ 52 →
          2 * Z.abs (t * r - 100 * c) ≤ t
          ∧ 100 * c / t ≤ r ≤ 100 * c / t + 1
          ∧ ∀ u i n, 0 ≤ n → t = u * 2 ^ n → c = u * i →
                     r = (200 * c + t) / (2 * t)).
Proof.
  intros c t Ht Hc. change (ChunkAssembler.getProgress a) with (progress_of c t).
  assert (0 ≤ c) as Hc0 by (subst c; lia). clearbody c t.
  assert (∀ r, 0 ≤ r →
               2 ^ 106 * Z.abs (2 * t * r - 200 * c) ≤ 2 ^ 106 * t + 200 * c * (2 ^ 54 + 1) →
               200 * c < 2 ^ 52 →
               2 * Z.abs (t * r - 100 * c) ≤ t ∧ 100 * c / t ≤ r ≤ 100 * c / t + 1)
    as Hnear.
  { intros r Hr Herr Hsmall.
    assert (2 * Z.abs (t * r - 100 * c) ≤ t) as Hn.
    { change (2 ^ 106) with 81129638414606681695789005144064 in Herr.
      change (2 ^ 54) with 18014398509481984 in Herr.
      change (2 ^ 52) with 4503599627370496 in Hsmall. lia. }
    split; [done|].
    pose proof (Z.mul_div_le (100 * c) t ltac:(lia)) as Hd1.
    pose proof (Z.mul_succ_div_gt (100 * c) t ltac:(lia)) as Hd2.
    set (q := 100 * c / t) in *. split.
    - apply Z.lt_succ_r. apply (Z.mul_lt_mono_pos_l t); [lia|]. lia.
    - apply Z.lt_succ_r. apply (Z.mul_lt_mono_pos_l t); [lia|]. lia. }
  destruct (decide (c = 0)) as [->|Hne].
  - exists 0. split; [by apply progress_of_zero|]. split; [done|].
    split; [lia|]. intros _. split; [lia|]. split.
    + rewrite Z.mul_0_r, Z.div_0_l by lia. lia.
    + intros u i n Hn Htu Hcu. rewrite Z.mul_0_r, Z.add_0_l.
      symmetry. apply Z.div_small. lia.
  - destruct (progress_core c t) as (r & Y & H & Hprog & Hr0 & HH & Hround & Herr & Hex);
      [lia|lia|].
    exists r. split; [done|]. split; [done|].
    assert (2 ^ 106 * Z.abs (2 * t * r - 200 * c) ≤ 2 ^ 106 * t + 200 * c * (2 ^ 54 + 1))
      as Hbound.
    { apply (Z.mul_le_mono_pos_l _ _ H); [done|].
      replace (H * (2 ^ 106 * Z.abs (2 * t * r - 200 * c)))
        with (2 ^ 106 * Z.abs (2 * H * r * t - 2 * (100 * c * H))).
      2:{ replace (2 * H * r * t - 2 * (100 * c * H)) with (H * (2 * t * r - 200 * c))
            by ring.
          rewrite Z.abs_mul, (Z.abs_eq H) by lia. ring. }
      change (2 ^ 106) with 81129638414606681695789005144064 in *.
      change (2 ^ 54) with 18014398509481984 in *. lia. }
    split; [done|]. intros Hsmall.
    destruct (Hnear r Hr0 Hbound Hsmall) as [Hn Hfl]. split; [done|]. split; [done|].
    intros u i n Hn' Htu Hcu.
    assert (0 < 2 ^ n) as HN by (apply Z.pow_pos_nonneg; lia).
    assert (0 < u) as Hu by (clear - Htu Ht HN; nia).
    assert (i ≤ c) as Hic.
    { rewrite Hcu. rewrite <-(Z.mul_1_l i) at 1.
      assert (0 < i) by (clear - Hcu Hc0 Hne Hu; nia).
      apply Z.mul_le_mono_nonneg_r; lia. }
    specialize (Hex u i n Hn' Htu Hcu).
    rewrite Hex in Hround by (change (2 ^ 52) with 4503599627370496 in Hsmall;
                              change (2 ^ 53) with 9007199254740992; lia).
    apply (Z.div_unique_pos _ _ _ (200 * c + t - 2 * t * r)); [|ring].
    split.
    + assert (H * (2 * r * t) ≤ H * (200 * c + t)) as Hle by lia.
      apply Z.mul_le_mono_pos_l in Hle; lia.
    + assert (H * (200 * c + t) < H * (2 * (r + 1) * t)) as Hlt by lia.
      apply Z.mul_lt_mono_pos_l in Hlt; lia.
Qed.

Lemma getProgress_nearest_witness :
  ∃ r, ChunkAssembler.getProgress two_of_three = Number.of_Z r
       ∧ 0 ≤ r
       ∧ 2 ^ 106 * Z.abs (2 * 3 * r - 200 * 2) ≤ 2 ^ 106 * 3 + 200 * 2 * (2 ^ 54 + 1)
       ∧ (200 * 2 < 2 ^ 52 →
          2 * Z.abs (3 * r - 100 * 2) ≤ 3
          ∧ 100 * 2 / 3 ≤ r ≤ 100 * 2 / 3 + 1
          ∧ ∀ u i n, 0 ≤ n → 3 = u * 2 ^ n → 2 = u * i →
                     r = (200 * 2 + 3) / (2 * 3)).
Proof.
  apply (getProgress_nearest two_of_three).
  - change (0 < 3 < 2 ^ 53). lia.
  - vm_compute. reflexivity.
Defined.

(** C9, as stated, fails. With 2 of 3 chunks the floor of 100 * 2 / 3 is 66,
    and [getProgress] returns 67. *)
Lemma getProgress_is_not_floor :
  Z.of_nat (size (ChunkAssembler.chunks two_of_three)) = 2
  ∧ ChunkAssembler.totalChunks two_of_three = 3
  ∧ 100 * 2 / 3 = 66
  ∧ ChunkAssembler.getProgress two_of_three = Number.of_Z 67
  ∧ ChunkAssembler.getProgress two_of_three ≠ Number.of_Z (100 * 2 / 3).
Proof.
  assert (ChunkAssembler.getProgress two_of_three = Number.of_Z 67) as E
    by (vm_compute; reflexivity).
  repeat split; try (vm_compute; reflexivity).
  rewrite E. vm_compute. discriminate.
Qed.

(** A half goes up when nothing was rounded before: 100 * 1 / 8 is 12.5. *)
Example getProgress_1_of_8 : progress_of 1 8 = Number.of_Z 13.
Proof. vm_compute. reflexivity. Qed.

(** Where the binary64 product falls just below a half, the result is the
    lower neighbour: exactly, 100 * 23 / 40 is 57.5. *)
Example getProgress_23_of_40 : progress_of 23 40 = Number.of_Z 57.
Proof. vm_compute. reflexivity. Qed.

(** Past 200 c = 2^52 the two roundings can carry the product over a half:
    here [100 c / t] is below 33.5, its nearest integer is 33, and the result
    is 34. *)
Example getProgress_large_count :
  let c := 26470754646617 in
  let t := 79017178049603 in
  progress_of c t = Number.of_Z 34
  ∧ 2 ^ 52 < 200 * c
  ∧ 2 * Z.abs (t * 33 - 100 * c) ≤ t
  ∧ t < 2 * Z.abs (t * 34 - 100 * c).
Proof. vm_compute. repeat split; congruence. Qed.

(** Past 2^53 a number is no longer the integer it is read as: a total of
    2^53 + 5 is read as 2^53 + 4, a count of 2^53 + 3 as 2^53 + 4. With this
    third rounding the result leaves the bound of the theorem, on either
    side. *)
Example getProgress_past_safe_integers :
  (let c := 5269211564023482 in
   let t := 2 ^ 53 + 5 in
   c < 2 ^ 53
   ∧ progress_of c t = Number.of_Z 59
   ∧ 2 ^ 106 * t + 200 * c * (2 ^ 54 + 1) < 2 ^ 106 * Z.abs (2 * t * 59 - 200 * c))
  ∧ (let c := 2 ^ 53 + 3 in
     let t := 8619329430374160 in
     t < 2 ^ 53
     ∧ progress_of c t = Number.of_Z 105
     ∧ 2 ^ 106 * t + 200 * c * (2 ^ 54 + 1) < 2 ^ 106 * Z.abs (2 * t * 105 - 200 * c)).
Proof. vm_compute. repeat split; congruence. Qed.

(** * Steps of the transfer engine *)

Ltac run_m :=
  unfold bind, ret, get, modify, update, emit, send, createMessage, Date_now,
    lift, throw, set_transfers, set_assemblers, set_filePaths, set_files,
    set_sent, set_emitted, set_ticks; simpl.

Lemma alter_Some {A} (m : gmap string A) (i : string) (f : A → A) (x : A) :
  m !! i = Some x → alter f i m = <[i := f x]> m.
Proof.
  intros Hx. apply map_eq. intros j. destruct (decide (i = j)) as [->|].
  - by rewrite lookup_alter_eq, lookup_insert_eq, Hx.
  - by rewrite lookup_alter_ne, lookup_insert_ne.
Qed.

Section EngineSteps.
Context `{Platform}.

Lemma sendNextChunk_sends st id i t path data :
  transfers st !! id = Some t →
  filePaths st !! id = Some path →
  readFile (files st) path = Ok data →
  sendNextChunk id i st
  = (Ok tt,
     set_emitted (emitted st ++ [chunk_sent id i])
       (set_sent (sent st ++ [(TransferInfo.peerId t,
                               OCFTMessage.mk OCFT_VERSION id
                                 (TransferManagerConfig.botId (config st))
                                 (TransferInfo.peerId t) (clock st (ticks st))
                                 (chunk_payload data (TransferInfo.chunkSize t) i))])
          (set_ticks (S (ticks st)) st))).
Proof.
  intros Ht Hp Hf. unfold sendNextChunk. run_m.
  rewrite Ht, Hp, (readFile_Ok_path _ _ _ Hf). simpl.
  unfold readChunk. rewrite Hf. reflexivity.
Qed.

Lemma handleAccept_run st msg p t path data :
  let id := OCFTMessage.transferId msg in
  transfers st !! id = Some t →
  TransferInfo.direction t = Direction.send →
  filePaths st !! id = Some path →
  readFile (files st) path = Ok data →
  handleAccept msg p st
  = (Ok tt,
     mkState (config st)
       (<[id := TransferInfo.set_updatedAt (clock st (ticks st))
                  (TransferInfo.set_state TransferState.transferring t)]> (transfers st))
       (assemblers st) (filePaths st) (files st)
       (sent st ++ [(TransferInfo.peerId t,
                     OCFTMessage.mk OCFT_VERSION id
                       (TransferManagerConfig.botId (config st))
                       (TransferInfo.peerId t) (clock st (S (ticks st)))
                       (chunk_payload data (TransferInfo.chunkSize t)
                          (default 0 (AcceptPayload.resumeFrom p))))])
       (emitted st ++ [transfer_started id;
                       chunk_sent id (default 0 (AcceptPayload.resumeFrom p))])
       (clock st) (S (S (ticks st)))).
Proof.
  intros id Ht Hd Hp Hf. unfold handleAccept. fold id. run_m. rewrite Ht.
  unfold tracked. rewrite Hd. simpl.
  rewrite (alter_Some _ _ _ _ Ht), alter_insert_eq.
  rewrite (sendNextChunk_sends _ id _
             (TransferInfo.set_updatedAt (clock st (ticks st))
                (TransferInfo.set_state TransferState.transferring t)) path data);
    simpl; [|by rewrite lookup_insert_eq|done|done].
  run_m. by rewrite <-app_assoc.
Qed.

Lemma handleAck_finishing st msg p t :
  let id := OCFTMessage.transferId msg in
  transfers st !! id = Some t →
  TransferInfo.direction t = Direction.send →
  finishing t = true →
  handleAck msg p st
  = (Ok tt,
     if AckPayload.index p =? -1 then
       mkState (config st)
         (<[id := TransferInfo.set_completedAt (Some (clock st (ticks st)))
                    (TransferInfo.set_state TransferState.completed t)]> (transfers st))
         (assemblers st) (filePaths st) (files st) (sent st)
         (emitted st ++ [transfer_completed id]) (clock st) (S (ticks st))
     else st).
Proof.
  intros id Ht Hd Hs. unfold handleAck. fold id. run_m. rewrite Ht.
  unfold tracked. rewrite Hd. simpl. unfold finishing in Hs. rewrite Hs.
  destruct (AckPayload.index p =? -1); [|done].
  run_m. by rewrite (alter_Some _ _ _ _ Ht), alter_insert_eq.
Qed.

Lemma handleAck_received st msg p t path data :
  let id := OCFTMessage.transferId msg in
  let i := AckPayload.index p in
  let now := clock st (ticks st) in
  let t' := TransferInfo.set_updatedAt now
              (TransferInfo.set_receivedChunks ({[i]} ∪ TransferInfo.receivedChunks t) t) in
  transfers st !! id = Some t →
  TransferInfo.direction t = Direction.send →
  finishing t = false →
  AckPayload.received p = true →
  filePaths st !! id = Some path →
  readFile (files st) path = Ok data →
  handleAck msg p st
  = (Ok tt,
     if i + 1 <? TransferInfo.totalChunks t then
       mkState (config st) (<[id := t']> (transfers st))
         (assemblers st) (filePaths st) (files st)
         (sent st ++ [(TransferInfo.peerId t,
                       OCFTMessage.mk OCFT_VERSION id
                         (TransferManagerConfig.botId (config st))
                         (TransferInfo.peerId t) (clock st (S (ticks st)))
                         (chunk_payload data (TransferInfo.chunkSize t) (i + 1)))])
         (emitted st ++ [ack_received id i; chunk_sent id (i + 1)])
         (clock st) (S (S (ticks st)))
     else
       mkState (config st)
         (<[id := TransferInfo.set_state TransferState.completing t']> (transfers st))
         (assemblers st) (filePaths st) (files st)
         (sent st ++ [(TransferInfo.peerId t,
                       OCFTMessage.mk OCFT_VERSION id
                         (TransferManagerConfig.botId (config st))
                         (TransferInfo.peerId t) (clock st (S (ticks st)))
                         (PComplete (CompletePayload.mk (TransferInfo.totalChunks t)
                                       (TransferInfo.hash t))))])
         (emitted st ++ [ack_received id i])
         (clock st) (S (S (ticks st)))).
Proof.
  intros id i now t' Ht Hd Hs Hr Hp Hf. unfold handleAck. fold id i. run_m. rewrite Ht.
  unfold tracked. rewrite Hd. simpl. unfold finishing in Hs. rewrite Hs, Hr. simpl.
  rewrite (alter_Some _ _ _ _ Ht), alter_insert_eq. fold i now. fold t'.
  destruct (i + 1 <? TransferInfo.totalChunks t).
  - rewrite (sendNextChunk_sends _ id _ t' path data);
      simpl; [|by rewrite lookup_insert_eq|done|done].
    run_m. by rewrite <-app_assoc.
  - run_m. by rewrite alter_insert_eq.
Qed.

Lemma handleAck_refused st msg p t path data :
  let id := OCFTMessage.transferId msg in
  transfers st !! id = Some t →
  TransferInfo.direction t = Direction.send →
  finishing t = false →
  AckPayload.received p = false →
  filePaths st !! id = Some path →
  readFile (files st) path = Ok data →
  handleAck msg p st
  = (Ok tt,
     mkState (config st) (transfers st) (assemblers st) (filePaths st) (files st)
       (sent st ++ [(TransferInfo.peerId t,
                     OCFTMessage.mk OCFT_VERSION id
                       (TransferManagerConfig.botId (config st))
                       (TransferInfo.peerId t) (clock st (ticks st))
                       (chunk_payload data (TransferInfo.chunkSize t) (AckPayload.index p)))])
       (emitted st ++ [chunk_sent id (AckPayload.index p)])
       (clock st) (S (ticks st))).
Proof.
  intros id Ht Hd Hs Hr Hp Hf. unfold handleAck. fold id. run_m. rewrite Ht.
  unfold tracked. rewrite Hd. simpl. unfold finishing in Hs. rewrite Hs, Hr. simpl.
  by rewrite (sendNextChunk_sends _ id _ t path data).
Qed.

End EngineSteps.

Section StopAndWait.
Context `{Platform}.





End StopAndWait.

(** * What the engine keeps true of its transfers *)

Section Preservation.
Variable J : TransferManagerConfig.t → gmap string TransferInfo.t → Prop.

Lemma preserves_ret {A} (a : A) : preserves J (ret a).
Proof. by intros s. Qed.

Lemma preserves_throw {A} (e : string) : preserves J (@throw A e).
Proof. by intros s. Qed.

Lemma preserves_get {A} (f : State → A) : preserves J (get f).
Proof. by intros s. Qed.

Lemma preserves_lift {A} (r : Result A) : preserves J (lift r).
Proof. by intros s. Qed.

Lemma preserves_bind {A B} (m : M A) (k : A → M B) :
  preserves J m → (∀ a, preserves J (k a)) → preserves J (bind m k).
Proof.
  intros Hm Hk s Hs. unfold bind. specialize (Hm s Hs).
  destruct (m s) as [[a|e] s']; [by apply Hk|done].
Qed.

(** A bind whose first part reads the state: the rest may use what it read. *)
Lemma preserves_bind_get {A B} (f : State → A) (k : A → M B) (s : State) :
  J (config (k (f s) s).2) (transfers (k (f s) s).2) →
  J (config (bind (get f) k s).2) (transfers (bind (get f) k s).2).
Proof. done. Qed.

(** A bind whose first part is a call that returns or throws without the
    state: the rest may use what was returned. *)
Lemma preserves_bind_lift {A B} (r : Result A) (k : A → M B) (s : State) :
  J (config s) (transfers s) →
  (∀ a, r = Ok a → J (config (k a s).2) (transfers (k a s).2)) →
  J (config (bind (lift r) k s).2) (transfers (bind (lift r) k s).2).
Proof. intros Hs Hk. unfold bind, lift. destruct r as [a|e]; [by apply Hk|done]. Qed.

Lemma preserves_modify (f : State → State) :
  (∀ s, config (f s) = config s ∧ transfers (f s) = transfers s) →
  preserves J (modify f).
Proof. intros Hf s Hs. simpl. by destruct (Hf s) as [-> ->]. Qed.

Lemma preserves_Date_now : preserves J Date_now.
Proof. by intros s. Qed.

Lemma preserves_emit (e : Event) : preserves J (emit e).
Proof. by intros s. Qed.

Lemma preserves_send (to : string) (msg : OCFTMessage.t) : preserves J (send to msg).
Proof. by intros s. Qed.

Lemma preserves_createMessage (id from to : string) (p : Payload) :
  preserves J (createMessage id from to p).
Proof. by intros s. Qed.

Lemma preserves_update (id : string) (f : TransferInfo.t → TransferInfo.t) :
  (∀ c m, J c m → J c (alter f id m)) → preserves J (update id f).
Proof. intros Hf s Hs. by apply Hf. Qed.

Lemma preserves_insert (id : string) (t : TransferInfo.t) :
  (∀ c m, J c m → J c (<[id := t]> m)) →
  preserves J (modify (λ s, set_transfers (<[id := t]> (transfers s)) s)).
Proof. intros Hf s Hs. by apply Hf. Qed.

End Preservation.

Lemma preserves_apply J {A} (m : M A) (s : State) :
  preserves J m → J (config s) (transfers s) →
  J (config (m s).2) (transfers (m s).2).
Proof. intros Hm. apply Hm. Qed.

Ltac preserve_step :=
  match goal with
  | |- preserves _ (bind _ _) => apply preserves_bind; [|intros ?]
  | |- preserves _ (ret _) => apply preserves_ret
  | |- preserves _ (throw _) => apply preserves_throw
  | |- preserves _ (get _) => apply preserves_get
  | |- preserves _ (lift _) => apply preserves_lift
  | |- preserves _ Date_now => apply preserves_Date_now
  | |- preserves _ (emit _) => apply preserves_emit
  | |- preserves _ (send _ _) => apply preserves_send
  | |- preserves _ (createMessage _ _ _ _) => apply preserves_createMessage
  | |- preserves _ (update _ _) => apply preserves_update
  | |- preserves _ (modify (λ s, set_transfers (<[_ := _]> (transfers s)) s)) =>
      apply preserves_insert
  | |- preserves _ (modify _) => apply preserves_modify; intros ?; split; reflexivity
  | |- preserves _ (if ?c then _ else _) => destruct c
  | |- preserves _ (match ?x with _ => _ end) => destruct x
  end.

Ltac preserve := repeat preserve_step.

Section PreservationOfHelpers.
Context `{Platform}.
Variable J : TransferManagerConfig.t → gmap string TransferInfo.t → Prop.

Lemma preserves_getPeerSecret peerId : preserves J (getPeerSecret peerId).
Proof. unfold getPeerSecret. preserve. Qed.

Lemma preserves_isValidSecret secret ttl : preserves J (isValidSecret secret ttl).
Proof. unfold isValidSecret. preserve. Qed.

Lemma preserves_isPeerTrustValid peer : preserves J (isPeerTrustValid peer).
Proof. unfold isPeerTrustValid. preserve. Qed.

Lemma preserves_offer_secretTTL : preserves J offer_secretTTL.
Proof. unfold offer_secretTTL. preserve. Qed.

Lemma preserves_sendNextChunk id i : preserves J (sendNextChunk id i).
Proof. unfold sendNextChunk. preserve. Qed.

End PreservationOfHelpers.

(** Handlers under a property that field updates of a transfer keep. *)

Ltac preserve_keeping K :=
  repeat (preserve_step; try (intros ? ?; apply K; intros ?; split; reflexivity)).

Section PreservationOfHandlers.
Context `{Platform}.
Variable J : TransferManagerConfig.t → gmap string TransferInfo.t → Prop.
Hypothesis J_keeps : ∀ f id c m, keeps f → J c m → J c (alter f id m).

Lemma preserves_acceptTransfer id r : preserves J (acceptTransfer id r).
Proof. unfold acceptTransfer. preserve_keeping J_keeps. Qed.

Lemma preserves_rejectTransfer id r : preserves J (rejectTransfer id r).
Proof. unfold rejectTransfer. preserve_keeping J_keeps. Qed.

Lemma preserves_handleAccept msg p : preserves J (handleAccept msg p).
Proof. unfold handleAccept. preserve_keeping J_keeps. apply preserves_sendNextChunk. Qed.

Lemma preserves_handleReject msg p : preserves J (handleReject msg p).
Proof. unfold handleReject. preserve_keeping J_keeps. Qed.

Lemma preserves_handleError msg p : preserves J (handleError msg p).
Proof. unfold handleError. preserve_keeping J_keeps. Qed.

Lemma preserves_handleComplete msg p : preserves J (handleComplete msg p).
Proof. unfold handleComplete. preserve_keeping J_keeps. Qed.

Lemma preserves_resumeTransfer id : preserves J (resumeTransfer id).
Proof.
  unfold resumeTransfer. preserve_keeping J_keeps;
    try apply preserves_acceptTransfer;
    try apply preserves_getPeerSecret; try apply preserves_offer_secretTTL.
Qed.

Lemma preserves_handleOffer msg p :
  (∀ t c m, TransferInfo.totalChunks t = OfferPayload.totalChunks p →
            TransferInfo.receivedChunks t = ∅ →
            J c m → J c (<[OCFTMessage.transferId msg := t]> m)) →
  preserves J (handleOffer msg p).
Proof.
  intros Hfresh. unfold handleOffer. preserve_keeping J_keeps;
    try apply preserves_acceptTransfer;
    try apply preserves_isValidSecret; try apply preserves_isPeerTrustValid.
  intros c m. by apply Hfresh.
Qed.

Lemma preserves_handleChunk msg p :
  (∀ c m, J c m →
          J c (alter (record_index (ChunkPayload.index p)) (OCFTMessage.transferId msg) m)) →
  preserves J (handleChunk msg p).
Proof. intros Hadd. unfold handleChunk. preserve_keeping J_keeps. apply Hadd. Qed.

Lemma preserves_handleAck msg p :
  (∀ c m, J c m →
          J c (alter (record_index (AckPayload.index p)) (OCFTMessage.transferId msg) m)) →
  preserves J (handleAck msg p).
Proof.
  intros Hadd. unfold handleAck. preserve_keeping J_keeps;
    try apply preserves_sendNextChunk.
  apply Hadd.
Qed.

Lemma preserves_sendFile peerId path nano :
  (∀ id t c m, J c m → J c (<[id := t]> m)) →
  preserves J (sendFile peerId path nano).
Proof.
  intros Hins. unfold sendFile. preserve_keeping J_keeps;
    try apply preserves_getPeerSecret; try apply preserves_offer_secretTTL.
  apply Hins.
Qed.

End PreservationOfHandlers.

Section Configuration.
Context `{Platform}.
Variable J : TransferManagerConfig.t → gmap string TransferInfo.t → Prop.
Hypothesis J_config : about_config J.

Lemma preserves_handleMessage fromId text : preserves J (handleMessage fromId text).
Proof.
  assert (∀ f id c m, keeps f → J c m → J c (alter f id m)) as Hk
    by (intros; by eapply J_config).
  unfold handleMessage, dispatch. preserve.
  - by apply preserves_handleOffer; [|intros; eapply J_config].
  - by apply preserves_handleAccept.
  - by apply preserves_handleReject.
  - by apply preserves_handleChunk; [|intros; eapply J_config].
  - by apply preserves_handleAck; [|intros; eapply J_config].
  - by apply preserves_handleComplete.
  - by apply preserves_handleError.
Qed.

Lemma preserves_perform call s :
  J (config s) (transfers s) → J (config (perform call s)) (transfers (perform call s)).
Proof.
  assert (∀ f id c m, keeps f → J c m → J c (alter f id m)) as Hk
    by (intros; by eapply J_config).
  destruct call; simpl.
  - apply preserves_handleMessage.
  - apply (preserves_sendFile J). intros; by eapply J_config.
  - by apply (preserves_acceptTransfer J Hk).
  - by apply (preserves_rejectTransfer J Hk).
  - by apply (preserves_resumeTransfer J Hk).
Qed.

End Configuration.

(** No call changes the configuration. *)
Lemma perform_config `{Platform} (call : Call) (s : State) :
  config (perform call s) = config s.
Proof.
  apply (preserves_perform (λ c _, c = config s)); [by intros c m m'|done].
Qed.

(** ** Indices in range *)

Lemma well_bounded_alter_keeps f id c m :
  keeps f → well_bounded c m → well_bounded c (alter f id m).
Proof.
  intros Hf [Hc Hm]. split; [done|]. intros id' t' Ht'.
  apply lookup_alter_Some in Ht' as [(-> & t & Ht & ->)|[_ Ht']]; [|by eapply Hm].
  destruct (Hf t) as [Htot Hrc]. destruct (Hm _ _ Ht) as [H0 Hin].
  split; [by rewrite Htot|]. intros i. rewrite Htot, Hrc. apply Hin.
Qed.

Lemma well_bounded_with_alter_keeps id' i f id c m :
  keeps f → well_bounded_with id' i c m → well_bounded_with id' i c (alter f id m).
Proof.
  intros Hf [Hwb Hi]. split; [by apply well_bounded_alter_keeps|].
  intros t' Ht'.
  apply lookup_alter_Some in Ht' as [(-> & t & Ht & ->)|[_ Ht']]; [|by apply Hi].
  destruct (Hf t) as [-> _]. by apply Hi.
Qed.

Lemma well_bounded_with_alter_record id i c m :
  well_bounded_with id i c m →
  well_bounded_with id i c (alter (record_index i) id m).
Proof.
  intros [[Hc Hm] Hi]. split; [split; [done|]|].
  - intros id' t' Ht'.
    apply lookup_alter_Some in Ht' as [(-> & t & Ht & ->)|[_ Ht']]; [|by eapply Hm].
    destruct (Hm _ _ Ht) as [H0 Hin]. split; [done|]. simpl.
    intros j [->%elem_of_singleton|Hj]%elem_of_union; [by apply Hi|by apply Hin].
  - intros t' Ht'.
    apply lookup_alter_Some in Ht' as [(_ & t & Ht & ->)|[_ Ht']]; [|by apply Hi].
    simpl. by apply Hi.
Qed.

Lemma well_bounded_insert_fresh id t c m :
  0 ≤ TransferInfo.totalChunks t → TransferInfo.receivedChunks t = ∅ →
  well_bounded c m → well_bounded c (<[id := t]> m).
Proof.
  intros H0 Hrc [Hc Hm]. split; [done|]. intros id' t' Ht'.
  apply lookup_insert_Some in Ht' as [[-> <-]|[_ Ht']]; [|by eapply Hm].
  split; [done|]. intros i. rewrite Hrc. set_solver.
Qed.

Section EngineInvariant.
Context `{Platform}.

Lemma handleAck_well_bounded msg p s :
  (∀ t, transfers s !! OCFTMessage.transferId msg = Some t →
        finishing t = true ∨ AckPayload.received p = false
        ∨ 0 ≤ AckPayload.index p < TransferInfo.totalChunks t) →
  well_bounded (config s) (transfers s) →
  well_bounded (config (handleAck msg p s).2) (transfers (handleAck msg p s).2).
Proof.
  intros Hin Hwb. unfold handleAck. apply preserves_bind_get.
  destruct (transfers s !! OCFTMessage.transferId msg) as [t|] eqn:Ht; [|done].
  simpl. destruct (direction_eqb _ _); [|done].
  fold (finishing t). specialize (Hin t eq_refl).
  destruct (finishing t) eqn:Hfin.
  { apply (preserves_apply well_bounded); [|done].
    preserve_keeping well_bounded_alter_keeps. }
  destruct (AckPayload.received p) eqn:Hrcv; simpl.
  2:{ by apply preserves_sendNextChunk. }
  destruct Hin as [?|[?|Hin]]; [done|done|].
  assert (well_bounded_with (OCFTMessage.transferId msg) (AckPayload.index p)
            (config s) (transfers s)) as Hw.
  { split; [done|]. intros t' Ht'. rewrite Ht in Ht'. by injection Ht' as <-. }
  apply (preserves_apply
           (well_bounded_with (OCFTMessage.transferId msg) (AckPayload.index p)));
    [|done].
  preserve_keeping (well_bounded_with_alter_keeps (OCFTMessage.transferId msg)
                      (AckPayload.index p)).
  - intros c m. apply well_bounded_with_alter_record.
  - apply preserves_sendNextChunk.
Qed.

Lemma sendFile_well_bounded peerId path nano s :
  well_bounded (config s) (transfers s) →
  well_bounded (config (sendFile peerId path nano s).2)
    (transfers (sendFile peerId path nano s).2).
Proof.
  intros Hwb. unfold sendFile.
  apply preserves_bind_get. cbv beta. apply preserves_bind_get. cbv beta.
  apply preserves_bind_lift; [done|]. intros info Hinfo.
  apply getFileInfo_found in Hinfo as (data & _ & _ & _ & Htot).
  assert (0 ≤ FileInfo.totalChunks info) as Hn.
  { rewrite Htot. apply Math_ceil_div_spec; [lia|apply Hwb]. }
  cbv beta iota zeta.
  apply (preserves_apply well_bounded); [|done].
  preserve_keeping well_bounded_alter_keeps;
    try apply preserves_getPeerSecret; try apply preserves_offer_secretTTL.
  intros c m. by apply well_bounded_insert_fresh.
Qed.

Lemma handleMessage_well_bounded fromId text s :
  (∀ msg, decodeFromChat text = Some msg → indices_in_range s msg) →
  well_bounded (config s) (transfers s) →
  well_bounded (config (handleMessage fromId text s).2)
    (transfers (handleMessage fromId text s).2).
Proof.
  intros Hin Hwb. unfold handleMessage.
  destruct (negb (startsWith text OCFT_PREFIX)); [done|].
  destruct (decodeFromChat text) as [msg|]; [|done].
  specialize (Hin msg eq_refl). apply preserves_bind_get.
  destruct (negb _); [done|].
  assert (well_bounded (config (dispatch msg s).2) (transfers (dispatch msg s).2)) as Hd.
  { unfold dispatch. unfold indices_in_range in Hin.
    destruct (OCFTMessage.payload msg) as [p|p|p|p|p|p|p].
    - apply (preserves_handleOffer _ well_bounded_alter_keeps); [|done].
      intros t c m Ht Hrc. apply well_bounded_insert_fresh; [by rewrite Ht|done].
    - by apply (preserves_handleAccept _ well_bounded_alter_keeps).
    - by apply (preserves_handleReject _ well_bounded_alter_keeps).
    - apply (preserves_handleChunk
               (well_bounded_with (OCFTMessage.transferId msg) (ChunkPayload.index p))
               (well_bounded_with_alter_keeps _ _) msg p
               (λ c m, well_bounded_with_alter_record _ _ c m)).
      by split.
    - by apply handleAck_well_bounded.
    - by apply (preserves_handleComplete _ well_bounded_alter_keeps).
    - by apply (preserves_handleError _ well_bounded_alter_keeps). }
  unfold bind. by destruct (dispatch msg s) as [[[]|e] s'].
Qed.

Lemma perform_well_bounded c s :
  call_in_range s c →
  well_bounded (config s) (transfers s) →
  well_bounded (config (perform c s)) (transfers (perform c s)).
Proof.
  destruct c; simpl; intros Hc Hwb.
  - by apply handleMessage_well_bounded.
  - by apply sendFile_well_bounded.
  - by apply (preserves_acceptTransfer _ well_bounded_alter_keeps).
  - by apply (preserves_rejectTransfer _ well_bounded_alter_keeps).
  - by apply (preserves_resumeTransfer _ well_bounded_alter_keeps).
Qed.

Lemma perform_all_well_bounded cs s :
  calls_in_range s cs →
  well_bounded (config s) (transfers s) →
  well_bounded (config (perform_all cs s)) (transfers (perform_all cs s)).
Proof.
  revert s. induction cs as [|c cs IH]; intros s; simpl; [done|].
  intros [Hc Hcs] Hwb. apply IH; [done|]. by apply perform_well_bounded.
Qed.

Lemma in_range_size t :
  in_range t →
  Z.of_nat (size (TransferInfo.receivedChunks t)) ≤ TransferInfo.totalChunks t.
Proof.
  intros [Hn Hin].
  assert (TransferInfo.receivedChunks t ⊆ list_to_set (seqZ 0 (TransferInfo.totalChunks t)))
    as Hsub.
  { intros i Hi. apply elem_of_list_to_set, elem_of_seqZ. specialize (Hin i Hi). lia. }
  apply subseteq_size in Hsub.
  rewrite size_list_to_set, length_seqZ in Hsub by apply NoDup_seqZ. lia.
Qed.

(** C3, as the code has it. The engine does not compare an index with the
    chunk count. When the engine is configured with a positive chunk size
    and every message it handles is in range for the state it meets (no
    offer declares a negative chunk count; every chunk for a tracked
    transfer, and every acknowledgement the sender records, names an index
    of [0, totalChunks)), then after any sequence of handled messages and
    local calls every recorded index of every tracked transfer lies in
    [0, totalChunks), and so [receivedChunks.size] is at most
    [totalChunks]. *)
Theorem receivedChunks_bounded (c0 : TransferManagerConfig.t) (fs : Files)
    (clk : nat → Z) (calls : list Call) :
  0 < default DEFAULT_CHUNK_SIZE (TransferManagerConfig.chunkSize c0) →
  calls_in_range (TransferManager_new c0 fs clk) calls →
  ∀ id t,
    transfers (perform_all calls (TransferManager_new c0 fs clk)) !! id = Some t →
    (∀ i, i ∈ TransferInfo.receivedChunks t → 0 ≤ i < TransferInfo.totalChunks t)
    ∧ Z.of_nat (size (TransferInfo.receivedChunks t)) ≤ TransferInfo.totalChunks t.
Proof.
  intros Hcs Hcalls id t Ht.
  destruct (perform_all_well_bounded calls (TransferManager_new c0 fs clk) Hcalls)
    as [_ Hall].
  { split; [simpl; by rewrite with_defaults_chunkSize|].
    intros id' t'. simpl. by rewrite lookup_empty. }
  specialize (Hall id t Ht). split; [apply Hall|by apply in_range_size].
Qed.

End EngineInvariant.

Section AcceptAndAck.
Context `{Platform}.

Lemma sendNextChunk_transfers id i s :
  transfers (sendNextChunk id i s).2 = transfers s.
Proof.
  by apply (preserves_sendNextChunk (λ _ m, m = transfers s) id i s).
Qed.

(** C10. An accept for a tracked transfer of direction [send] sets its
    state to [transferring], whatever the state was ([rejected], [failed],
    [completing] and [completed] included) and leaves the rest of the
    transfer but [updatedAt] as it was; if the transfer's file is still
    readable, the handler returns and sends exactly one message: the chunk
    at the accept's resume index (0 without one). *)
Theorem handleAccept_restarts (st : State) (msg : OCFTMessage.t)
    (p : AcceptPayload.t) (t : TransferInfo.t) :
  let id := OCFTMessage.transferId msg in
  let run := handleAccept msg p st in
  transfers st !! id = Some t →
  TransferInfo.direction t = Direction.send →
  transfers run.2 !! id
  = Some (TransferInfo.set_updatedAt (clock st (ticks st))
            (TransferInfo.set_state TransferState.transferring t))
  ∧ ∀ path data,
      filePaths st !! id = Some path →
      readFile (files st) path = Ok data →
      run.1 = Ok tt
      ∧ sent run.2
        = sent st ++ [(TransferInfo.peerId t,
                       OCFTMessage.mk OCFT_VERSION id
                         (TransferManagerConfig.botId (config st))
                         (TransferInfo.peerId t) (clock st (S (ticks st)))
                         (chunk_payload data (TransferInfo.chunkSize t)
                            (default 0 (AcceptPayload.resumeFrom p))))].
Proof.
  intros id run Ht Hd. split.
  - subst run. unfold handleAccept. fold id. run_m. rewrite Ht.
    unfold tracked. rewrite Hd. simpl.
    rewrite sendNextChunk_transfers. simpl.
    rewrite (alter_Some _ _ _ _ Ht), alter_insert_eq. apply lookup_insert_eq.
  - intros path data Hp Hf. subst run.
    by rewrite (handleAccept_run st msg p t path data).
Qed.

(** C6, as the code has it. For a transfer of direction [send] in state
    [completing] or [completed], an acknowledgement sends nothing and
    leaves the recorded indices alone; one with index -1 sets the state to
    [completed] and records [completedAt]; any other leaves everything as
    it was. (In [rejected], [failed] and [cancelled] an acknowledgement is
    handled as in [transferring].) *)
Theorem handleAck_after_last_chunk (st : State) (msg : OCFTMessage.t)
    (p : AckPayload.t) (t : TransferInfo.t) :
  let id := OCFTMessage.transferId msg in
  let run := handleAck msg p st in
  transfers st !! id = Some t →
  TransferInfo.direction t = Direction.send →
  TransferInfo.state t = TransferState.completing
  ∨ TransferInfo.state t = TransferState.completed →
  run.1 = Ok tt
  ∧ sent run.2 = sent st
  ∧ (AckPayload.index p ≠ -1 → run.2 = st)
  ∧ (AckPayload.index p = -1 →
     transfers run.2
     = <[id := TransferInfo.set_completedAt (Some (clock st (ticks st)))
                 (TransferInfo.set_state TransferState.completed t)]> (transfers st))
  ∧ ∀ t', transfers run.2 !! id = Some t' →
          TransferInfo.receivedChunks t' = TransferInfo.receivedChunks t.
Proof.
  intros id run Ht Hd Hs. subst run.
  rewrite (handleAck_finishing st msg p t Ht Hd)
    by (unfold finishing; destruct Hs as [-> | ->]; reflexivity).
  fold id. destruct (Z.eqb_spec (AckPayload.index p) (-1)) as [Hi|Hi]; simpl.
  - split; [done|]. split; [done|]. split; [done|]. split; [done|].
    intros t'. rewrite lookup_insert_eq. by intros [= <-].
  - split; [done|]. split; [done|]. split; [done|]. split; [done|].
    intros t'. rewrite Ht. by intros [= <-].
Qed.

End AcceptAndAck.

Section HandleMessage.
Context `{Platform}.

(** C7, as the code has it. A text without the protocol prefix, and a text
    with it that decodes to a message for another node, are both answered
    with [false]; neither changes anything. *)
Theorem handleMessage_not_for_this_node (st : State) (fromId text : string) :
  (startsWith text OCFT_PREFIX = false →
   handleMessage fromId text st = (Ok false, st))
  ∧ (∀ msg,
       startsWith text OCFT_PREFIX = true →
       decodeFromChat text = Some msg →
       OCFTMessage.to msg ≠ TransferManagerConfig.botId (config st) →
       handleMessage fromId text st = (Ok false, st)).
Proof.
  split.
  - intros Hp. unfold handleMessage. by rewrite Hp.
  - intros msg Hp Hd Hto. unfold handleMessage. rewrite Hp, Hd. simpl.
    run_m. by destruct (String.eqb_spec (OCFTMessage.to msg)
                          (TransferManagerConfig.botId (config st))).
Qed.

End HandleMessage.

Section AutoAccept.

Lemma isValidSecret_accepts st s ttl :
  s ≠ "" →
  s = TransferManagerConfig.secret (config st) →
  ttl = None ∨ ttl = Some 0 ∨ (∃ x, ttl = Some x ∧ clock st (ticks st) ≤ x) →
  ∃ n, isValidSecret (Some s) ttl st = (Ok true, set_ticks n st).
Proof.
  intros Hne Hs Httl. unfold isValidSecret. run_m.
  unfold truthy_string. destruct (String.eqb_spec s ""); [done|]. simpl.
  destruct (String.eqb_spec s (TransferManagerConfig.secret (config st))); [|done].
  simpl. destruct Httl as [->|[->|(x & -> & Hx)]].
  - exists (ticks st). by destruct st.
  - exists (ticks st). by destruct st.
  - unfold truthy_number. destruct (x =? 0); simpl.
    + exists (ticks st). by destruct st.
    + exists (S (ticks st)). destruct (Z.gtb_spec (clock st (ticks st)) x); [lia|done].
Qed.

Lemma isValidSecret_refuses st secret ttl :
  secret = None ∨ secret = Some ""
  ∨ (∃ s, secret = Some s ∧ s ≠ TransferManagerConfig.secret (config st))
  ∨ (∃ x, ttl = Some x ∧ x ≠ 0 ∧ x < clock st (ticks st)) →
  ∃ n, isValidSecret secret ttl st = (Ok false, set_ticks n st).
Proof.
  intros Hc. unfold isValidSecret. run_m.
  destruct secret as [s|]; [|exists (ticks st); by destruct st].
  unfold truthy_string. destruct (String.eqb_spec s ""); simpl;
    [exists (ticks st); by destruct st|].
  destruct (String.eqb_spec s (TransferManagerConfig.secret (config st))); simpl;
    [|exists (ticks st); by destruct st].
  destruct Hc as [?|[[= ?]|[(s' & [= <-] & ?)|(x & -> & Hx0 & Hx)]]]; try done.
  unfold truthy_number. destruct (Z.eqb_spec x 0); [done|]. simpl.
  exists (S (ticks st)). destruct (Z.gtb_spec (clock st (ticks st)) x); [done|lia].
Qed.

Lemma acceptTransfer_run st id r t :
  let out := (TransferManagerConfig.downloadDir (config st) ++ "/"
              ++ TransferInfo.filename t)%string in
  transfers st !! id = Some t →
  TransferInfo.direction t = Direction.receive →
  TransferInfo.state t = TransferState.pending →
  acceptTransfer id r st
  = (Ok tt,
     mkState (config st)
       (<[id := TransferInfo.set_localPath (Some out)
                  (TransferInfo.set_resumable true
                     (TransferInfo.set_updatedAt (clock st (ticks st))
                        (TransferInfo.set_state TransferState.accepted t)))]>
          (transfers st))
       (<[id := ChunkAssembler.new out (TransferInfo.hash t)
                  (TransferInfo.totalChunks t)]> (assemblers st))
       (filePaths st) (files st)
       (sent st ++ [(TransferInfo.peerId t,
                     OCFTMessage.mk OCFT_VERSION id
                       (TransferManagerConfig.botId (config st))
                       (TransferInfo.peerId t) (clock st (S (ticks st)))
                       (PAccept (AcceptPayload.mk true r)))])
       (emitted st ++ [transfer_accepted id])
       (clock st) (S (S (ticks st)))).
Proof.
  intros out Ht Hd Hs. unfold acceptTransfer. run_m. rewrite Ht.
  unfold processable. rewrite Hd, Hs. simpl. run_m.
  by rewrite (alter_Some _ _ _ _ Ht), !alter_insert_eq.
Qed.

Lemma handleOffer_accepts st msg p s :
  exceeds_limit (OfferPayload.size p)
    (TransferManagerConfig.maxFileSize (config st)) = false →
  OfferPayload.secret p = Some s →
  s ≠ "" →
  s = TransferManagerConfig.secret (config st) →
  OfferPayload.secretTTL p = None ∨ OfferPayload.secretTTL p = Some 0
  ∨ (∃ ttl, OfferPayload.secretTTL p = Some ttl ∧ clock st (S (S (ticks st))) ≤ ttl) →
  ∃ n, handleOffer msg p st
       = acceptTransfer (OCFTMessage.transferId msg) (OfferPayload.resumeFrom p)
           (set_ticks n (offered msg p st)).
Proof.
  intros Hlimit Hsec Hne Heq Httl.
  destruct (isValidSecret_accepts (offered msg p st) s (OfferPayload.secretTTL p)
              Hne Heq Httl) as [n Hvalid].
  exists n. unfold handleOffer. run_m. rewrite Hlimit, Hsec.
  match goal with
  | |- context [isValidSecret _ _ ?s0] => change s0 with (offered msg p st)
  end.
  by rewrite Hvalid.
Qed.

Lemma handleOffer_stays_pending st msg p :
  exceeds_limit (OfferPayload.size p)
    (TransferManagerConfig.maxFileSize (config st)) = false →
  default false (TransferManagerConfig.autoAccept (config st)) = false →
  OfferPayload.secret p = None ∨ OfferPayload.secret p = Some ""
  ∨ (∃ s, OfferPayload.secret p = Some s ∧ s ≠ TransferManagerConfig.secret (config st))
  ∨ (∃ ttl, OfferPayload.secretTTL p = Some ttl ∧ ttl ≠ 0
            ∧ ttl < clock st (S (S (ticks st)))) →
  ∃ n, handleOffer msg p st = (Ok tt, set_ticks n (offered msg p st)).
Proof.
  intros Hlimit Hauto Hcase.
  destruct (isValidSecret_refuses (offered msg p st) (OfferPayload.secret p)
              (OfferPayload.secretTTL p) Hcase) as [n Hvalid].
  exists n. unfold handleOffer. run_m. rewrite Hlimit.
  match goal with
  | |- context [isValidSecret _ _ ?s0] => change s0 with (offered msg p st)
  end.
  by rewrite Hvalid, Hauto.
Qed.

(** C5, as the code has it. An offer within the size limit is tracked as
    [pending]. If its secret is not empty and equals the node's secret,
    and its [secretTTL] is absent, zero, or not earlier than the time read
    for the check (the third clock reading of the handler), the transfer
    is accepted at once: state [accepted], an assembler, and the accept
    with the offer's resume point as the one message sent. If the secret
    is absent, empty or different, or the [secretTTL] is not zero and
    earlier than that time, and legacy auto-accept is off, the transfer
    stays [pending] and nothing is sent. *)
Theorem offer_auto_accept (st : State) (msg : OCFTMessage.t) (p : OfferPayload.t) :
  let id := OCFTMessage.transferId msg in
  let c := config st in
  let now := clock st (S (S (ticks st))) in
  let run := handleOffer msg p st in
  exceeds_limit (OfferPayload.size p) (TransferManagerConfig.maxFileSize c) = false →
  (∀ s, OfferPayload.secret p = Some s →
        s ≠ "" →
        s = TransferManagerConfig.secret c →
        OfferPayload.secretTTL p = None ∨ OfferPayload.secretTTL p = Some 0
        ∨ (∃ ttl, OfferPayload.secretTTL p = Some ttl ∧ now ≤ ttl) →
        run.1 = Ok tt
        ∧ TransferInfo.state <$> transfers run.2 !! id = Some TransferState.accepted
        ∧ is_Some (assemblers run.2 !! id)
        ∧ sent_payloads run.2
          = sent_payloads st
            ++ [PAccept (AcceptPayload.mk true (OfferPayload.resumeFrom p))])
  ∧ (default false (TransferManagerConfig.autoAccept c) = false →
     OfferPayload.secret p = None ∨ OfferPayload.secret p = Some ""
     ∨ (∃ s, OfferPayload.secret p = Some s ∧ s ≠ TransferManagerConfig.secret c)
     ∨ (∃ ttl, OfferPayload.secretTTL p = Some ttl ∧ ttl ≠ 0 ∧ ttl < now) →
     run.1 = Ok tt
     ∧ TransferInfo.state <$> transfers run.2 !! id = Some TransferState.pending
     ∧ sent run.2 = sent st).
Proof.
  intros id c now run Hlimit. split.
  - intros s Hsec Hne Heq Httl.
    destruct (handleOffer_accepts st msg p s Hlimit Hsec Hne Heq Httl) as [n Hrun].
    subst run. rewrite Hrun.
    rewrite (acceptTransfer_run (set_ticks n (offered msg p st)) id _
               (TransferInfo.mk id Direction.receive TransferState.pending
                  (OCFTMessage.from msg) (OfferPayload.filename p) (OfferPayload.size p)
                  (OfferPayload.mimeType p) (OfferPayload.hash p)
                  (OfferPayload.chunkSize p) (OfferPayload.totalChunks p) ∅
                  (clock st (ticks st)) (clock st (S (ticks st))) None None None false));
      try done; [|by apply lookup_insert_eq].
    simpl. rewrite !lookup_insert_eq. split; [done|]. split; [done|].
    split; [by eexists|]. unfold sent_payloads. simpl. by rewrite fmap_app.
  - intros Hauto Hcase.
    destruct (handleOffer_stays_pending st msg p Hlimit Hauto Hcase) as [n Hrun].
    subst run. rewrite Hrun. simpl. by rewrite lookup_insert_eq.
Qed.

End AutoAccept.

(** * The engine on the sample nodes *)

Section SenderExamples.
Local Existing Instance node.

Example alice_offering_tracks :
  transfers alice_offering !! transfer_id = Some alice_transfer
  ∧ filePaths alice_offering !! transfer_id = Some "/data/notes.txt".
Proof. vm_compute. split; reflexivity. Qed.


Example alice_sends_in_order :
  sent_payloads alice_completing
  = [ POffer (OfferPayload.mk "notes.txt" 12 "text/plain"
                "7509e5bda0c762d2bac7f90d758b5b2263fa01ccbc542ab5e3df163be08e6ca9"
                5 3 None None None);
      PChunk (ChunkPayload.mk 0 "aGVsbG8="
                "2cf24dba5fb0a30e26e83b2ac5b9e29e1b161e5c1fa7425e73043362938b9824");
      PChunk (ChunkPayload.mk 1 "IHdvcmw="
                "43cf897720cc5a693b2508c9e95e8711942a96ed98d772fe37123d31603ce20f");
      PChunk (ChunkPayload.mk 2 "ZCE="
                "2615739d41db311a978c3232f5189cb5172f13ddc862712d4d750ff463b9cb8a");
      PComplete (CompletePayload.mk 3
                "7509e5bda0c762d2bac7f90d758b5b2263fa01ccbc542ab5e3df163be08e6ca9") ].
Proof. vm_compute. reflexivity. Qed.

Lemma handleAccept_restarts_witness :
  let run := handleAccept accept_message accept_payload alice_rejected in
  TransferInfo.state (transfer_of transfer_id alice_rejected) = TransferState.rejected
  ∧ transfers run.2 !! transfer_id
    = Some (TransferInfo.set_updatedAt (clock alice_rejected (ticks alice_rejected))
              (TransferInfo.set_state TransferState.transferring
                 (transfer_of transfer_id alice_rejected)))
  ∧ run.1 = Ok tt
  ∧ sent run.2
    = sent alice_rejected
      ++ [("bob",
           OCFTMessage.mk OCFT_VERSION transfer_id "alice" "bob"
             (clock alice_rejected (S (ticks alice_rejected)))
             (chunk_payload (list_byte_of_string "hello world!") 5 0))].
Proof.
  assert (transfers alice_rejected !! transfer_id = Some (transfer_of transfer_id alice_rejected))
    as Ht by (vm_compute; reflexivity).
  destruct (handleAccept_restarts alice_rejected accept_message accept_payload
              (transfer_of transfer_id alice_rejected) Ht eq_refl) as [Hstate Hsent].
  destruct (Hsent "/data/notes.txt" (list_byte_of_string "hello world!"))
    as [Hok Hmsg]; [vm_compute; reflexivity|vm_compute; reflexivity|].
  split; [vm_compute; reflexivity|]. split; [exact Hstate|]. split; [exact Hok|].
  exact Hmsg.
Defined.

Example rejected_transfer_restarts :
  TransferInfo.state (transfer_of transfer_id alice_rejected) = TransferState.rejected
  ∧ TransferInfo.state
      (transfer_of transfer_id (handleAccept accept_message accept_payload alice_rejected).2)
    = TransferState.transferring.
Proof. vm_compute. split; reflexivity. Qed.

Lemma handleAck_after_last_chunk_witness :
  let run := handleAck final_ack_message final_ack_payload alice_completing in
  TransferInfo.state (transfer_of transfer_id alice_completing) = TransferState.completing
  ∧ run.1 = Ok tt
  ∧ sent run.2 = sent alice_completing
  ∧ transfers run.2
    = <[transfer_id :=
          TransferInfo.set_completedAt
            (Some (clock alice_completing (ticks alice_completing)))
            (TransferInfo.set_state TransferState.completed
               (transfer_of transfer_id alice_completing))]> (transfers alice_completing).
Proof.
  assert (transfers alice_completing !! transfer_id = Some (transfer_of transfer_id alice_completing))
    as Ht by (vm_compute; reflexivity).
  assert (TransferInfo.state (transfer_of transfer_id alice_completing) = TransferState.completing)
    as Hs by (vm_compute; reflexivity).
  destruct (handleAck_after_last_chunk alice_completing final_ack_message
              final_ack_payload (transfer_of transfer_id alice_completing) Ht eq_refl (or_introl Hs))
    as (Hok & Hsent & _ & Hfinal & _).
  split; [exact Hs|]. split; [exact Hok|]. split; [exact Hsent|].
  exact (Hfinal eq_refl).
Defined.

(** C6, as stated, fails. The transfer is [failed], a terminal state; the
    acknowledgement of chunk 0 is nevertheless recorded and answered with
    chunk 1. *)
Lemma ack_in_failed_state_is_processed :
  let run := handleAck (ack_message 0) (ack_payload 0) alice_failed in
  TransferInfo.direction (transfer_of transfer_id alice_failed) = Direction.send
  ∧ TransferInfo.state (transfer_of transfer_id alice_failed) = TransferState.failed
  ∧ elements (TransferInfo.receivedChunks (transfer_of transfer_id alice_failed)) = []
  ∧ elements (TransferInfo.receivedChunks (transfer_of transfer_id run.2)) = [0]
  ∧ sent_payloads run.2
    = sent_payloads alice_failed
      ++ [PChunk (ChunkPayload.mk 1 "IHdvcmw="
                    "43cf897720cc5a693b2508c9e95e8711942a96ed98d772fe37123d31603ce20f")].
Proof. vm_compute. repeat split; reflexivity. Qed.


End SenderExamples.

Section ReceiverExamples.
Local Existing Instance node.

Example bob_decodes_the_offer :
  decodeFromChat (chat_text offer_json) = Some offer_message.
Proof. vm_compute. reflexivity. Qed.

(** C7, as stated, fails. The text carries the prefix and decodes to a
    message for "carol"; [handleMessage] on node "bob" returns [false],
    not [true]. *)
Lemma handleMessage_other_recipient_returns_false :
  startsWith (chat_text stray_json) OCFT_PREFIX = true
  ∧ decodeFromChat (chat_text stray_json) = Some stray_message
  ∧ OCFTMessage.to stray_message ≠ TransferManagerConfig.botId (config bob)
  ∧ (handleMessage "alice" (chat_text stray_json) bob).1 = Ok false
  ∧ (handleMessage "alice" (chat_text stray_json) bob).1 ≠ Ok true.
Proof.
  assert ((handleMessage "alice" (chat_text stray_json) bob).1 = Ok false) as E
    by (vm_compute; reflexivity).
  split; [vm_compute; reflexivity|]. split; [vm_compute; reflexivity|].
  split; [vm_compute; discriminate|]. split; [exact E|].
  rewrite E. discriminate.
Qed.

Lemma handleMessage_not_for_this_node_witness :
  handleMessage "alice" "see you at noon" bob = (Ok false, bob)
  ∧ handleMessage "alice" (chat_text stray_json) bob = (Ok false, bob).
Proof.
  destruct (handleMessage_not_for_this_node bob "alice" "see you at noon") as [Hplain _].
  destruct (handleMessage_not_for_this_node bob "alice" (chat_text stray_json))
    as [_ Hstray].
  split.
  - apply Hplain. vm_compute. reflexivity.
  - apply (Hstray stray_message).
    + vm_compute. reflexivity.
    + vm_compute. reflexivity.
    + vm_compute. discriminate.
Defined.

Lemma offer_auto_accept_witness :
  (let run := handleOffer offer_message offer_payload bob in
   run.1 = Ok tt
   ∧ TransferInfo.state <$> transfers run.2 !! "xfer_demo" = Some TransferState.accepted
   ∧ is_Some (assemblers run.2 !! "xfer_demo")
   ∧ sent_payloads run.2 = sent_payloads bob ++ [PAccept (AcceptPayload.mk true None)])
  ∧ (let run := handleOffer guessing_message guessing_payload bob in
     run.1 = Ok tt
     ∧ TransferInfo.state <$> transfers run.2 !! "xfer_demo" = Some TransferState.pending
     ∧ sent run.2 = sent bob).
Proof.
  split.
  - apply (proj1 (offer_auto_accept bob offer_message offer_payload eq_refl) "s3cret").
    + reflexivity.
    + discriminate.
    + reflexivity.
    + left. reflexivity.
  - apply (proj2 (offer_auto_accept bob guessing_message guessing_payload eq_refl)).
    + reflexivity.
    + right. right. left. exists "guess". split; [reflexivity|discriminate].
Defined.

(** C5, as stated, fails. The offer's [secretTTL] equals the time the
    receiver reads for the check, so it is not strictly later than the
    current time; legacy auto-accept is off; the secret matches; and the
    transfer is accepted, not left [pending]. *)
Lemma offer_expiring_now_is_accepted :
  let run := handleOffer expiring_message expiring_payload bob in
  OfferPayload.secretTTL expiring_payload = Some (clock bob (S (S (ticks bob))))
  ∧ default false (TransferManagerConfig.autoAccept (config bob)) = false
  ∧ run.1 = Ok tt
  ∧ TransferInfo.state <$> transfers run.2 !! "xfer_demo" = Some TransferState.accepted
  ∧ TransferInfo.state <$> transfers run.2 !! "xfer_demo" ≠ Some TransferState.pending.
Proof.
  assert (TransferInfo.state
            <$> transfers (handleOffer expiring_message expiring_payload bob).2 !! "xfer_demo"
          = Some TransferState.accepted) as E by (vm_compute; reflexivity).
  split; [vm_compute; reflexivity|]. split; [reflexivity|].
  split; [vm_compute; reflexivity|]. split; [exact E|].
  rewrite E. discriminate.
Qed.

Lemma receivedChunks_bounded_witness :
  let s := perform_all offer_and_chunk (TransferManager_new bob_config ∅ sample_clock) in
  let t := transfer_of "xfer_demo" s in
  transfers s !! "xfer_demo" = Some t
  ∧ (∀ i, i ∈ TransferInfo.receivedChunks t → 0 ≤ i < TransferInfo.totalChunks t)
  ∧ Z.of_nat (size (TransferInfo.receivedChunks t)) ≤ TransferInfo.totalChunks t.
Proof.
  intros s t. subst s t.
  assert (decodeFromChat (chat_text offer_json) = Some offer_message) as Eoffer
    by (vm_compute; reflexivity).
  assert (decodeFromChat (chat_text chunk0_json) = Some chunk0_message) as Echunk
    by (vm_compute; reflexivity).
  assert (transfers (perform_all offer_and_chunk
                       (TransferManager_new bob_config ∅ sample_clock)) !! "xfer_demo"
          = Some (transfer_of "xfer_demo"
                    (perform_all offer_and_chunk
                       (TransferManager_new bob_config ∅ sample_clock)))) as Ht
    by (vm_compute; reflexivity).
  split; [exact Ht|].
  refine (receivedChunks_bounded bob_config ∅ sample_clock offer_and_chunk _ _
            "xfer_demo" _ Ht).
  - vm_compute. reflexivity.
  - cbn [offer_and_chunk calls_in_range call_in_range]. split; [|split; [|exact I]].
    + intros msg Hmsg. rewrite Eoffer in Hmsg. injection Hmsg as <-.
      vm_compute. discriminate.
    + intros msg Hmsg. rewrite Echunk in Hmsg. injection Hmsg as <-.
      intros t Ht'.
      assert (TransferInfo.totalChunks
                <$> transfers (perform (call_handleMessage "alice" (chat_text offer_json))
                                 (TransferManager_new bob_config ∅ sample_clock))
                    !! OCFTMessage.transferId chunk0_message
              = Some 1) as Etotal by (vm_compute; reflexivity).
      rewrite Ht' in Etotal. injection Etotal as ->.
      vm_compute. split; [discriminate|reflexivity].
Defined.

(** C3, as stated, fails. The offer announces one chunk and is accepted on
    its secret; chunk 0 arrives, and then a chunk with index 1 whose hash
    matches its (empty) bytes. Both indices are recorded: two received
    chunks for a transfer of one. *)
Lemma out_of_range_chunk_is_recorded :
  let s := perform_all offer_and_two_chunks (TransferManager_new bob_config ∅ sample_clock) in
  (λ t, (bool_decide (0 ∈ TransferInfo.receivedChunks t),
         bool_decide (1 ∈ TransferInfo.receivedChunks t),
         size (TransferInfo.receivedChunks t), TransferInfo.totalChunks t))
    <$> transfers s !! "xfer_demo" = Some (true, true, 2%nat, 1)
  ∧ transfers s !! "xfer_demo" = Some (transfer_of "xfer_demo" s)
  ∧ ¬ Z.of_nat (size (TransferInfo.receivedChunks (transfer_of "xfer_demo" s)))
      ≤ TransferInfo.totalChunks (transfer_of "xfer_demo" s).
Proof.
  split; [vm_compute; reflexivity|]. split; [vm_compute; reflexivity|].
  vm_compute. intros Hle. apply Hle. reflexivity.
Qed.

End ReceiverExamples.

(** * The rest of the chunk codec *)

Lemma append_cons (x : ascii) (a b : string) :
  (String x a ++ b = String x (a ++ b))%string.
Proof. reflexivity. Qed.

Lemma append_assoc (a b c : string) : ((a ++ b) ++ c = a ++ (b ++ c))%string.
Proof. induction a as [|x a IH]; [done|]. by rewrite !append_cons, IH. Qed.

Lemma append_empty_r (a : string) : (a ++ "" = a)%string.
Proof. induction a as [|x a IH]; [done|]. by rewrite append_cons, IH. Qed.

Lemma occurs_append (c : ascii) (a b : string) :
  occurs c (a ++ b)%string = occurs c a || occurs c b.
Proof.
  induction a as [|x a IH]; [done|]. rewrite append_cons. simpl.
  rewrite IH. by rewrite orb_assoc.
Qed.

(** [s.split(sep).pop()] is what follows the last [sep] of the string. *)
Lemma split_pop_from_spec (sep : ascii) (s acc pre : string) :
  occurs sep acc = false →
  pre = "" ∨ (∃ d, pre = d ++ String sep "")%string →
  ∃ dir,
    (pre ++ acc ++ s = dir ++ split_pop_from sep s acc)%string
    ∧ (dir = "" ∨ ∃ d, dir = d ++ String sep "")%string
    ∧ occurs sep (split_pop_from sep s acc) = false.
Proof.
  revert acc pre. induction s as [|c r IH]; intros acc pre Hacc Hpre; simpl.
  - exists pre. by rewrite append_empty_r.
  - destruct (Ascii.eqb_spec c sep) as [->|Hne].
    + destruct (IH "" (pre ++ acc ++ String sep "")%string) as (dir & Heq & Hdir & Hocc).
      { done. }
      { right. exists (pre ++ acc)%string. by rewrite append_assoc. }
      exists dir. split; [|done]. rewrite <-Heq.
      rewrite !append_assoc. done.
    + destruct (IH (acc ++ String c "")%string pre) as (dir & Heq & Hdir & Hocc).
      { rewrite occurs_append, Hacc. simpl.
        destruct (Ascii.eqb_spec sep c); [by subst|done]. }
      { done. }
      exists dir. split; [|done]. rewrite <-Heq. by rewrite !append_assoc.
Qed.

Section Describing.
Context `{Platform}.

(** X1. [readAllChunks] and [readChunk] cut a file the same way. For a
    positive chunk size and a readable file, [readAllChunks] yields as many
    chunks as [getFileInfo] announces; the chunk at position k is the one
    [readChunk] returns for index k; and the chunks' bytes, one after the
    other, are the bytes of the file. *)
Theorem readAllChunks_covers (fs : Files) (path : string) (chunkSize : Z)
    (info : FileInfo.t) :
  0 < chunkSize →
  getFileInfo fs path chunkSize = Ok info →
  ∃ chunks data,
    readAllChunks fs path chunkSize = Ok chunks
    ∧ readFile fs path = Ok data
    ∧ Z.of_nat (length chunks) = FileInfo.totalChunks info
    ∧ (∀ (k : nat) c,
         chunks !! k = Some c
         ↔ Z.of_nat k < FileInfo.totalChunks info
           ∧ readChunk fs path (Z.of_nat k) chunkSize = Ok c)
    ∧ concat (Chunk.data <$> chunks) = data.
Proof.
  intros Hcs Hinfo.
  destruct (getFileInfo_found _ _ _ _ Hinfo) as (data & Hf & _ & _ & Htot).
  destruct (Math_ceil_div_spec (Z.of_nat (length data)) chunkSize) as (Hn & _);
    [lia|lia|].
  unfold readAllChunks. rewrite Hf. eexists. exists data.
  split; [reflexivity|]. split; [done|]. rewrite Htot. split; [|split].
  - rewrite length_fmap, length_seqZ. lia.
  - intros k c. rewrite list_lookup_fmap. unfold readChunk. rewrite Hf.
    destruct (decide (Z.of_nat k < Math_ceil_div (Z.of_nat (length data)) chunkSize)).
    + rewrite lookup_seqZ_lt by lia. simpl. rewrite Z.add_0_l.
      split; [intros [= <-]; done|]. by intros [_ [= <-]].
    + rewrite lookup_seqZ_ge by lia. simpl. split; [done|]. by intros [? _].
  - rewrite <-list_fmap_compose.
    apply (concat_all_chunk_bytes data chunkSize Hcs).
Qed.

Lemma mimeTypes_get_cases (ext : string) :
  match default (mime "application/octet-stream") (mimeTypes_get ext) with
  | mime s => s ≠ "" ∧ ext ≠ "constructor" ∧ ext ≠ "__proto__"
  | Object_function => ext = "constructor"
  | Object_prototype => ext = "__proto__"
  end.
Proof.
  unfold mimeTypes_get, mimeTypes. cbn [assoc].
  repeat match goal with
         | |- context [String.eqb ext ?k] =>
             destruct (String.eqb_spec ext k) as [->|?];
             [vm_compute; repeat split; congruence|]
         end.
  cbn. repeat split; congruence.
Qed.

(** X2. What [getFileInfo] reports, on files where a path holds a file
    or nothing. For a path that holds no file [stat] rejects and
    [getFileInfo] throws the error of [stat],
    'ENOENT: no such file or directory, stat ...', not the error of the
    read. For a path that holds a file, with a positive chunk size, the
    file can be read and the description carries its length, the SHA-256 of its bytes and the
    chunk size asked for; its chunk count is the least number of chunks
    of that size that hold the file, zero exactly for the file of no
    bytes. Its [mimeType] is a string that is not empty, but for the
    extensions [constructor] and [__proto__] (in any case of letters): for
    these the lookup in the table finds a member of [Object.prototype],
    and that object is the [mimeType]. *)
Theorem getFileInfo_describes (fs : Files) (path : string) (chunkSize : Z) :
  0 < chunkSize →
  let ext := toLowerCase (split_pop "." path) in
  match stat fs path with
  | Throw e =>
      getFileInfo fs path chunkSize = Throw e
      ∧ e = ("ENOENT: no such file or directory, stat '" ++ path ++ "'")%string
  | Ok _ =>
      ∃ info data,
        getFileInfo fs path chunkSize = Ok info
        ∧ readFile fs path = Ok data
        ∧ FileInfo.size info = Z.of_nat (length data)
        ∧ FileInfo.hash info = sha256 data
        ∧ FileInfo.chunkSize info = chunkSize
        ∧ 0 ≤ FileInfo.totalChunks info
        ∧ FileInfo.size info ≤ FileInfo.totalChunks info * chunkSize
        ∧ (∀ n, FileInfo.size info ≤ n * chunkSize → FileInfo.totalChunks info ≤ n)
        ∧ (FileInfo.totalChunks info = 0 ↔ data = [])
        ∧ match FileInfo.mimeType info with
          | mime s => s ≠ "" ∧ ext ≠ "constructor" ∧ ext ≠ "__proto__"
          | Object_function => ext = "constructor"
          | Object_prototype => ext = "__proto__"
          end
  end.
Proof.
  intros Hcs ext. destruct (stat fs path) as [sz|e] eqn:Hstat.
  - assert (∃ data, readFile fs path = Ok data) as [data Hread].
    { revert Hstat. unfold stat, readFile.
      destruct (negb (truthy_string path)); [done|].
      destruct (fs !! path); [by eexists|done]. }
    rewrite (getFileInfo_readable fs path chunkSize data Hread).
    eexists. exists data. split; [reflexivity|]. split; [done|]. simpl.
    destruct (Math_ceil_div_spec (Z.of_nat (length data)) chunkSize)
      as (Hn & Hge & Hlt); [lia|lia|].
    split; [done|]. split; [done|]. split; [done|]. split; [done|].
    split; [done|]. split; [intros n Hle; nia|]. split.
    + split.
      * intros H0. rewrite H0 in Hge. destruct data; [done|simpl in Hge; lia].
      * intros ->. simpl in *. nia.
    + apply mimeTypes_get_cases.
  - split.
    + unfold getFileInfo. by rewrite Hstat.
    + revert Hstat. unfold stat, truthy_string.
      destruct (String.eqb_spec path "") as [->|_]; simpl; [by intros [= <-]|].
      destruct (fs !! path); [done|]. by intros [= <-].
Qed.

(** X3. The file name of a description is the part of the path after its
    last slash, and the word "file" when that part is empty (the path ends
    in a slash); so it is never empty and holds no slash. *)
Theorem getFileInfo_filename (fs : Files) (path : string) (chunkSize : Z)
    (info : FileInfo.t) :
  getFileInfo fs path chunkSize = Ok info →
  FileInfo.filename info ≠ ""
  ∧ occurs "/" (FileInfo.filename info) = false
  ∧ ∃ dir last,
      path = (dir ++ last)%string
      ∧ (dir = "" ∨ ∃ d, dir = d ++ "/")%string
      ∧ occurs "/" last = false
      ∧ FileInfo.filename info = (if String.eqb last "" then "file" else last).
Proof.
  unfold getFileInfo. destruct (stat fs path) as [sz|]; [|done].
  destruct (readFile fs path) as [data|]; [|done].
  intros [= <-]. simpl.
  destruct (split_pop_from_spec "/" path "" "") as (dir & Heq & Hdir & Hocc);
    [done|by left|].
  change ("" ++ "" ++ path)%string with path in Heq.
  fold (split_pop "/" path) in *.
  unfold truthy_string.
  destruct (String.eqb_spec (split_pop "/" path) "") as [He|Hne]; simpl.
  - split; [done|]. split; [done|]. exists dir, (split_pop "/" path).
    repeat split; try done. by rewrite He.
  - split; [done|]. split; [done|]. exists dir, (split_pop "/" path).
    repeat split; try done.
    by destruct (String.eqb_spec (split_pop "/" path) "").
Qed.

End Describing.
Section AssembleExactly.
Context `{Platform}.

Lemma size_full_range (m : gmap Z (list byte)) (n : Z) :
  Z.of_nat (size m) = n →
  (∀ i, 0 ≤ i < n → is_Some (m !! i)) →
  ∀ i, is_Some (m !! i) → 0 ≤ i < n.
Proof.
  intros Hsize Hall i Hi.
  assert (0 ≤ n) as Hn by lia.
  assert (list_to_set (seqZ 0 n) ⊆ dom m) as Hsub.
  { intros j Hj%elem_of_list_to_set%elem_of_seqZ. apply elem_of_dom, Hall. lia. }
  assert (size (dom m) ≤ size (list_to_set (seqZ 0 n) : gset Z))%nat as Hle.
  { rewrite size_dom, size_list_to_set, length_seqZ by apply NoDup_seqZ. lia. }
  pose proof (set_subseteq_size_eq _ _ Hsub Hle) as Heq.
  apply elem_of_dom in Hi. rewrite <-Heq in Hi.
  apply elem_of_list_to_set, elem_of_seqZ in Hi. lia.
Qed.

Lemma assemble_success (a : ChunkAssembler.t) (fs : Files) :
  AssembleResult.success (ChunkAssembler.assemble a fs).1 = true →
  (∀ i, is_Some (ChunkAssembler.chunks a !! i) ↔ 0 ≤ i < ChunkAssembler.totalChunks a)
  ∧ 0 ≤ ChunkAssembler.totalChunks a
  ∧ sha256 (in_order a) = ChunkAssembler.expectedHash a.
Proof.
  unfold ChunkAssembler.assemble, ChunkAssembler.isComplete.
  pose proof (collect_result a (seqZ 0 (ChunkAssembler.totalChunks a)) []) as Hcol.
  destruct (Z.eqb_spec (Z.of_nat (size (ChunkAssembler.chunks a)))
              (ChunkAssembler.totalChunks a)) as [Hsize|]; [|done].
  simpl. destruct (ChunkAssembler.collect _ _ _) as [j|buffers]; [done|].
  destruct Hcol as [Hall ->]. simpl. fold (in_order a).
  destruct (String.eqb_spec (sha256 (in_order a)) (ChunkAssembler.expectedHash a));
    [|done].
  intros _. split; [|split; [lia|done]].
  intros i. split.
  - by apply size_full_range; [|intros j Hj; apply Hall, elem_of_seqZ; lia].
  - intros Hi. apply Hall, elem_of_seqZ. lia.
Qed.

Lemma assemble_failure (a : ChunkAssembler.t) (fs : Files) :
  AssembleResult.success (ChunkAssembler.assemble a fs).1 = false →
  (ChunkAssembler.assemble a fs).2 = fs.
Proof.
  unfold ChunkAssembler.assemble.
  destruct (negb (ChunkAssembler.isComplete a)); [done|].
  destruct (ChunkAssembler.collect _ _ _); [done|].
  by destruct (negb _).
Qed.

Lemma assemble_complete (a : ChunkAssembler.t) (fs : Files) :
  (∀ i, is_Some (ChunkAssembler.chunks a !! i) ↔ 0 ≤ i < ChunkAssembler.totalChunks a) →
  0 ≤ ChunkAssembler.totalChunks a →
  sha256 (in_order a) = ChunkAssembler.expectedHash a →
  ChunkAssembler.assemble a fs
  = (AssembleResult.mk true None, <[ChunkAssembler.outputPath a := in_order a]> fs).
Proof.
  intros Hdom Hn Hhash.
  unfold ChunkAssembler.assemble, ChunkAssembler.isComplete.
  pose proof (collect_result a (seqZ 0 (ChunkAssembler.totalChunks a)) []) as Hcol.
  rewrite (size_range _ _ Hn Hdom), Z.eqb_refl. simpl.
  destruct (ChunkAssembler.collect _ _ _) as [j|buffers].
  - destruct Hcol as [Hj%elem_of_seqZ Hnone].
    assert (is_Some (ChunkAssembler.chunks a !! j)) as [c Hc] by (apply Hdom; lia).
    by rewrite Hnone in Hc.
  - destruct Hcol as [_ ->]. simpl. fold (in_order a).
    by rewrite Hhash, String.eqb_refl.
Qed.

(** X4. When [assemble] succeeds. It succeeds exactly when the indices that
    hold a chunk are those of [0, totalChunks), no more and no fewer, and
    the SHA-256 of the chunks put together in index order is the expected
    hash. A chunk stored under an index outside the range therefore makes
    it fail, whatever else is stored. *)
Theorem assemble_exactly (a : ChunkAssembler.t) (fs : Files) :
  AssembleResult.success (ChunkAssembler.assemble a fs).1 = true
  ↔ (∀ i, is_Some (ChunkAssembler.chunks a !! i) ↔ 0 ≤ i < ChunkAssembler.totalChunks a)
    ∧ 0 ≤ ChunkAssembler.totalChunks a
    ∧ sha256 (in_order a) = ChunkAssembler.expectedHash a.
Proof.
  split; [apply assemble_success|].
  intros (Hdom & Hn & Hhash). by rewrite assemble_complete.
Qed.

Lemma addChunk_grows (a : ChunkAssembler.t) (i : Z) (d : list byte) (h : string) :
  let a' := (ChunkAssembler.addChunk a i d h).2 in
  ChunkAssembler.totalChunks a' = ChunkAssembler.totalChunks a
  ∧ ChunkAssembler.expectedHash a' = ChunkAssembler.expectedHash a
  ∧ ChunkAssembler.outputPath a' = ChunkAssembler.outputPath a
  ∧ ∀ j, is_Some (ChunkAssembler.chunks a !! j) → is_Some (ChunkAssembler.chunks a' !! j).
Proof.
  unfold ChunkAssembler.addChunk. destruct (negb _); simpl; [done|].
  repeat split; try done. intros j Hj.
  destruct (decide (i = j)) as [->|]; [by rewrite lookup_insert_eq|].
  by rewrite lookup_insert_ne.
Qed.

(** X5. [addChunk] never removes a chunk and never changes the chunk count,
    so an assembler that holds a chunk under an index outside
    [0, totalChunks) cannot be repaired: whatever chunks are offered to it
    afterwards, [assemble] fails and writes nothing. *)
Theorem stray_chunk_stays (a : ChunkAssembler.t) (i : Z)
    (more : list (Z * list byte * string)) (fs : Files) :
  is_Some (ChunkAssembler.chunks a !! i) →
  ¬ 0 ≤ i < ChunkAssembler.totalChunks a →
  AssembleResult.success (ChunkAssembler.assemble (addChunks more a) fs).1 = false
  ∧ (ChunkAssembler.assemble (addChunks more a) fs).2 = fs.
Proof.
  intros Hi Hout.
  assert (AssembleResult.success (ChunkAssembler.assemble (addChunks more a) fs).1 = false)
    as Hfail.
  { revert a Hi Hout. induction more as [|[[j d] h] more IH]; intros a Hi Hout; simpl.
    - destruct (AssembleResult.success _) eqn:Hs; [|done].
      apply assemble_success in Hs as (Hdom & _). by apply Hdom in Hi.
    - destruct (addChunk_grows a j d h) as (Ht & _ & _ & Hkeep).
      apply IH; [by apply Hkeep|by rewrite Ht]. }
  split; [done|by apply assemble_failure].
Qed.

End AssembleExactly.

Section CodecExamples.
Local Existing Instance node.

Lemma readAllChunks_covers_witness :
  ∃ chunks data,
    readAllChunks sample_files "/data/notes.txt" 5 = Ok chunks
    ∧ readFile sample_files "/data/notes.txt" = Ok data
    ∧ Z.of_nat (length chunks) = FileInfo.totalChunks notes_info
    ∧ (∀ (k : nat) c,
         chunks !! k = Some c
         ↔ Z.of_nat k < FileInfo.totalChunks notes_info
           ∧ readChunk sample_files "/data/notes.txt" (Z.of_nat k) 5 = Ok c)
    ∧ concat (Chunk.data <$> chunks) = data.
Proof.
  apply (readAllChunks_covers sample_files "/data/notes.txt" 5 notes_info).
  - lia.
  - vm_compute. reflexivity.
Defined.

Example readAllChunks_notes :
  readAllChunks sample_files "/data/notes.txt" 5
  = Ok [ Chunk.mk 0 (list_byte_of_string "hello") hello_hash;
         Chunk.mk 1 (list_byte_of_string " worl")
           "43cf897720cc5a693b2508c9e95e8711942a96ed98d772fe37123d31603ce20f";
         Chunk.mk 2 (list_byte_of_string "d!")
           "2615739d41db311a978c3232f5189cb5172f13ddc862712d4d750ff463b9cb8a" ].
Proof. vm_compute. reflexivity. Qed.

Lemma getFileInfo_describes_witness :
  let ext := toLowerCase (split_pop "." "/data/empty.bin") in
  match stat sample_files "/data/empty.bin" with
  | Throw e =>
      getFileInfo sample_files "/data/empty.bin" 5 = Throw e
      ∧ e = ("ENOENT: no such file or directory, stat '" ++ "/data/empty.bin" ++ "'")%string
  | Ok _ =>
      ∃ info data,
        getFileInfo sample_files "/data/empty.bin" 5 = Ok info
        ∧ readFile sample_files "/data/empty.bin" = Ok data
        ∧ FileInfo.size info = Z.of_nat (length data)
        ∧ FileInfo.hash info = sha256 data
        ∧ FileInfo.chunkSize info = 5
        ∧ 0 ≤ FileInfo.totalChunks info
        ∧ FileInfo.size info ≤ FileInfo.totalChunks info * 5
        ∧ (∀ n, FileInfo.size info ≤ n * 5 → FileInfo.totalChunks info ≤ n)
        ∧ (FileInfo.totalChunks info = 0 ↔ data = [])
        ∧ match FileInfo.mimeType info with
          | mime s => s ≠ "" ∧ ext ≠ "constructor" ∧ ext ≠ "__proto__"
          | Object_function => ext = "constructor"
          | Object_prototype => ext = "__proto__"
          end
  end.
Proof. apply (getFileInfo_describes sample_files "/data/empty.bin" 5). lia. Defined.

(** A missing file is reported by [stat], before the read is tried. *)
Example getFileInfo_missing_file :
  getFileInfo sample_files "/data/none.txt" 5
  = Throw "ENOENT: no such file or directory, stat '/data/none.txt'"
  ∧ readFile sample_files "/data/none.txt"
    = Throw "ENOENT: no such file or directory, open '/data/none.txt'".
Proof. vm_compute. split; reflexivity. Qed.

(** The table's lookup finds what the table inherits. *)
Example getFileInfo_inherited_mimeType :
  FileInfo.mimeType
    <$> [ getFileInfo {[ "/a.TXT" := [] ]} "/a.TXT" 5;
          getFileInfo {[ "/a.bin" := [] ]} "/a.bin" 5;
          getFileInfo {[ "/a.Constructor" := [] ]} "/a.Constructor" 5;
          getFileInfo {[ "/a.__proto__" := [] ]} "/a.__proto__" 5 ]
      ≫= (λ r, match r with Ok info => [info] | Throw _ => [] end)
  = [ mime "text/plain"; mime "application/octet-stream";
      Object_function; Object_prototype ].
Proof. vm_compute. reflexivity. Qed.

Lemma getFileInfo_filename_witness :
  FileInfo.filename notes_info ≠ ""
  ∧ occurs "/" (FileInfo.filename notes_info) = false
  ∧ ∃ dir last,
      "/data/notes.txt" = (dir ++ last)%string
      ∧ (dir = "" ∨ ∃ d, dir = d ++ "/")%string
      ∧ occurs "/" last = false
      ∧ FileInfo.filename notes_info = (if String.eqb last "" then "file" else last).
Proof.
  apply (getFileInfo_filename sample_files "/data/notes.txt" 5 notes_info).
  vm_compute. reflexivity.
Defined.

Lemma stray_chunk_stays_witness :
  AssembleResult.success
    (ChunkAssembler.assemble
       (addChunks [(0, list_byte_of_string "hello", hello_hash)] one_and_stray) ∅).1 = false
  ∧ (ChunkAssembler.assemble
       (addChunks [(0, list_byte_of_string "hello", hello_hash)] one_and_stray) ∅).2 = ∅.
Proof.
  apply (stray_chunk_stays one_and_stray 1).
  - vm_compute. eexists. reflexivity.
  - vm_compute. intros [_ Hlt]. discriminate.
Defined.
End CodecExamples.

(** * The receiver's handlers *)

Section ReceiverSteps.
Context `{Platform}.

Lemma handleChunk_run st msg p t a :
  let id := OCFTMessage.transferId msg in
  let i := ChunkPayload.index p in
  let r := ChunkAssembler.addChunk a i (Buffer_from_base64 (ChunkPayload.data p))
             (ChunkPayload.hash p) in
  let t1 := TransferInfo.set_state TransferState.transferring t in
  transfers st !! id = Some t →
  TransferInfo.direction t = Direction.receive →
  assemblers st !! id = Some a →
  handleChunk msg p st
  = (Ok tt,
     mkState (config st)
       (<[id := TransferInfo.set_updatedAt (clock st (ticks st))
                  (if r.1 then record_index i t1 else t1)]> (transfers st))
       (<[id := r.2]> (assemblers st)) (filePaths st) (files st)
       (sent st ++ [(OCFTMessage.from msg,
                     OCFTMessage.mk OCFT_VERSION id
                       (TransferManagerConfig.botId (config st))
                       (OCFTMessage.from msg) (clock st (S (ticks st)))
                       (PAck (AckPayload.mk i r.1
                                (if r.1 then None else Some "Hash mismatch"))))])
       (emitted st ++ [chunk_received id i (ChunkAssembler.getProgress r.2)])
       (clock st) (S (S (ticks st)))).
Proof.
  intros id i r t1 Ht Hd Ha. unfold handleChunk. fold id i. run_m. rewrite Ht.
  unfold tracked. rewrite Hd. simpl. rewrite Ha. fold r.
  destruct r as [[] a']; run_m.
  - by rewrite (alter_Some _ _ _ _ Ht), !alter_insert_eq.
  - by rewrite (alter_Some _ _ _ _ Ht), !alter_insert_eq.
Qed.

Lemma handleComplete_run st msg p t a :
  let id := OCFTMessage.transferId msg in
  let r := ChunkAssembler.assemble a (files st) in
  let ok := AssembleResult.success r.1 in
  transfers st !! id = Some t →
  TransferInfo.direction t = Direction.receive →
  assemblers st !! id = Some a →
  handleComplete msg p st
  = (Ok tt,
     mkState (config st)
       (<[id := if ok then
                  TransferInfo.set_updatedAt (clock st (S (ticks st)))
                    (TransferInfo.set_completedAt (Some (clock st (ticks st)))
                       (TransferInfo.set_state TransferState.completed t))
                else
                  TransferInfo.set_updatedAt (clock st (ticks st))
                    (TransferInfo.set_error (AssembleResult.error r.1)
                       (TransferInfo.set_state TransferState.failed t))]> (transfers st))
       (assemblers st) (filePaths st) r.2
       (sent st ++ [(OCFTMessage.from msg,
                     OCFTMessage.mk OCFT_VERSION id
                       (TransferManagerConfig.botId (config st))
                       (OCFTMessage.from msg)
                       (clock st (if ok then S (S (ticks st)) else S (ticks st)))
                       (PAck (AckPayload.mk (-1) ok (AssembleResult.error r.1))))])
       (emitted st ++ [if ok then transfer_completed id else transfer_failed id])
       (clock st) (if ok then S (S (S (ticks st))) else S (S (ticks st)))).
Proof.
  intros id r ok Ht Hd Ha. unfold handleComplete. fold id. run_m. rewrite Ht.
  unfold tracked. rewrite Hd. simpl. rewrite Ha. subst ok. fold r.
  destruct r as [[[] e] fs']; run_m.
  - by rewrite (alter_Some _ _ _ _ Ht), !alter_insert_eq.
  - by rewrite (alter_Some _ _ _ _ Ht), !alter_insert_eq.
Qed.

Lemma rejectTransfer_run st id reason t :
  transfers st !! id = Some t →
  TransferInfo.direction t = Direction.receive →
  TransferInfo.state t = TransferState.pending →
  rejectTransfer id reason st
  = (Ok tt,
     mkState (config st)
       (<[id := TransferInfo.set_error (Some reason)
                  (TransferInfo.set_updatedAt (clock st (ticks st))
                     (TransferInfo.set_state TransferState.rejected t))]> (transfers st))
       (assemblers st) (filePaths st) (files st)
       (sent st ++ [(TransferInfo.peerId t,
                     OCFTMessage.mk OCFT_VERSION id
                       (TransferManagerConfig.botId (config st))
                       (TransferInfo.peerId t) (clock st (S (ticks st)))
                       (PReject (RejectPayload.mk reason)))])
       (emitted st ++ [transfer_rejected id])
       (clock st) (S (S (ticks st)))).
Proof.
  intros Ht Hd Hs. unfold rejectTransfer. run_m. rewrite Ht.
  unfold processable. rewrite Hd, Hs. simpl. run_m.
  by rewrite (alter_Some _ _ _ _ Ht), !alter_insert_eq.
Qed.

End ReceiverSteps.
Section ChunkIntegrity.
Context `{Platform}.

(** X6. The receiver checks each chunk against the hash it comes with. For
    a tracked transfer of direction [receive] that has an assembler,
    whatever its state, a chunk message is answered with one
    acknowledgement to the message's sender and sets the state to
    [transferring]. If the SHA-256 of the decoded bytes is the announced
    hash, the bytes are stored under the chunk's index, the index is
    recorded, and the acknowledgement says [received = true]; if not,
    nothing is stored or recorded and the acknowledgement says
    [received = false] with the error "Hash mismatch". No file is
    written. *)
Theorem handleChunk_checks_hash (st : State) (msg : OCFTMessage.t)
    (p : ChunkPayload.t) (t : TransferInfo.t) (a : ChunkAssembler.t) :
  let id := OCFTMessage.transferId msg in
  let i := ChunkPayload.index p in
  let data := Buffer_from_base64 (ChunkPayload.data p) in
  let run := handleChunk msg p st in
  let ack received error :=
    (OCFTMessage.from msg,
     OCFTMessage.mk OCFT_VERSION id (TransferManagerConfig.botId (config st))
       (OCFTMessage.from msg) (clock st (S (ticks st)))
       (PAck (AckPayload.mk i received error))) in
  transfers st !! id = Some t →
  TransferInfo.direction t = Direction.receive →
  assemblers st !! id = Some a →
  run.1 = Ok tt
  ∧ files run.2 = files st
  ∧ TransferInfo.state <$> transfers run.2 !! id = Some TransferState.transferring
  ∧ (sha256 data = ChunkPayload.hash p →
     ChunkAssembler.chunks <$> assemblers run.2 !! id
     = Some (<[i := data]> (ChunkAssembler.chunks a))
     ∧ TransferInfo.receivedChunks <$> transfers run.2 !! id
       = Some ({[i]} ∪ TransferInfo.receivedChunks t)
     ∧ sent run.2 = sent st ++ [ack true None])
  ∧ (sha256 data ≠ ChunkPayload.hash p →
     assemblers run.2 !! id = Some a
     ∧ TransferInfo.receivedChunks <$> transfers run.2 !! id
       = Some (TransferInfo.receivedChunks t)
     ∧ sent run.2 = sent st ++ [ack false (Some "Hash mismatch")]).
Proof.
  intros id i data run ack Ht Hd Ha. subst run.
  rewrite (handleChunk_run st msg p t a Ht Hd Ha). fold id i data. simpl.
  rewrite !lookup_insert_eq. split; [done|]. split; [done|]. split.
  { by destruct (ChunkAssembler.addChunk a i data (ChunkPayload.hash p)).1. }
  split.
  - intros Hh. rewrite <-Hh, addChunk_matching. by simpl.
  - intros Hh. rewrite (addChunk_refused a i data _ Hh). by simpl.
Qed.

End ChunkIntegrity.
Section Retransmission.
Context `{Platform}.

(** X7. A refused chunk is sent again. For a tracked transfer of direction
    [send] that is neither [completing] nor [completed] and whose file is
    still readable, an acknowledgement with [received = false] makes the
    sender send the chunk of the acknowledged index once more, and nothing
    else: no index is recorded and the transfer stays as it is. There is
    no limit on how often this happens. *)
Theorem handleAck_resends (st : State) (msg : OCFTMessage.t) (p : AckPayload.t)
    (t : TransferInfo.t) (path : string) (data : list byte) :
  let id := OCFTMessage.transferId msg in
  let run := handleAck msg p st in
  transfers st !! id = Some t →
  TransferInfo.direction t = Direction.send →
  finishing t = false →
  AckPayload.received p = false →
  filePaths st !! id = Some path →
  readFile (files st) path = Ok data →
  run.1 = Ok tt
  ∧ transfers run.2 = transfers st
  ∧ sent run.2
    = sent st ++ [(TransferInfo.peerId t,
                   OCFTMessage.mk OCFT_VERSION id
                     (TransferManagerConfig.botId (config st))
                     (TransferInfo.peerId t) (clock st (ticks st))
                     (chunk_payload data (TransferInfo.chunkSize t)
                        (AckPayload.index p)))].
Proof.
  intros id run Ht Hd Hs Hr Hp Hf. subst run.
  by rewrite (handleAck_refused st msg p t path data Ht Hd Hs Hr Hp Hf).
Qed.

End Retransmission.

Section Offers.
Context `{Platform}.

(** X8. An offer above the size limit is turned down before anything is
    tracked. When the configured limit is not zero and the offered size is
    greater, the handler sends one reject with the reason "File too large:
    <size> bytes exceeds limit" to the offer's sender and changes nothing
    else: no transfer, no assembler, no event. *)
Theorem handleOffer_too_large (st : State) (msg : OCFTMessage.t)
    (p : OfferPayload.t) (limit : Z) :
  TransferManagerConfig.maxFileSize (config st) = Some limit →
  limit ≠ 0 →
  limit < OfferPayload.size p →
  handleOffer msg p st
  = (Ok tt,
     mkState (config st) (transfers st) (assemblers st) (filePaths st) (files st)
       (sent st ++ [(OCFTMessage.from msg,
                     OCFTMessage.mk OCFT_VERSION (OCFTMessage.transferId msg)
                       (TransferManagerConfig.botId (config st))
                       (OCFTMessage.from msg) (clock st (ticks st))
                       (PReject (RejectPayload.mk
                                   ("File too large: " ++ pretty (OfferPayload.size p)
                                    ++ " bytes exceeds limit")%string)))])
       (emitted st) (clock st) (S (ticks st))).
Proof.
  intros Hmax Hne Hlt. unfold handleOffer. run_m. rewrite Hmax.
  unfold exceeds_limit, truthy_number.
  rewrite (proj2 (Z.eqb_neq limit 0)) by done. simpl.
  by rewrite (proj2 (Z.gtb_gt _ _)) by lia.
Qed.

(** X9. [acceptTransfer] and [rejectTransfer] work on a pending incoming
    transfer only. Unless the id names a tracked transfer of direction
    [receive] in state [pending], both throw 'Invalid transfer or already
    processed' and change nothing. *)
Theorem acceptTransfer_guard (st : State) (id : string) :
  (∀ t, transfers st !! id = Some t →
        TransferInfo.direction t = Direction.receive →
        TransferInfo.state t ≠ TransferState.pending) →
  (∀ resumeFrom,
     acceptTransfer id resumeFrom st
     = (Throw "Invalid transfer or already processed", st))
  ∧ (∀ reason,
       rejectTransfer id reason st
       = (Throw "Invalid transfer or already processed", st)).
Proof.
  intros Hno.
  assert (processable (transfers st !! id) = None) as Hp.
  { unfold processable. destruct (transfers st !! id) as [t|] eqn:Ht; [|done].
    specialize (Hno t eq_refl).
    destruct (TransferInfo.direction t); [done|]. simpl.
    destruct (TransferInfo.state t); try done. by destruct Hno. }
  split; intros ?; [unfold acceptTransfer|unfold rejectTransfer]; run_m;
    by rewrite Hp.
Qed.

(** X10. Accepting a pending incoming transfer. The transfer becomes
    [accepted] and resumable, its local path is the download directory,
    a slash and the offered file name as it came; the transfer gets a new
    assembler without chunks, which replaces any assembler the id had; one
    accept carrying the resume point goes to the peer. After that the
    transfer is no longer pending: accepting or rejecting it again
    throws. *)
Theorem acceptTransfer_once (st : State) (id : string) (resumeFrom : option Z)
    (t : TransferInfo.t) :
  let out := (TransferManagerConfig.downloadDir (config st) ++ "/"
              ++ TransferInfo.filename t)%string in
  let run := acceptTransfer id resumeFrom st in
  transfers st !! id = Some t →
  TransferInfo.direction t = Direction.receive →
  TransferInfo.state t = TransferState.pending →
  run.1 = Ok tt
  ∧ transfers run.2 !! id
    = Some (TransferInfo.set_localPath (Some out)
              (TransferInfo.set_resumable true
                 (TransferInfo.set_updatedAt (clock st (ticks st))
                    (TransferInfo.set_state TransferState.accepted t))))
  ∧ assemblers run.2 !! id
    = Some (ChunkAssembler.new out (TransferInfo.hash t) (TransferInfo.totalChunks t))
  ∧ sent run.2
    = sent st ++ [(TransferInfo.peerId t,
                   OCFTMessage.mk OCFT_VERSION id
                     (TransferManagerConfig.botId (config st))
                     (TransferInfo.peerId t) (clock st (S (ticks st)))
                     (PAccept (AcceptPayload.mk true resumeFrom)))]
  ∧ (∀ again, (acceptTransfer id again run.2).1
              = Throw "Invalid transfer or already processed")
  ∧ (∀ reason, (rejectTransfer id reason run.2).1
               = Throw "Invalid transfer or already processed").
Proof.
  intros out run Ht Hd Hs. subst run.
  rewrite (acceptTransfer_run st id resumeFrom t Ht Hd Hs). fold out. simpl.
  rewrite !lookup_insert_eq. repeat split; try done.
  - intros again. unfold acceptTransfer. run_m. rewrite lookup_insert_eq. simpl.
    by rewrite Hd.
  - intros reason. unfold rejectTransfer. run_m. rewrite lookup_insert_eq. simpl.
    by rewrite Hd.
Qed.

(** X11. Rejecting a pending incoming transfer. The transfer becomes
    [rejected] with the reason as its error, one reject with the reason
    goes to the peer, and no assembler is made. After that the transfer
    is no longer pending: rejecting or accepting it again throws. *)
Theorem rejectTransfer_once (st : State) (id reason : string) (t : TransferInfo.t) :
  let run := rejectTransfer id reason st in
  transfers st !! id = Some t →
  TransferInfo.direction t = Direction.receive →
  TransferInfo.state t = TransferState.pending →
  run.1 = Ok tt
  ∧ transfers run.2 !! id
    = Some (TransferInfo.set_error (Some reason)
              (TransferInfo.set_updatedAt (clock st (ticks st))
                 (TransferInfo.set_state TransferState.rejected t)))
  ∧ assemblers run.2 = assemblers st
  ∧ sent run.2
    = sent st ++ [(TransferInfo.peerId t,
                   OCFTMessage.mk OCFT_VERSION id
                     (TransferManagerConfig.botId (config st))
                     (TransferInfo.peerId t) (clock st (S (ticks st)))
                     (PReject (RejectPayload.mk reason)))]
  ∧ (∀ again, (rejectTransfer id again run.2).1
              = Throw "Invalid transfer or already processed")
  ∧ (∀ resumeFrom, (acceptTransfer id resumeFrom run.2).1
                   = Throw "Invalid transfer or already processed").
Proof.
  intros run Ht Hd Hs. subst run.
  rewrite (rejectTransfer_run st id reason t Ht Hd Hs). simpl.
  rewrite !lookup_insert_eq. repeat split; try done.
  - intros again. unfold rejectTransfer. run_m. rewrite lookup_insert_eq. simpl.
    by rewrite Hd.
  - intros r. unfold acceptTransfer. run_m. rewrite lookup_insert_eq. simpl.
    by rewrite Hd.
Qed.

End Offers.
Section Completion.
Context `{Platform}.

(** On a disk that may refuse, [assemble] does what it does on a disk
    that takes every write, but for a refused write: that throws, and
    leaves the files as they are. *)
Lemma Refusing_assemble (refuses : string → option string) (a : ChunkAssembler.t)
    (fs : Files) :
  Refusing.assemble refuses a fs
  = let r := ChunkAssembler.assemble a fs in
    match (if AssembleResult.success r.1
           then refuses (ChunkAssembler.outputPath a) else None) with
    | Some e => (Throw e, fs)
    | None => (Ok r.1, r.2)
    end.
Proof.
  unfold Refusing.assemble, ChunkAssembler.assemble, Refusing.writeFile, writeFile.
  destruct (negb (ChunkAssembler.isComplete a)); [done|].
  destruct (ChunkAssembler.collect a _ []) as [i|buffers]; [done|]. cbv zeta.
  destruct (negb (String.eqb _ _)); [done|]. simpl.
  by destruct (refuses (ChunkAssembler.outputPath a)).
Qed.

(** On a disk that refuses nothing, [handleComplete] is the handler of
    the engine above. *)
Lemma Refusing_handleComplete_none (msg : OCFTMessage.t) (p : CompletePayload.t)
    (st : State) :
  Refusing.handleComplete (λ _, None) msg p st = handleComplete msg p st.
Proof.
  unfold Refusing.handleComplete, handleComplete. unfold bind, get.
  destruct (tracked Direction.receive _); [|done].
  destruct (assemblers st !! OCFTMessage.transferId msg) as [a|]; [|done].
  rewrite Refusing_assemble. cbv zeta.
  destruct (ChunkAssembler.assemble a (files st)) as [r fs'].
  cbn [fst snd]. destruct (AssembleResult.success r) eqn:Hok.
  - cbv beta iota. unfold modify, lift. cbn. by rewrite Hok.
  - cbv beta iota. unfold modify, lift. cbn. by rewrite Hok.
Qed.

(** X12. What a complete message does. For a tracked transfer of direction
    [receive] that has an assembler, the handler assembles, without
    looking at the chunk count and the hash the message carries or at the
    transfer's state, and has one of three outcomes. If all chunks are
    there and the hash matches but the disk refuses the write, the
    handler throws the error of the write: nothing is changed, no
    acknowledgement is sent, and the transfer stays as it was. If the
    write is taken, the file is written, the transfer becomes [completed]
    with [completedAt] set, and the final acknowledgement (index -1) says
    [received = true]. If the assembly fails, no file is touched, the
    transfer becomes [failed] with the assembler's error, and the final
    acknowledgement says [received = false] with that error. In the last
    two cases the acknowledgement goes to the message's sender and is the
    only message sent. *)
Theorem handleComplete_outcome (refuses : string → option string) (st : State)
    (msg : OCFTMessage.t) (p : CompletePayload.t) (t : TransferInfo.t)
    (a : ChunkAssembler.t) :
  let id := OCFTMessage.transferId msg in
  let result := ChunkAssembler.assemble a (files st) in
  let ok := AssembleResult.success result.1 in
  let run := Refusing.handleComplete refuses msg p st in
  transfers st !! id = Some t →
  TransferInfo.direction t = Direction.receive →
  assemblers st !! id = Some a →
  match (if ok then refuses (ChunkAssembler.outputPath a) else None) with
  | Some e => run = (Throw e, st)
  | None =>
      run.1 = Ok tt
      ∧ files run.2 = result.2
      ∧ (ok = false → files run.2 = files st)
      ∧ TransferInfo.state <$> transfers run.2 !! id
        = Some (if ok then TransferState.completed else TransferState.failed)
      ∧ TransferInfo.error <$> transfers run.2 !! id
        = Some (if ok then TransferInfo.error t else AssembleResult.error result.1)
      ∧ (ok = true →
         TransferInfo.completedAt <$> transfers run.2 !! id
         = Some (Some (clock st (ticks st))))
      ∧ (∃ time,
           sent run.2
           = sent st ++ [(OCFTMessage.from msg,
                          OCFTMessage.mk OCFT_VERSION id
                            (TransferManagerConfig.botId (config st))
                            (OCFTMessage.from msg) time
                            (PAck (AckPayload.mk (-1) ok
                                     (AssembleResult.error result.1))))])
  end.
Proof.
  intros id result ok run Ht Hd Ha.
  assert (run = match (if ok then refuses (ChunkAssembler.outputPath a) else None) with
                | Some e => (Throw e, st)
                | None => handleComplete msg p st
                end) as Hrun.
  { subst run ok result. unfold Refusing.handleComplete, handleComplete. fold id.
    unfold bind, get. rewrite Ht. unfold tracked. rewrite Hd.
    cbn [direction_eqb]. rewrite Ha. rewrite Refusing_assemble. cbv zeta.
    destruct (ChunkAssembler.assemble a (files st)) as [r fs']. cbn [fst snd].
    destruct (AssembleResult.success r) eqn:Hok.
    - destruct (refuses (ChunkAssembler.outputPath a)) as [e|].
      + cbv beta iota. unfold modify, lift. cbn. by destruct st.
      + cbv beta iota. unfold modify, lift. cbn. by rewrite Hok.
    - cbv beta iota. unfold modify, lift. cbn. by rewrite Hok. }
  rewrite Hrun. destruct (if ok then refuses (ChunkAssembler.outputPath a) else None);
    [done|].
  rewrite (handleComplete_run st msg p t a Ht Hd Ha). fold id result ok. simpl.
  rewrite !lookup_insert_eq. simpl.
  split; [done|]. split; [done|]. split.
  { intros Hok. by apply assemble_failure. }
  split; [by destruct ok|]. split; [by destruct ok|]. split.
  - by intros ->.
  - by eexists.
Qed.

End Completion.

Section Ignoring.
Context `{Platform}.

(** X13. Messages the engine has no use for are dropped silently. A
    message other than an offer whose transfer id is not tracked changes
    nothing and sends nothing; so does an accept or an acknowledgement for
    a transfer of direction [receive], and a chunk or a complete for a
    transfer of direction [send] or for a transfer without an assembler.
    In particular no error message is sent back. *)
Theorem dispatch_ignores (st : State) (msg : OCFTMessage.t) :
  let id := OCFTMessage.transferId msg in
  match OCFTMessage.payload msg with
  | POffer _ => False
  | PAccept _ | PAck _ =>
      ∀ t, transfers st !! id = Some t → TransferInfo.direction t = Direction.receive
  | PChunk _ | PComplete _ =>
      (∀ t, transfers st !! id = Some t → TransferInfo.direction t = Direction.send)
      ∨ assemblers st !! id = None
  | PReject _ | PError _ => transfers st !! id = None
  end →
  dispatch msg st = (Ok tt, st).
Proof.
  intros id. unfold dispatch.
  destruct (OCFTMessage.payload msg) as [p|p|p|p|p|p|p]; intros Hcase; [done|..].
  - unfold handleAccept. fold id. run_m.
    destruct (transfers st !! id) as [t|]; [|done]. simpl.
    by rewrite (Hcase t eq_refl).
  - unfold handleReject. fold id. run_m. by rewrite Hcase.
  - unfold handleChunk. fold id. run_m.
    destruct (transfers st !! id) as [t|]; [|done]. simpl.
    destruct Hcase as [Hd|Ha]; [by rewrite (Hd t eq_refl)|].
    destruct (direction_eqb _ _); [|done]. by rewrite Ha.
  - unfold handleAck. fold id. run_m.
    destruct (transfers st !! id) as [t|]; [|done]. simpl.
    by rewrite (Hcase t eq_refl).
  - unfold handleComplete. fold id. run_m.
    destruct (transfers st !! id) as [t|]; [|done]. simpl.
    destruct Hcase as [Hd|Ha]; [by rewrite (Hd t eq_refl)|].
    destruct (direction_eqb _ _); [|done]. by rewrite Ha.
  - unfold handleError. fold id. run_m. by rewrite Hcase.
Qed.

(** X14. A reject or an error message marks any tracked transfer. Whatever
    the transfer's direction and state (also [completed]), and whoever
    the message comes from, a reject sets the state to [rejected] and an
    error message sets it to [failed], with the reason or the message as
    the transfer's error; only [state], [error] and [updatedAt] change,
    and nothing is sent. *)
Theorem handleReject_handleError_mark (st : State) (msg : OCFTMessage.t)
    (t : TransferInfo.t) :
  let id := OCFTMessage.transferId msg in
  transfers st !! id = Some t →
  (∀ p,
     handleReject msg p st
     = (Ok tt,
        mkState (config st)
          (<[id := TransferInfo.set_updatedAt (clock st (ticks st))
                     (TransferInfo.set_error (Some (RejectPayload.reason p))
                        (TransferInfo.set_state TransferState.rejected t))]>
             (transfers st))
          (assemblers st) (filePaths st) (files st) (sent st)
          (emitted st ++ [transfer_rejected id]) (clock st) (S (ticks st))))
  ∧ (∀ p,
       handleError msg p st
       = (Ok tt,
          mkState (config st)
            (<[id := TransferInfo.set_updatedAt (clock st (ticks st))
                       (TransferInfo.set_error (Some (ErrorPayload.message p))
                          (TransferInfo.set_state TransferState.failed t))]>
               (transfers st))
            (assemblers st) (filePaths st) (files st) (sent st)
            (emitted st ++ [transfer_failed id]) (clock st) (S (ticks st)))).
Proof.
  intros id Ht. split; intros p; [unfold handleReject|unfold handleError];
    fold id; run_m; rewrite Ht;
    by rewrite (alter_Some _ _ _ _ Ht), !alter_insert_eq.
Qed.

End Ignoring.
Section ReceiverRun.
Context `{Platform}.

Lemma handleChunks_run id data cs chunks :
  chunks_of id data cs chunks →
  (∀ msg p, (msg, p) ∈ chunks →
     Buffer_from_base64 (ChunkPayload.data p) = chunk_bytes data (ChunkPayload.index p) cs) →
  ∀ st t a,
    transfers st !! id = Some t →
    TransferInfo.direction t = Direction.receive →
    assemblers st !! id = Some a →
    ∃ st' t' a',
      handleChunks chunks st = (Ok tt, st')
      ∧ transfers st' !! id = Some t'
      ∧ TransferInfo.direction t' = Direction.receive
      ∧ TransferInfo.receivedChunks t'
        = TransferInfo.receivedChunks t
          ∪ list_to_set ((λ mp, ChunkPayload.index mp.2) <$> chunks)
      ∧ assemblers st' !! id = Some a'
      ∧ ChunkAssembler.expectedHash a' = ChunkAssembler.expectedHash a
      ∧ ChunkAssembler.totalChunks a' = ChunkAssembler.totalChunks a
      ∧ ChunkAssembler.outputPath a' = ChunkAssembler.outputPath a
      ∧ (∀ i, ChunkAssembler.chunks a' !! i
              = if decide (i ∈ (λ mp, ChunkPayload.index mp.2) <$> chunks)
                then Some (chunk_bytes data i cs)
                else ChunkAssembler.chunks a !! i)
      ∧ files st' = files st
      ∧ config st' = config st
      ∧ sent_payloads st'
        = sent_payloads st
          ++ ((λ mp, PAck (AckPayload.mk (ChunkPayload.index mp.2) true None)) <$> chunks).
Proof.
  induction chunks as [|[msg p] rest IH]; intros Hof Hb64 st t a Ht Hd Ha.
  - exists st, t, a. simpl. rewrite app_nil_r.
    repeat split; try done. by rewrite (right_id_L ∅ (∪)).
  - destruct (Hof msg p) as [Hid Hp]; [by left|].
    pose proof (Hb64 msg p (list_elem_of_here _ _)) as Hdec.
    assert (ChunkPayload.hash p = sha256 (chunk_bytes data (ChunkPayload.index p) cs))
      as Hh by (unfold chunk_payload in Hp; injection Hp as ->; done).
    simpl. unfold bind.
    rewrite <-Hid in Ht, Ha.
    rewrite (handleChunk_run st msg p t a Ht Hd Ha).
    rewrite Hdec, Hh, addChunk_matching. cbv beta iota zeta.
    rewrite Hid. simpl fst. simpl snd. cbv iota.
    assert (chunks_of id data cs rest) as Hof'
      by (intros m q Hm; apply (Hof m q); by right).
    assert (∀ m q, (m, q) ∈ rest →
              Buffer_from_base64 (ChunkPayload.data q)
              = chunk_bytes data (ChunkPayload.index q) cs) as Hb64'
      by (intros m q Hm; apply (Hb64 m q); by right).
    match goal with
    | |- context [handleChunks rest ?s] =>
        destruct (IH Hof' Hb64' s
                     (TransferInfo.set_updatedAt (clock st (ticks st))
                        (record_index (ChunkPayload.index p)
                           (TransferInfo.set_state TransferState.transferring t)))
                     (ChunkAssembler.mk
                        (<[ChunkPayload.index p := chunk_bytes data (ChunkPayload.index p) cs]>
                           (ChunkAssembler.chunks a))
                        (ChunkAssembler.expectedHash a) (ChunkAssembler.totalChunks a)
                        (ChunkAssembler.outputPath a)))
          as (st' & t' & a' & Hrun & Ht' & Hd' & Hrc & Ha' & Hh' & Hn' & Ho' & Hc'
              & Hf' & Hcfg' & Hsent')
    end.
    { simpl. by rewrite lookup_insert_eq. }
    { done. }
    { simpl. by rewrite lookup_insert_eq. }
    exists st', t', a'. rewrite Hrun. simpl in *.
    repeat split; try done.
    + rewrite Hrc. apply set_eq. intros x. rewrite !elem_of_union. tauto.
    + intros i. rewrite Hc'. simpl.
      destruct (decide (i = ChunkPayload.index p)) as [->|Hne].
      * rewrite lookup_insert_eq.
        rewrite (decide_True _ _ (list_elem_of_here _ _)).
        by destruct (decide _).
      * rewrite lookup_insert_ne by done.
        destruct (decide (i ∈ _)) as [Hin|Hin].
        -- by rewrite decide_True by (by apply list_elem_of_further).
        -- rewrite decide_False; [done|]. by intros [?|?]%elem_of_cons.
    + rewrite Hsent'. unfold sent_payloads. simpl. rewrite fmap_app. simpl.
      by rewrite <-app_assoc.
Qed.

End ReceiverRun.

Section ReceiverCompletes.
Context `{Platform}.

Lemma omap_all {A B} (f : A → option B) (g : A → B) (l : list A) :
  (∀ x, x ∈ l → f x = Some (g x)) → omap f l = g <$> l.
Proof.
  induction l as [|x l IH]; intros Hl; [done|].
  rewrite fmap_cons. cbn [omap list_omap]. rewrite (Hl x) by (by left).
  f_equal. apply IH. intros y Hy. apply Hl. by right.
Qed.

(** X15. The receiver's side of a transfer. A receiver holds an accepted
    transfer with a new assembler for a file of N = ceil(size / chunkSize)
    chunks. It is handed chunk messages of that file as the sender encodes
    them, each index of [0, N) at least once, in any order, and then the
    complete message. If base64 decoding gives back the encoded bytes of
    each chunk, the receiver acknowledges every chunk message with
    [received = true], in the order of arrival, then writes the file with
    exactly the sender's bytes to the assembler's output path, marks the
    transfer [completed] and sends the final acknowledgement (index -1,
    [received = true]). *)
Theorem receiver_completes (st : State) (id out : string) (data : list byte)
    (chunkSize : Z) (t : TransferInfo.t)
    (chunks : list (OCFTMessage.t * ChunkPayload.t))
    (complete : OCFTMessage.t) (pc : CompletePayload.t) :
  let n := Math_ceil_div (Z.of_nat (length data)) chunkSize in
  let run := (handleChunks chunks ;; handleComplete complete pc) st in
  0 < chunkSize →
  transfers st !! id = Some t →
  TransferInfo.direction t = Direction.receive →
  assemblers st !! id = Some (ChunkAssembler.new out (sha256 data) n) →
  OCFTMessage.transferId complete = id →
  chunks_of id data chunkSize chunks →
  (∀ i, i ∈ (λ mp, ChunkPayload.index mp.2) <$> chunks ↔ 0 ≤ i < n) →
  (∀ i, 0 ≤ i < n →
        Buffer_from_base64 (Buffer_toString_base64 (chunk_bytes data i chunkSize))
        = chunk_bytes data i chunkSize) →
  run.1 = Ok tt
  ∧ files run.2 = <[out := data]> (files st)
  ∧ TransferInfo.state <$> transfers run.2 !! id = Some TransferState.completed
  ∧ TransferInfo.receivedChunks <$> transfers run.2 !! id
    = Some (TransferInfo.receivedChunks t ∪ list_to_set (seqZ 0 n))
  ∧ sent_payloads run.2
    = sent_payloads st
      ++ ((λ mp, PAck (AckPayload.mk (ChunkPayload.index mp.2) true None)) <$> chunks)
      ++ [PAck (AckPayload.mk (-1) true None)].
Proof.
  intros n run Hcs Ht Hd Ha Hcid Hof Hidx Hb64.
  destruct (Math_ceil_div_spec (Z.of_nat (length data)) chunkSize) as (Hn & _);
    [lia|lia|]. fold n in Hn.
  assert (∀ msg p, (msg, p) ∈ chunks →
            Buffer_from_base64 (ChunkPayload.data p)
            = chunk_bytes data (ChunkPayload.index p) chunkSize) as Hdec.
  { intros msg p Hin. destruct (Hof msg p Hin) as [_ Hp].
    unfold chunk_payload in Hp. injection Hp as Hp.
    rewrite Hp. simpl. apply Hb64, Hidx.
    apply list_elem_of_fmap. by exists (msg, p). }
  destruct (handleChunks_run id data chunkSize chunks Hof Hdec st t _ Ht Hd Ha)
    as (st' & t' & a' & Hrun & Ht' & Hd' & Hrc & Ha' & Hh' & Hn' & Ho' & Hc'
        & Hf' & Hcfg' & Hsent').
  simpl in Hh', Hn', Ho'.
  assert (∀ i, 0 ≤ i < n →
            ChunkAssembler.chunks a' !! i = Some (chunk_bytes data i chunkSize)) as Hin.
  { intros i Hi. rewrite Hc'. by rewrite decide_True by (by apply Hidx). }
  assert (in_order a' = data) as Horder.
  { unfold in_order. rewrite Hn'.
    rewrite (omap_all _ (λ i, chunk_bytes data i chunkSize)).
    - by apply concat_all_chunk_bytes.
    - intros i Hi%elem_of_seqZ. apply Hin. lia. }
  assert (ChunkAssembler.assemble a' (files st')
          = (AssembleResult.mk true None, <[out := data]> (files st))) as Hasm.
  { rewrite assemble_complete.
    - by rewrite Ho', Horder, Hf'.
    - intros i. rewrite Hn'. split.
      + intros [c Hc]. rewrite Hc' in Hc.
        destruct (decide (i ∈ _)) as [Hi|Hi]; [by apply Hidx|].
        simpl in Hc. by rewrite lookup_empty in Hc.
      + intros Hi. rewrite Hin by done. by eexists.
    - by rewrite Hn'.
    - by rewrite Horder, Hh'. }
  subst run. unfold bind. rewrite Hrun.
  rewrite <-Hcid in Ht', Ha'.
  rewrite (handleComplete_run st' complete pc t' a' Ht' Hd' Ha').
  rewrite Hasm. simpl. rewrite Hcid, !lookup_insert_eq. simpl.
  split; [done|]. split; [done|]. split; [done|]. split.
  - rewrite Hrc. do 2 f_equal. apply set_eq. intros i.
    rewrite !elem_of_list_to_set, Hidx, elem_of_seqZ. lia.
  - unfold sent_payloads in *. simpl. rewrite fmap_app, Hsent'. simpl.
    by rewrite <-app_assoc.
Qed.

End ReceiverCompletes.
Section LegacyAutoAccept.
Context `{Platform}.

Lemma isPeerTrustValid_run st peer :
  isPeerTrustValid peer st
  = match TrustedPeer.expiresAt peer with
    | Some e =>
        if e =? 0 then (Ok true, st)
        else (Ok (clock st (ticks st) <? e), set_ticks (S (ticks st)) st)
    | None => (Ok true, st)
    end.
Proof.
  unfold isPeerTrustValid, truthy_number.
  destruct (TrustedPeer.expiresAt peer) as [e|]; [|done].
  by destruct (e =? 0).
Qed.

Lemma isValidSecret_no_match st secret ttl :
  secret = None ∨ secret = Some ""
  ∨ (∃ s, secret = Some s ∧ s ≠ TransferManagerConfig.secret (config st)) →
  isValidSecret secret ttl st = (Ok false, st).
Proof.
  intros Hc. unfold isValidSecret. run_m.
  destruct Hc as [->|[->|(s & -> & Hne)]]; [done|done|].
  destruct (truthy_string s); [|done]. simpl.
  by destruct (String.eqb_spec s (TransferManagerConfig.secret (config st))).
Qed.

(** X16. Auto-accept by the list of trusted peers. An offer within the
    size limit whose secret is absent, empty or not this node's secret is
    still accepted at once when [autoAccept] is on and the first trusted
    peer with the sender's id has no expiry, an expiry of zero, or an
    expiry later than the time read for the check; the accept carries the
    offer's resume point. With an expiry that is not zero and not later
    than that time (equal included), or without such a peer, the transfer
    stays [pending] and nothing is sent. *)
Theorem offer_trusted_peer (st : State) (msg : OCFTMessage.t) (p : OfferPayload.t) :
  let id := OCFTMessage.transferId msg in
  let c := config st in
  let now := clock st (S (S (ticks st))) in
  let run := handleOffer msg p st in
  let peer := find_peer (TransferManagerConfig.trustedPeers c) (OCFTMessage.from msg) in
  exceeds_limit (OfferPayload.size p) (TransferManagerConfig.maxFileSize c) = false →
  OfferPayload.secret p = None ∨ OfferPayload.secret p = Some ""
  ∨ (∃ s, OfferPayload.secret p = Some s ∧ s ≠ TransferManagerConfig.secret c) →
  TransferManagerConfig.autoAccept c = Some true →
  (∀ e, TrustedPeer.expiresAt <$> peer = Some e →
        e = None ∨ e = Some 0 ∨ (∃ x, e = Some x ∧ now < x) →
        run.1 = Ok tt
        ∧ TransferInfo.state <$> transfers run.2 !! id = Some TransferState.accepted
        ∧ is_Some (assemblers run.2 !! id)
        ∧ sent_payloads run.2
          = sent_payloads st
            ++ [PAccept (AcceptPayload.mk true (OfferPayload.resumeFrom p))])
  ∧ (peer = None
     ∨ (∃ x, TrustedPeer.expiresAt <$> peer = Some (Some x) ∧ x ≠ 0 ∧ x ≤ now) →
     run.1 = Ok tt
     ∧ TransferInfo.state <$> transfers run.2 !! id = Some TransferState.pending
     ∧ assemblers run.2 = assemblers st
     ∧ sent run.2 = sent st).
Proof.
  intros id c now run peer Hlimit Hsec Hauto.
  assert (run = match peer with
                | Some trustedPeer =>
                    match isPeerTrustValid trustedPeer (offered msg p st) with
                    | (Ok true, s') =>
                        acceptTransfer id (OfferPayload.resumeFrom p) s'
                    | (Ok false, s') => (Ok tt, s')
                    | (Throw e, s') => (Throw e, s')
                    end
                | None => (Ok tt, offered msg p st)
                end) as Hrun.
  { subst run. unfold handleOffer. run_m. fold c. rewrite Hlimit.
    match goal with
    | |- context [isValidSecret _ _ ?s0] => change s0 with (offered msg p st)
    end.
    rewrite (isValidSecret_no_match (offered msg p st) _ _ Hsec).
    rewrite Hauto. simpl. fold peer. destruct peer as [tp|]; [|done].
    by destruct (isPeerTrustValid tp (offered msg p st)) as [[[]|] ?]. }
  rewrite Hrun. split.
  - intros e He Hcase. destruct peer as [tp|]; [|done]. injection He as He.
    rewrite isPeerTrustValid_run, He.
    set (t0 := TransferInfo.mk id Direction.receive TransferState.pending
                 (OCFTMessage.from msg) (OfferPayload.filename p) (OfferPayload.size p)
                 (OfferPayload.mimeType p) (OfferPayload.hash p)
                 (OfferPayload.chunkSize p) (OfferPayload.totalChunks p) ∅
                 (clock st (ticks st)) (clock st (S (ticks st))) None None None false).
    assert (∀ s', transfers s' = transfers (offered msg p st) →
              sent s' = sent st →
              let r := acceptTransfer id (OfferPayload.resumeFrom p) s' in
              r.1 = Ok tt
              ∧ TransferInfo.state <$> transfers r.2 !! id = Some TransferState.accepted
              ∧ is_Some (assemblers r.2 !! id)
              ∧ sent_payloads r.2
                = sent_payloads st
                  ++ [PAccept (AcceptPayload.mk true (OfferPayload.resumeFrom p))])
      as Hacc.
    { intros s' Htr Hsent r. subst r.
      rewrite (acceptTransfer_run s' id _ t0); try done.
      - simpl. rewrite !lookup_insert_eq. split; [done|]. split; [done|].
        split; [by eexists|]. unfold sent_payloads. simpl.
        by rewrite fmap_app, Hsent.
      - rewrite Htr. apply lookup_insert_eq. }
    destruct Hcase as [->|[->|(x & -> & Hx)]].
    + by apply Hacc.
    + by apply Hacc.
    + destruct (x =? 0); [by apply Hacc|].
      change (clock (offered msg p st) (ticks (offered msg p st))) with now.
      rewrite (proj2 (Z.ltb_lt now x) Hx). by apply Hacc.
  - intros [Hnone|(x & He & Hx0 & Hx)].
    + rewrite Hnone. simpl. by rewrite lookup_insert_eq.
    + destruct peer as [tp|]; [|done]. injection He as He.
      rewrite isPeerTrustValid_run, He.
      rewrite (proj2 (Z.eqb_neq x 0)) by done.
      change (clock (offered msg p st) (ticks (offered msg p st))) with now.
      rewrite (proj2 (Z.ltb_ge now x)) by lia.
      simpl. by rewrite lookup_insert_eq.
Qed.

End LegacyAutoAccept.
Section SendFile.
Context `{Platform}.

Lemma getPeerSecret_run st peerId :
  getPeerSecret peerId st
  = (Ok (TrustedPeer.secret
           <$> find_peer (TransferManagerConfig.trustedPeers (config st)) peerId), st).
Proof. reflexivity. Qed.

Lemma offer_secretTTL_run st :
  offer_secretTTL st
  = match TransferManagerConfig.secretTTL (config st) with
    | Some ttl =>
        if ttl =? 0 then (Ok None, st)
        else (Ok (Some (clock st (ticks st) + ttl)), set_ticks (S (ticks st)) st)
    | None => (Ok None, st)
    end.
Proof.
  unfold offer_secretTTL, truthy_number. run_m.
  destruct (TransferManagerConfig.secretTTL (config st)) as [ttl|]; [|done].
  by destruct (ttl =? 0).
Qed.

(** X17. Offering a file. When [getFileInfo] throws (the file is not
    there), [sendFile] throws the same and changes nothing. Otherwise it returns the id
    "xfer_" followed by the random part, tracks under it a [pending]
    transfer of direction [send] with the file's description and no
    received chunk, remembers the file's path, and sends one message, to
    the peer: the offer with the description, the secret of the first
    trusted peer of that id (none without such a peer), no resume point,
    and an expiry of the time read plus the configured TTL (none when the
    TTL is absent or zero). No chunk is sent before the peer accepts. *)
Theorem sendFile_offers (st : State) (peerId path nano : string) :
  let c := config st in
  let id := ("xfer_" ++ nano)%string in
  let run := sendFile peerId path nano st in
  match getFileInfo (files st) path
          (default DEFAULT_CHUNK_SIZE (TransferManagerConfig.chunkSize c)) with
  | Throw e => run = (Throw e, st)
  | Ok info =>
      run.1 = Ok id
      ∧ transfers run.2
        = <[id := TransferInfo.mk id Direction.send TransferState.pending peerId
                    (FileInfo.filename info) (FileInfo.size info)
                    (FileInfo.mimeType info) (FileInfo.hash info)
                    (FileInfo.chunkSize info) (FileInfo.totalChunks info) ∅
                    (clock st (ticks st)) (clock st (S (ticks st)))
                    None None (Some path) false]> (transfers st)
      ∧ filePaths run.2 = <[id := path]> (filePaths st)
      ∧ assemblers run.2 = assemblers st
      ∧ files run.2 = files st
      ∧ ∃ time,
          sent run.2
          = sent st
            ++ [(peerId,
                 OCFTMessage.mk OCFT_VERSION id (TransferManagerConfig.botId c) peerId time
                   (POffer (OfferPayload.mk
                              (FileInfo.filename info) (FileInfo.size info)
                              (FileInfo.mimeType info) (FileInfo.hash info)
                              (FileInfo.chunkSize info) (FileInfo.totalChunks info)
                              (TrustedPeer.secret
                                 <$> find_peer (TransferManagerConfig.trustedPeers c) peerId)
                              (match TransferManagerConfig.secretTTL c with
                               | Some ttl =>
                                   if ttl =? 0 then None
                                   else Some (clock st (S (S (ticks st))) + ttl)
                               | None => None
                               end)
                              None)))]
  end.
Proof.
  intros c id run. subst run c.
  destruct (getFileInfo _ _ _) as [info|e] eqn:Hinfo.
  - unfold sendFile. fold id. run_m. rewrite Hinfo. run_m.
    rewrite offer_secretTTL_run. simpl.
    destruct (TransferManagerConfig.secretTTL (config st)) as [ttl|]; simpl.
    + destruct (ttl =? 0); simpl; repeat split; try done; by eexists.
    + repeat split; try done; by eexists.
  - unfold sendFile. run_m. by rewrite Hinfo.
Qed.

End SendFile.
Section Resume.
Context `{Platform}.

(** [Math.max(...indices, -1)]: the greatest recorded index, and -1 when
    none is recorded or all are below -1. *)
Lemma last_index_spec (X : gset Z) :
  -1 ≤ last_index X
  ∧ (∀ i, i ∈ X → i ≤ last_index X)
  ∧ (last_index X = -1 ∨ last_index X ∈ X).
Proof.
  unfold last_index.
  apply (set_fold_ind_L (λ r (X : gset Z),
           -1 ≤ r ∧ (∀ i, i ∈ X → i ≤ r) ∧ (r = -1 ∨ r ∈ X))).
  - split; [lia|]. split; [|by left]. intros i Hi. by apply not_elem_of_empty in Hi.
  - intros x Y r Hx (Hr & Hle & Hin). split; [lia|]. split.
    + intros i [->%elem_of_singleton|Hi]%elem_of_union; [lia|].
      specialize (Hle i Hi). lia.
    + destruct (Z.max_spec x r) as [[_ ->]|[_ ->]].
      * destruct Hin as [->|Hin]; [by left|]. right. apply elem_of_union. by right.
      * right. apply elem_of_union. left. by apply elem_of_singleton.
Qed.

(** X18. Resuming on the receiving side. For a tracked transfer of
    direction [receive] that is not [completed], whatever else its state,
    [resumeTransfer] returns without throwing: the transfer becomes
    [accepted] and keeps its recorded indices; it gets a new assembler
    without chunks in place of the one that held the received chunks; and
    one accept goes to the peer, asking to resume at the index after the
    greatest recorded one (at 0 when none is recorded). Recorded gaps
    below that index are not asked for. *)
Theorem resumeTransfer_receiver (st : State) (id : string) (t : TransferInfo.t) :
  let out := (TransferManagerConfig.downloadDir (config st) ++ "/"
              ++ TransferInfo.filename t)%string in
  let from := last_index (TransferInfo.receivedChunks t) + 1 in
  let run := resumeTransfer id st in
  transfers st !! id = Some t →
  TransferInfo.direction t = Direction.receive →
  TransferInfo.state t ≠ TransferState.completed →
  run.1 = Ok tt
  ∧ transfers run.2 !! id
    = Some (TransferInfo.set_localPath (Some out)
              (TransferInfo.set_resumable true
                 (TransferInfo.set_updatedAt (clock st (ticks st))
                    (TransferInfo.set_state TransferState.accepted t))))
  ∧ assemblers run.2 !! id
    = Some (ChunkAssembler.new out (TransferInfo.hash t) (TransferInfo.totalChunks t))
  ∧ sent run.2
    = sent st ++ [(TransferInfo.peerId t,
                   OCFTMessage.mk OCFT_VERSION id
                     (TransferManagerConfig.botId (config st))
                     (TransferInfo.peerId t) (clock st (S (ticks st)))
                     (PAccept (AcceptPayload.mk true (Some from))))]
  ∧ 0 ≤ from
  ∧ (∀ i, i ∈ TransferInfo.receivedChunks t → i < from)
  ∧ (from = 0 ∨ from - 1 ∈ TransferInfo.receivedChunks t).
Proof.
  intros out from run Ht Hd Hs.
  destruct (last_index_spec (TransferInfo.receivedChunks t)) as (Hm & Hle & Hin).
  assert (run = acceptTransfer id (Some from)
                  (set_transfers
                     (<[id := TransferInfo.set_state TransferState.pending t]>
                        (transfers st)) st)) as Hrun.
  { subst run. unfold resumeTransfer. run_m. rewrite Ht.
    destruct (TransferInfo.state t); try done; rewrite Hd; simpl;
      by rewrite (alter_Some _ _ _ _ Ht). }
  rewrite Hrun.
  rewrite (acceptTransfer_run _ id _ (TransferInfo.set_state TransferState.pending t));
    try done; [|by apply lookup_insert_eq].
  simpl. rewrite !lookup_insert_eq. fold out.
  split; [done|]. split; [done|]. split; [done|]. split; [done|].
  split; [subst from; lia|]. split.
  - intros i Hi. specialize (Hle i Hi). subst from. lia.
  - subst from. destruct Hin as [->|Hin]; [by left|right].
    by replace (last_index (TransferInfo.receivedChunks t) + 1 - 1)
      with (last_index (TransferInfo.receivedChunks t)) by lia.
Qed.

(** X20. Resuming on the sending side, and when resuming throws. For a
    tracked transfer of direction [send] that is not [completed] and has
    a file path, [resumeTransfer] sets the state to [pending] and sends
    one message: a new offer with the transfer's description and, as
    resume point, the index after the greatest acknowledged one; no chunk
    is sent. It throws 'Transfer not found' for an id that is not
    tracked, 'Transfer already completed' for a completed transfer and
    'File path not found' for a transfer of direction [send] without a
    path, and changes nothing then. *)
Theorem resumeTransfer_sender (st : State) (id : string) :
  let c := config st in
  let run := resumeTransfer id st in
  match transfers st !! id with
  | None => run = (Throw "Transfer not found", st)
  | Some t =>
      (TransferInfo.state t = TransferState.completed →
       run = (Throw "Transfer already completed", st))
      ∧ (TransferInfo.state t ≠ TransferState.completed →
         TransferInfo.direction t = Direction.send →
         (truthy_path (filePaths st !! id) = None →
          run = (Throw "File path not found", st))
         ∧ (is_Some (truthy_path (filePaths st !! id)) →
            run.1 = Ok tt
            ∧ transfers run.2
              = <[id := TransferInfo.set_state TransferState.pending t]> (transfers st)
            ∧ ∃ time,
                sent run.2
                = sent st
                  ++ [(TransferInfo.peerId t,
                       OCFTMessage.mk OCFT_VERSION id (TransferManagerConfig.botId c)
                         (TransferInfo.peerId t) time
                         (POffer (OfferPayload.mk
                                    (TransferInfo.filename t) (TransferInfo.size t)
                                    (TransferInfo.mimeType t) (TransferInfo.hash t)
                                    (TransferInfo.chunkSize t) (TransferInfo.totalChunks t)
                                    (TrustedPeer.secret
                                       <$> find_peer (TransferManagerConfig.trustedPeers c)
                                             (TransferInfo.peerId t))
                                    (match TransferManagerConfig.secretTTL c with
                                     | Some ttl =>
                                         if ttl =? 0 then None
                                         else Some (clock st (ticks st) + ttl)
                                     | None => None
                                     end)
                                    (Some (last_index (TransferInfo.receivedChunks t) + 1)))))]))
  end.
Proof.
  intros c run. subst run c.
  destruct (transfers st !! id) as [t|] eqn:Ht.
  2:{ unfold resumeTransfer. run_m. by rewrite Ht. }
  split.
  { intros Hs. unfold resumeTransfer. run_m. by rewrite Ht, Hs. }
  intros Hs Hd.
  assert (TransferState.eqb (TransferInfo.state t) TransferState.completed = false) as Hs'
    by (by destruct (TransferInfo.state t)).
  split.
  - intros Hp. unfold resumeTransfer. run_m. rewrite Ht, Hs', Hd. simpl.
    destruct (filePaths st !! id) as [q|]; [|done].
    unfold truthy_path in *. by destruct (truthy_string q).
  - intros [path Hp]. unfold resumeTransfer. run_m. rewrite Ht, Hs', Hd. simpl.
    destruct (filePaths st !! id) as [q|]; [|done].
    unfold truthy_path in *. destruct (truthy_string q); [|done]. run_m.
    rewrite offer_secretTTL_run. simpl.
    destruct (TransferManagerConfig.secretTTL (config st)) as [ttl|]; simpl.
    + destruct (ttl =? 0); simpl; rewrite (alter_Some _ _ _ _ Ht);
        repeat split; try done; by eexists.
    + rewrite (alter_Some _ _ _ _ Ht). repeat split; try done; by eexists.
Qed.

End Resume.
Section ResumeDrops.
Context `{Platform}.

Lemma handleChunk_lacks_first id n msg p s :
  (OCFTMessage.transferId msg = id → ChunkPayload.index p ≠ 0) →
  lacks_first id n s →
  (handleChunk msg p s).1 = Ok tt
  ∧ lacks_first id n (handleChunk msg p s).2
  ∧ files (handleChunk msg p s).2 = files s.
Proof.
  intros Hidx [(t & Ht & Hd) (a & Ha & Hn & H0)].
  destruct (decide (OCFTMessage.transferId msg = id)) as [Heq|Hne].
  - specialize (Hidx Heq). rewrite <-Heq in Ht, Ha.
    rewrite (handleChunk_run s msg p t a Ht Hd Ha). simpl. rewrite Heq.
    split; [done|]. split; [|done]. split.
    + eexists. simpl. rewrite lookup_insert_eq. split; [done|]. simpl.
      by destruct (ChunkAssembler.addChunk _ _ _ _).1.
    + eexists. simpl. rewrite lookup_insert_eq. split; [done|].
      unfold ChunkAssembler.addChunk. destruct (negb _); simpl; [done|].
      split; [done|]. by rewrite lookup_insert_ne.
  - destruct (transfers s !! OCFTMessage.transferId msg) as [t'|] eqn:Ht'.
    2:{ unfold handleChunk. run_m. rewrite Ht'. simpl.
        split; [done|]. split; [|done]. split; eauto. }
    destruct (TransferInfo.direction t') eqn:Hd'.
    { unfold handleChunk. run_m. rewrite Ht'. simpl. rewrite Hd'. simpl.
      split; [done|]. split; [|done]. split; eauto. }
    destruct (assemblers s !! OCFTMessage.transferId msg) as [a'|] eqn:Ha'.
    2:{ unfold handleChunk. run_m. rewrite Ht'. simpl. rewrite Hd'. simpl.
        rewrite Ha'. split; [done|]. split; [|done]. split; eauto. }
    rewrite (handleChunk_run s msg p t' a' Ht' Hd' Ha'). simpl.
    split; [done|]. split; [|done]. split.
    + exists t. simpl. by rewrite lookup_insert_ne.
    + exists a. simpl. by rewrite lookup_insert_ne.
Qed.

Lemma handleChunks_lacks_first id n chunks :
  (∀ msg p, (msg, p) ∈ chunks →
     OCFTMessage.transferId msg = id → ChunkPayload.index p ≠ 0) →
  ∀ s, lacks_first id n s →
       (handleChunks chunks s).1 = Ok tt
       ∧ lacks_first id n (handleChunks chunks s).2
       ∧ files (handleChunks chunks s).2 = files s.
Proof.
  induction chunks as [|[msg p] rest IH]; intros Hidx s Hs; [done|].
  destruct (handleChunk_lacks_first id n msg p s) as (Hok & Hs' & Hf');
    [by apply Hidx; left|done|].
  simpl. unfold bind.
  destruct (handleChunk msg p s) as [[[]|e] s']; [|done]. simpl in *.
  destruct (IH ltac:(intros m q Hm; apply Hidx; by right) s' Hs') as (Hok2 & Hs2 & Hf2).
  by rewrite Hf2.
Qed.

(** X19. Resuming on the receiving side loses what was received. A
    receiver resumes a transfer of at least one chunk for which it has
    recorded an index that is not negative, so that it asks the sender to
    resume at an index above 0. Whatever chunk messages it then handles
    for this transfer from that index on, as asked, the complete message
    makes the transfer [failed] and no file is written: the chunks
    received before the resume went with the replaced assembler. *)
Theorem resume_drops_chunks (st : State) (id : string) (t : TransferInfo.t)
    (chunks : list (OCFTMessage.t * ChunkPayload.t))
    (complete : OCFTMessage.t) (pc : CompletePayload.t) (i : Z) :
  let from := last_index (TransferInfo.receivedChunks t) + 1 in
  let run := (resumeTransfer id ;; handleChunks chunks ;; handleComplete complete pc) st in
  transfers st !! id = Some t →
  TransferInfo.direction t = Direction.receive →
  TransferInfo.state t ≠ TransferState.completed →
  0 < TransferInfo.totalChunks t →
  i ∈ TransferInfo.receivedChunks t →
  0 ≤ i →
  (∀ msg p, (msg, p) ∈ chunks →
     OCFTMessage.transferId msg = id → from ≤ ChunkPayload.index p) →
  OCFTMessage.transferId complete = id →
  run.1 = Ok tt
  ∧ TransferInfo.state <$> transfers run.2 !! id = Some TransferState.failed
  ∧ files run.2 = files st.
Proof.
  intros from run Ht Hd Hs Hn Hi Hi0 Hchunks Hcid.
  destruct (last_index_spec (TransferInfo.receivedChunks t)) as (_ & Hle & _).
  specialize (Hle i Hi).
  assert (resumeTransfer id st
          = acceptTransfer id (Some from)
              (set_transfers
                 (<[id := TransferInfo.set_state TransferState.pending t]>
                    (transfers st)) st)) as Hres.
  { unfold resumeTransfer. run_m. rewrite Ht.
    destruct (TransferInfo.state t); try done; rewrite Hd; simpl;
      by rewrite (alter_Some _ _ _ _ Ht). }
  rewrite (acceptTransfer_run _ id _ (TransferInfo.set_state TransferState.pending t))
    in Hres; try done; [|by apply lookup_insert_eq].
  match type of Hres with _ = (_, ?s) => set (s1 := s) in Hres end.
  assert (lacks_first id (TransferInfo.totalChunks t) s1) as Hs1.
  { split.
    - eexists. simpl. rewrite lookup_insert_eq. by split.
    - eexists. simpl. rewrite lookup_insert_eq. by split. }
  destruct (handleChunks_lacks_first id (TransferInfo.totalChunks t) chunks) with (s := s1)
    as (Hok & [(t2 & Ht2 & Hd2) (a2 & Ha2 & Hn2 & H02)] & Hf2); [|done|].
  { intros msg p Hin Hid. specialize (Hchunks msg p Hin Hid). subst from. lia. }
  assert (run = handleComplete complete pc (handleChunks chunks s1).2) as Hrun.
  { subst run. unfold bind. rewrite Hres.
    by destruct (handleChunks chunks s1) as [[[]|e] s2]. }
  rewrite Hrun. clear Hrun.
  rewrite <-Hcid in Ht2, Ha2.
  rewrite (handleComplete_run _ complete pc t2 a2 Ht2 Hd2 Ha2).
  destruct (AssembleResult.success (ChunkAssembler.assemble a2 _).1) eqn:Hasm.
  { apply assemble_success in Hasm as (Hdom & _).
    assert (is_Some (ChunkAssembler.chunks a2 !! 0)) as [c Hc] by (apply Hdom; lia).
    by rewrite H02 in Hc. }
  simpl. rewrite Hcid, lookup_insert_eq. simpl.
  split; [done|]. split; [done|].
  by rewrite (assemble_failure _ _ Hasm), Hf2.
Qed.

End ResumeDrops.
Section WholeEngine.
Context `{Platform}.

(** X21. The configuration is fixed at construction. No handled message
    and no local call changes it: after any sequence of them a manager has
    the configuration it started with, which for a new manager is the
    caller's object spread over the constructor's defaults. *)
Theorem perform_all_config (calls : list Call) :
  (∀ s, config (perform_all calls s) = config s)
  ∧ (∀ c fs clk,
       config (perform_all calls (TransferManager_new c fs clk))
       = TransferManagerConfig.with_defaults c).
Proof.
  assert (∀ s, config (perform_all calls s) = config s) as Hkeep.
  { induction calls as [|call calls IH]; intros s; [done|]. simpl.
    rewrite IH.
    apply (preserves_perform (λ c _, c = config s)); [by intros ? ? ?|done]. }
  split; [done|]. intros c fs clk. by rewrite Hkeep.
Qed.

Lemma perform_tracked (call : Call) (s : State) (id : string) :
  is_Some (transfers s !! id) → is_Some (transfers (perform call s) !! id).
Proof.
  set (J := λ (_ : TransferManagerConfig.t) (m : gmap string TransferInfo.t),
              is_Some (m !! id)).
  assert (∀ f i c m, keeps f → J c m → J c (alter f i m)) as Hk.
  { intros f i c m _ Hm. unfold J. by apply lookup_alter_is_Some. }
  assert (∀ f i c m, J c m → J c (alter f i m)) as Ha.
  { intros f i c m Hm. unfold J. by apply lookup_alter_is_Some. }
  assert (∀ i t c m, J c m → J c (<[i := t]> m)) as Hi.
  { intros i t c m Hm. unfold J. apply lookup_insert_is_Some.
    destruct (decide (i = id)); [by left|by right]. }
  intros Hs. change (J (config (perform call s)) (transfers (perform call s))).
  destruct call; simpl.
  - unfold handleMessage, dispatch.
    apply (preserves_apply J); [|done]. preserve.
    + apply preserves_handleOffer; [done|]. intros; by apply Hi.
    + by apply preserves_handleAccept.
    + by apply preserves_handleReject.
    + apply preserves_handleChunk; [done|]. intros; by apply Ha.
    + apply preserves_handleAck; [done|]. intros; by apply Ha.
    + by apply preserves_handleComplete.
    + by apply preserves_handleError.
  - by apply (preserves_sendFile J).
  - by apply (preserves_acceptTransfer J Hk).
  - by apply (preserves_rejectTransfer J Hk).
  - by apply (preserves_resumeTransfer J Hk).
Qed.

(** X22. The engine never forgets a transfer. Whatever messages are
    handled and whatever local calls are made, a transfer id that is
    tracked stays tracked: no call removes an entry of the transfer
    table, in whatever state the transfer ends. *)
Theorem perform_all_tracked (calls : list Call) (s : State) (id : string) :
  is_Some (transfers s !! id) →
  is_Some (transfers (perform_all calls s) !! id).
Proof.
  revert s. induction calls as [|call calls IH]; intros s Hs; [done|].
  simpl. apply IH. by apply perform_tracked.
Qed.

End WholeEngine.
Lemma startsWith_append (p s : string) : startsWith (p ++ s)%string p = true.
Proof.
  unfold startsWith. induction p as [|c p IH]; [by destruct s|].
  rewrite append_cons. simpl. by destruct (ascii_dec c c).
Qed.

Lemma slice_append (p s : string) : slice (String.length p) (p ++ s)%string = s.
Proof. induction p as [|c p IH]; [done|]. by rewrite append_cons. Qed.

Section Wire.
Context `{Platform} `{Encoder}.

Lemma decodeFromChat_Some (text : string) (msg : OCFTMessage.t) :
  decodeFromChat text = Some msg →
  startsWith text OCFT_PREFIX = true
  ∧ OCFTMessage.version msg ≠ ""
  ∧ OCFTMessage.transferId msg ≠ "".
Proof.
  unfold decodeFromChat, deserialize.
  destruct (startsWith text OCFT_PREFIX); [|done]. simpl.
  destruct (JSON_parse _) as [m|]; [|done].
  unfold truthy_string.
  destruct (String.eqb_spec (OCFTMessage.version m) ""); [done|].
  destruct (String.eqb_spec (OCFTMessage.transferId m) ""); [done|].
  simpl. by intros [= <-].
Qed.

(** X23. Encoding for chat and decoding again. The text [encodeForChat]
    makes carries the protocol prefix. If [JSON.parse] reads back the
    message [JSON.stringify] wrote and base64 and UTF-8 decoding give
    back the JSON text, then [decodeFromChat] of the encoded message is
    the message itself when its version and its transfer id are not
    empty; a message with an empty version or transfer id is encoded all
    the same, but decoding it gives nothing. Nothing that decodes has an
    empty version or transfer id. *)
Theorem decodeFromChat_encodeForChat (msg : OCFTMessage.t) :
  JSON_parse (JSON_stringify msg) = Some msg →
  Buffer_toString_utf8
    (Buffer_from_base64 (Buffer_toString_base64 (Buffer_from_utf8 (JSON_stringify msg))))
  = JSON_stringify msg →
  startsWith (encodeForChat msg) OCFT_PREFIX = true
  ∧ decodeFromChat (encodeForChat msg)
    = (if truthy_string (OCFTMessage.version msg)
          && truthy_string (OCFTMessage.transferId msg)
       then Some msg else None)
  ∧ ∀ text m, decodeFromChat text = Some m →
              OCFTMessage.version m ≠ "" ∧ OCFTMessage.transferId m ≠ "".
Proof.
  intros Hjson Hb64. unfold encodeForChat, serialize. cbv zeta.
  split; [apply startsWith_append|]. split.
  - unfold decodeFromChat. rewrite startsWith_append.
    change (negb true) with false. cbv iota zeta.
    rewrite slice_append, Hb64. unfold deserialize. by rewrite Hjson.
  - intros text m Hm. by apply decodeFromChat_Some in Hm as (_ & ? & ?).
Qed.

(** X24. What one node encodes, the addressed node handles. Under the same
    assumptions on JSON and base64, for a message with a version and a
    transfer id that are not empty and a [to] field equal to this node's
    id, [handleMessage] on the encoded text runs the handler of the
    message's type and then returns [true] (or throws what the handler
    throws). The sender's id that the transport reports, [fromId], plays
    no part: it is not compared with the message's [from]. *)
Theorem handleMessage_dispatches (st : State) (fromId : string) (msg : OCFTMessage.t) :
  JSON_parse (JSON_stringify msg) = Some msg →
  Buffer_toString_utf8
    (Buffer_from_base64 (Buffer_toString_base64 (Buffer_from_utf8 (JSON_stringify msg))))
  = JSON_stringify msg →
  OCFTMessage.version msg ≠ "" →
  OCFTMessage.transferId msg ≠ "" →
  OCFTMessage.to msg = TransferManagerConfig.botId (config st) →
  handleMessage fromId (encodeForChat msg) st
  = match dispatch msg st with
    | (Ok _, st') => (Ok true, st')
    | (Throw e, st') => (Throw e, st')
    end.
Proof.
  intros Hjson Hb64 Hv Hid Hto.
  assert (decodeFromChat (encodeForChat msg) = Some msg) as Hdec.
  { unfold encodeForChat, serialize, decodeFromChat. cbv zeta.
    rewrite startsWith_append.
    change (negb true) with false. cbv iota zeta.
    rewrite slice_append, Hb64. unfold deserialize. rewrite Hjson.
    unfold truthy_string.
    destruct (String.eqb_spec (OCFTMessage.version msg) ""); [done|].
    by destruct (String.eqb_spec (OCFTMessage.transferId msg) ""). }
  unfold handleMessage. rewrite Hdec.
  replace (startsWith (encodeForChat msg) OCFT_PREFIX) with true
    by (symmetry; apply startsWith_append).
  simpl. run_m. rewrite Hto, String.eqb_refl. simpl.
  by destruct (dispatch msg st) as [[[]|e] st'].
Qed.

End Wire.

Section WireExamples.
Local Existing Instance node.
Local Existing Instance node_encoder.

Example encodeForChat_offer :
  encodeForChat offer_message = chat_text offer_json.
Proof. vm_compute. reflexivity. Qed.

End WireExamples.

(** * The engine on the sample nodes, continued *)

Section ExtraExamples.
Local Existing Instance node.
Local Existing Instance node_encoder.

Example bob_accepted_tracks :
  TransferInfo.state (transfer_of "xfer_demo" bob_accepted) = TransferState.accepted
  ∧ assemblers bob_accepted !! "xfer_demo"
    = Some (ChunkAssembler.new "/downloads/notes.txt" hello_hash 1).
Proof. vm_compute. split; reflexivity. Qed.

Lemma handleChunk_checks_hash_witness :
  let run := handleChunk chunk0_message chunk0_payload bob_accepted in
  run.1 = Ok tt
  ∧ files run.2 = files bob_accepted
  ∧ TransferInfo.state <$> transfers run.2 !! "xfer_demo"
    = Some TransferState.transferring
  ∧ ChunkAssembler.chunks <$> assemblers run.2 !! "xfer_demo"
    = Some (<[0 := list_byte_of_string "hello"]> ∅).
Proof.
  destruct (handleChunk_checks_hash bob_accepted chunk0_message chunk0_payload
              (transfer_of "xfer_demo" bob_accepted)
              (assembler_of "xfer_demo" bob_accepted))
    as (Hok & Hfiles & Hstate & Hgood & _).
  - vm_compute. reflexivity.
  - vm_compute. reflexivity.
  - vm_compute. reflexivity.
  - split; [exact Hok|]. split; [exact Hfiles|]. split; [exact Hstate|].
    destruct Hgood as (Hchunks & _); [vm_compute; reflexivity|].
    exact Hchunks.
Defined.

Lemma handleAck_resends_witness :
  let run := handleAck nack_message nack_payload alice_sending in
  run.1 = Ok tt
  ∧ transfers run.2 = transfers alice_sending
  ∧ sent run.2
    = sent alice_sending
      ++ [("bob",
           OCFTMessage.mk OCFT_VERSION transfer_id "alice" "bob"
             (clock alice_sending (ticks alice_sending))
             (chunk_payload (list_byte_of_string "hello world!") 5 1))].
Proof.
  apply (handleAck_resends alice_sending nack_message nack_payload
           (transfer_of transfer_id alice_sending) "/data/notes.txt"
           (list_byte_of_string "hello world!")).
  - vm_compute. reflexivity.
  - vm_compute. reflexivity.
  - vm_compute. reflexivity.
  - reflexivity.
  - vm_compute. reflexivity.
  - vm_compute. reflexivity.
Defined.

Lemma handleOffer_too_large_witness :
  (handleOffer big_message big_payload bob).1 = Ok tt
  ∧ transfers (handleOffer big_message big_payload bob).2 = transfers bob
  ∧ sent_payloads (handleOffer big_message big_payload bob).2
    = [PReject (RejectPayload.mk "File too large: 200000000 bytes exceeds limit")].
Proof.
  rewrite (handleOffer_too_large bob big_message big_payload 104857600).
  - split; [reflexivity|]. split; [reflexivity|]. vm_compute. reflexivity.
  - reflexivity.
  - discriminate.
  - reflexivity.
Defined.

(** The limit of 100 MB is a default of the constructor: a manager made
    with [maxFileSize: undefined] tracks the offer of 200 MB that [bob],
    made without the key, rejects. *)
Example undefined_maxFileSize_lifts_the_limit :
  TransferManagerConfig.maxFileSize (config bob) = Some 104857600
  ∧ TransferManagerConfig.maxFileSize (config erin) = None
  ∧ transfers (handleOffer big_message big_payload bob).2 !! "xfer_big" = None
  ∧ TransferInfo.size <$> transfers (handleOffer big_message big_payload erin).2 !! "xfer_big"
    = Some 200000000.
Proof. vm_compute. repeat split; reflexivity. Qed.

Lemma acceptTransfer_guard_witness :
  acceptTransfer transfer_id None alice_offering
  = (Throw "Invalid transfer or already processed", alice_offering)
  ∧ rejectTransfer transfer_id "no" alice_offering
    = (Throw "Invalid transfer or already processed", alice_offering).
Proof.
  destruct (acceptTransfer_guard alice_offering transfer_id) as [Hacc Hrej].
  - intros t Ht Hd.
    assert (transfers alice_offering !! transfer_id = Some alice_transfer) as Ht'
      by (vm_compute; reflexivity).
    rewrite Ht' in Ht. injection Ht as <-. discriminate Hd.
  - split; [apply Hacc|apply Hrej].
Defined.

Lemma acceptTransfer_once_witness :
  let run := acceptTransfer "xfer_demo" None bob_pending in
  run.1 = Ok tt
  ∧ assemblers run.2 !! "xfer_demo"
    = Some (ChunkAssembler.new "/downloads/notes.txt" hello_hash 1)
  ∧ (acceptTransfer "xfer_demo" None run.2).1
    = Throw "Invalid transfer or already processed".
Proof.
  destruct (acceptTransfer_once bob_pending "xfer_demo" None
              (transfer_of "xfer_demo" bob_pending))
    as (Hok & _ & Hasm & _ & Hagain & _).
  - vm_compute. reflexivity.
  - vm_compute. reflexivity.
  - vm_compute. reflexivity.
  - split; [exact Hok|]. split; [exact Hasm|]. apply Hagain.
Defined.

Lemma rejectTransfer_once_witness :
  let run := rejectTransfer "xfer_demo" "not now" bob_pending in
  run.1 = Ok tt
  ∧ assemblers run.2 = assemblers bob_pending
  ∧ sent_payloads run.2 = [PReject (RejectPayload.mk "not now")]
  ∧ (acceptTransfer "xfer_demo" None run.2).1
    = Throw "Invalid transfer or already processed".
Proof.
  destruct (rejectTransfer_once bob_pending "xfer_demo" "not now"
              (transfer_of "xfer_demo" bob_pending))
    as (Hok & _ & Hasm & Hsent & _ & Hacc).
  - vm_compute. reflexivity.
  - vm_compute. reflexivity.
  - vm_compute. reflexivity.
  - split; [exact Hok|]. split; [exact Hasm|]. split; [|apply Hacc].
    unfold sent_payloads. rewrite Hsent. vm_compute. reflexivity.
Defined.

Lemma handleComplete_outcome_witness :
  Refusing.handleComplete (λ _, Some "ENOENT: no such file or directory, open")
    complete_message complete_payload bob_receiving
  = (Throw "ENOENT: no such file or directory, open", bob_receiving).
Proof.
  assert (AssembleResult.success
            (ChunkAssembler.assemble (assembler_of "xfer_demo" bob_receiving)
               (files bob_receiving)).1 = true) as Hok by (vm_compute; reflexivity).
  pose proof (handleComplete_outcome (λ _, Some "ENOENT: no such file or directory, open")
                bob_receiving complete_message complete_payload
                (transfer_of "xfer_demo" bob_receiving)
                (assembler_of "xfer_demo" bob_receiving)) as Hrun.
  cbv zeta in Hrun. rewrite Hok in Hrun.
  apply Hrun; vm_compute; reflexivity.
Defined.

(** The same complete message on a disk that takes the write. *)
Example handleComplete_writes :
  let run := handleComplete complete_message complete_payload bob_receiving in
  run.1 = Ok tt
  ∧ TransferInfo.state <$> transfers run.2 !! "xfer_demo" = Some TransferState.completed
  ∧ files run.2 !! "/downloads/notes.txt" = Some (list_byte_of_string "hello").
Proof. vm_compute. repeat split; reflexivity. Qed.

Lemma dispatch_ignores_witness :
  dispatch chunk0_message bob = (Ok tt, bob)
  ∧ dispatch accept_message bob_accepted = (Ok tt, bob_accepted).
Proof.
  split.
  - apply (dispatch_ignores bob chunk0_message). right. reflexivity.
  - apply (dispatch_ignores bob_accepted accept_message). intros t Ht.
    vm_compute in Ht. discriminate Ht.
Defined.

End ExtraExamples.

Section ExtraExamples2.
Local Existing Instance node.
Local Existing Instance node_encoder.

Lemma handleReject_handleError_mark_witness :
  TransferInfo.state
    <$> transfers (handleReject reject_message reject_payload alice_completing).2
        !! transfer_id
  = Some TransferState.rejected
  ∧ TransferInfo.state
      <$> transfers (handleError error_message error_payload alice_completing).2
          !! transfer_id
    = Some TransferState.failed.
Proof.
  destruct (handleReject_handleError_mark alice_completing reject_message
              (transfer_of transfer_id alice_completing)) as [Hrej _];
    [vm_compute; reflexivity|].
  destruct (handleReject_handleError_mark alice_completing error_message
              (transfer_of transfer_id alice_completing)) as [_ Herr];
    [vm_compute; reflexivity|].
  split.
  - rewrite (Hrej reject_payload). simpl. by rewrite lookup_insert_eq.
  - rewrite (Herr error_payload). simpl. by rewrite lookup_insert_eq.
Defined.

Lemma receiver_completes_witness :
  let run := (handleChunks [(chunk0_message, chunk0_payload)]
              ;; handleComplete complete_message complete_payload) bob_accepted in
  run.1 = Ok tt
  ∧ files run.2 = <["/downloads/notes.txt" := list_byte_of_string "hello"]> (files bob_accepted)
  ∧ TransferInfo.state <$> transfers run.2 !! "xfer_demo" = Some TransferState.completed
  ∧ sent_payloads run.2
    = sent_payloads bob_accepted
      ++ [PAck (AckPayload.mk 0 true None)] ++ [PAck (AckPayload.mk (-1) true None)].
Proof.
  destruct (receiver_completes bob_accepted "xfer_demo" "/downloads/notes.txt"
              (list_byte_of_string "hello") 5 (transfer_of "xfer_demo" bob_accepted)
              [(chunk0_message, chunk0_payload)] complete_message complete_payload)
    as (Hok & Hfiles & Hstate & _ & Hsent).
  - lia.
  - vm_compute. reflexivity.
  - vm_compute. reflexivity.
  - vm_compute. reflexivity.
  - reflexivity.
  - intros msg p [[= -> ->]|Hin]%elem_of_cons.
    + split; [reflexivity|]. vm_compute. reflexivity.
    + by apply elem_of_nil in Hin.
  - intros i. change (Math_ceil_div (Z.of_nat (length (list_byte_of_string "hello"))) 5)
      with 1.
    simpl. rewrite list_elem_of_singleton. lia.
  - intros i Hi.
    change (Math_ceil_div (Z.of_nat (length (list_byte_of_string "hello"))) 5)
      with 1 in Hi.
    assert (i = 0) as -> by lia. vm_compute. reflexivity.
  - split; [exact Hok|]. split; [exact Hfiles|]. split; [exact Hstate|]. exact Hsent.
Defined.

Lemma offer_trusted_peer_witness :
  let run := handleOffer plain_message plain_payload carol in
  run.1 = Ok tt
  ∧ TransferInfo.state <$> transfers run.2 !! "xfer_demo" = Some TransferState.accepted
  ∧ is_Some (assemblers run.2 !! "xfer_demo")
  ∧ sent_payloads run.2 = sent_payloads carol ++ [PAccept (AcceptPayload.mk true None)].
Proof.
  apply (proj1 (offer_trusted_peer carol plain_message plain_payload
                  eq_refl (or_introl eq_refl) eq_refl) None).
  - reflexivity.
  - left. reflexivity.
Defined.

Lemma resumeTransfer_receiver_witness :
  let run := resumeTransfer "xfer_demo" bob_receiving in
  TransferInfo.receivedChunks (transfer_of "xfer_demo" bob_receiving) = {[0]}
  ∧ run.1 = Ok tt
  ∧ assemblers run.2 !! "xfer_demo"
    = Some (ChunkAssembler.new "/downloads/notes.txt" hello_hash 1)
  ∧ sent_payloads run.2
    = sent_payloads bob_receiving ++ [PAccept (AcceptPayload.mk true (Some 1))].
Proof.
  destruct (resumeTransfer_receiver bob_receiving "xfer_demo"
              (transfer_of "xfer_demo" bob_receiving))
    as (Hok & _ & Hasm & Hsent & _).
  - vm_compute. reflexivity.
  - vm_compute. reflexivity.
  - vm_compute. discriminate.
  - split; [vm_compute; reflexivity|]. split; [exact Hok|]. split.
    + refine (eq_trans Hasm _). vm_compute. reflexivity.
    + unfold sent_payloads. cbv zeta in Hsent. rewrite Hsent, fmap_app.
      reflexivity.
Defined.

Lemma resume_drops_chunks_witness :
  let run := (resumeTransfer "xfer_demo" ;; handleChunks []
              ;; handleComplete complete_message complete_payload) bob_receiving in
  run.1 = Ok tt
  ∧ TransferInfo.state <$> transfers run.2 !! "xfer_demo" = Some TransferState.failed
  ∧ files run.2 = files bob_receiving.
Proof.
  apply (resume_drops_chunks bob_receiving "xfer_demo"
           (transfer_of "xfer_demo" bob_receiving) [] complete_message
           complete_payload 0).
  - vm_compute. reflexivity.
  - vm_compute. reflexivity.
  - vm_compute. discriminate.
  - vm_compute. reflexivity.
  - vm_compute. reflexivity.
  - lia.
  - intros msg p Hin. exfalso. by apply elem_of_nil in Hin.
  - reflexivity.
Defined.

Lemma perform_all_tracked_witness :
  is_Some (transfers (perform_all [ call_handleMessage "alice" (chat_text chunk0_json);
                                    call_rejectTransfer "xfer_demo" "late" ]
                        bob_accepted) !! "xfer_demo").
Proof.
  apply (perform_all_tracked _ bob_accepted "xfer_demo").
  vm_compute. eexists. reflexivity.
Defined.

Lemma decodeFromChat_encodeForChat_witness :
  startsWith (encodeForChat offer_message) OCFT_PREFIX = true
  ∧ decodeFromChat (encodeForChat offer_message) = Some offer_message.
Proof.
  destruct (decodeFromChat_encodeForChat offer_message) as (Hpre & Hdec & _).
  - vm_compute. reflexivity.
  - vm_compute. reflexivity.
  - split; [exact Hpre|exact Hdec].
Defined.

Lemma handleMessage_dispatches_witness :
  handleMessage "mallory" (encodeForChat offer_message) bob
  = match dispatch offer_message bob with
    | (Ok _, st') => (Ok true, st')
    | (Throw e, st') => (Throw e, st')
    end.
Proof.
  apply (handleMessage_dispatches bob "mallory" offer_message).
  - vm_compute. reflexivity.
  - vm_compute. reflexivity.
  - discriminate.
  - discriminate.
  - reflexivity.
Defined.

End ExtraExamples2.

(** * What holds of the transfer table, continued *)

Lemma well_kept_alter_steady f id c m :
  steady f → well_kept c m → well_kept c (alter f id m).
Proof.
  intros Hf Hm id' t' Ht'.
  apply lookup_alter_Some in Ht' as [(-> & t & Ht & ->)|[_ Ht']]; [|by apply Hm].
  destruct (Hf t) as (-> & -> & ->). by apply Hm.
Qed.

Lemma well_kept_at_alter_steady id' f id c m :
  steady f → well_kept_at id' c m → well_kept_at id' c (alter f id m).
Proof.
  intros Hf [Hm Hd]. split; [by apply well_kept_alter_steady|].
  intros t' Ht'.
  apply lookup_alter_Some in Ht' as [(-> & t & Ht & ->)|[_ Ht']]; [|by apply Hd].
  destruct (Hf t) as (_ & -> & _). by apply Hd.
Qed.

Lemma well_kept_at_alter_resumable id v c m :
  well_kept_at id c m → well_kept_at id c (alter (TransferInfo.set_resumable v) id m).
Proof.
  intros [Hm Hd]. split.
  - intros id' t' Ht'.
    apply lookup_alter_Some in Ht' as [(-> & t & Ht & ->)|[_ Ht']]; [|by apply Hm].
    simpl. split; [by apply (Hm _ _ Ht)|]. intros _. by apply Hd.
  - intros t' Ht'.
    apply lookup_alter_Some in Ht' as [(_ & t & Ht & ->)|[_ Ht']]; [|by apply Hd].
    simpl. by apply Hd.
Qed.

Lemma well_kept_insert id t c m :
  TransferInfo.id t = id → TransferInfo.resumable t = false →
  well_kept c m → well_kept c (<[id := t]> m).
Proof.
  intros Hid Hr Hm id' t' Ht'.
  apply lookup_insert_Some in Ht' as [[-> <-]|[_ Ht']]; [|by apply Hm].
  split; [done|]. by rewrite Hr.
Qed.

Ltac preserve_steady K :=
  repeat (preserve_step; try (intros ? ?; apply K; intros ?; repeat split; reflexivity)).

Section Steady.
Context `{Platform}.

Lemma acceptTransfer_well_kept id r : preserves well_kept (acceptTransfer id r).
Proof.
  intros s Hs. unfold acceptTransfer. apply preserves_bind_get.
  destruct (transfers s !! id) as [t|] eqn:Ht; [|done]. simpl.
  destruct (TransferInfo.direction t) eqn:Hd; [done|]. simpl.
  destruct (negb _); [done|].
  assert (well_kept_at id (config s) (transfers s)) as Hat.
  { split; [done|]. intros t' Ht'. rewrite Ht in Ht'. by injection Ht' as <-. }
  match goal with
  | |- well_kept (config ?r.2) (transfers ?r.2) =>
      enough (well_kept_at id (config r.2) (transfers r.2)) as [? _]; [done|]
  end.
  apply (preserves_apply (well_kept_at id)); [|done].
  preserve_steady (well_kept_at_alter_steady id).
  intros c m. apply well_kept_at_alter_resumable.
Qed.

Lemma rejectTransfer_well_kept id r : preserves well_kept (rejectTransfer id r).
Proof. unfold rejectTransfer. preserve_steady well_kept_alter_steady. Qed.

Lemma handleAccept_well_kept msg p : preserves well_kept (handleAccept msg p).
Proof.
  unfold handleAccept. preserve_steady well_kept_alter_steady.
  apply preserves_sendNextChunk.
Qed.

Lemma handleReject_well_kept msg p : preserves well_kept (handleReject msg p).
Proof. unfold handleReject. preserve_steady well_kept_alter_steady. Qed.

Lemma handleError_well_kept msg p : preserves well_kept (handleError msg p).
Proof. unfold handleError. preserve_steady well_kept_alter_steady. Qed.

Lemma handleComplete_well_kept msg p : preserves well_kept (handleComplete msg p).
Proof. unfold handleComplete. preserve_steady well_kept_alter_steady. Qed.

Lemma handleChunk_well_kept msg p : preserves well_kept (handleChunk msg p).
Proof. unfold handleChunk. preserve_steady well_kept_alter_steady. Qed.

Lemma handleAck_well_kept msg p : preserves well_kept (handleAck msg p).
Proof.
  unfold handleAck. preserve_steady well_kept_alter_steady;
    apply preserves_sendNextChunk.
Qed.

Lemma resumeTransfer_well_kept id : preserves well_kept (resumeTransfer id).
Proof.
  unfold resumeTransfer. preserve_steady well_kept_alter_steady;
    try apply acceptTransfer_well_kept;
    try apply preserves_getPeerSecret; try apply preserves_offer_secretTTL.
Qed.

Lemma handleOffer_well_kept msg p : preserves well_kept (handleOffer msg p).
Proof.
  unfold handleOffer. preserve_steady well_kept_alter_steady;
    try apply acceptTransfer_well_kept;
    try apply preserves_isValidSecret; try apply preserves_isPeerTrustValid.
  intros c m. by apply well_kept_insert.
Qed.

Lemma sendFile_well_kept peerId path nano : preserves well_kept (sendFile peerId path nano).
Proof.
  unfold sendFile. preserve_steady well_kept_alter_steady;
    try apply preserves_getPeerSecret; try apply preserves_offer_secretTTL.
  intros c m. by apply well_kept_insert.
Qed.

Lemma perform_well_kept call s :
  well_kept (config s) (transfers s) →
  well_kept (config (perform call s)) (transfers (perform call s)).
Proof.
  destruct call; simpl.
  - apply (preserves_apply well_kept). unfold handleMessage, dispatch. preserve.
    + apply handleOffer_well_kept.
    + apply handleAccept_well_kept.
    + apply handleReject_well_kept.
    + apply handleChunk_well_kept.
    + apply handleAck_well_kept.
    + apply handleComplete_well_kept.
    + apply handleError_well_kept.
  - apply sendFile_well_kept.
  - apply acceptTransfer_well_kept.
  - apply rejectTransfer_well_kept.
  - apply resumeTransfer_well_kept.
Qed.

Lemma perform_all_well_kept calls s :
  well_kept (config s) (transfers s) →
  well_kept (config (perform_all calls s)) (transfers (perform_all calls s)).
Proof.
  revert s. induction calls as [|call calls IH]; intros s Hs; [done|].
  simpl. apply IH. by apply perform_well_kept.
Qed.

End Steady.

Section Listing.
Context `{Platform}.

Lemma elem_of_listTransfers (s : State) (t : TransferInfo.t) :
  t ∈ listTransfers s ↔ ∃ id, transfers s !! id = Some t.
Proof.
  unfold listTransfers. rewrite list_elem_of_fmap. split.
  - intros [[id t'] [-> Hin%elem_of_map_to_list]]. by exists id.
  - intros [id Hid]. exists (id, t). split; [done|]. by apply elem_of_map_to_list.
Qed.

(** X25. The transfers [listTransfers] lists are the ones [getTransfer]
    finds. After any sequence of handled messages and local calls on a
    new manager, every tracked transfer is stored under its own [id]: a
    transfer is listed exactly when [getTransfer] returns it for its id,
    and the list has one entry for each tracked id. *)
Theorem listTransfers_getTransfer (c : TransferManagerConfig.t) (fs : Files)
    (clk : nat → Z) (calls : list Call) :
  let s := perform_all calls (TransferManager_new c fs clk) in
  (∀ t, t ∈ listTransfers s ↔ getTransfer (TransferInfo.id t) s = Some t)
  ∧ (∀ id t, getTransfer id s = Some t → TransferInfo.id t = id)
  ∧ length (listTransfers s) = size (transfers s).
Proof.
  intros s.
  assert (well_kept (config s) (transfers s)) as Hs.
  { apply perform_all_well_kept. intros id t. simpl. by rewrite lookup_empty. }
  split; [|split].
  - intros t. rewrite elem_of_listTransfers. unfold getTransfer. split.
    + intros [id Hid]. destruct (Hs id t Hid) as [-> _]. done.
    + intros Ht. by eexists.
  - intros id t Ht. by apply (Hs id t Ht).
  - unfold listTransfers. by rewrite length_fmap, length_map_to_list.
Qed.

(** X26. Only incoming transfers are listed as resumable. After any
    sequence of handled messages and local calls on a new manager, a
    transfer is in [getResumableTransfers] exactly when it is tracked, is
    marked resumable, is neither [completed] nor [rejected] and has a
    recorded index; and every such transfer is of direction [receive],
    since only accepting marks a transfer resumable. A transfer of
    direction [send] is never listed, although [resumeTransfer] resumes
    it; a [failed] or [cancelled] incoming one is. *)
Theorem getResumableTransfers_incoming (c : TransferManagerConfig.t) (fs : Files)
    (clk : nat → Z) (calls : list Call) (t : TransferInfo.t) :
  let s := perform_all calls (TransferManager_new c fs clk) in
  (t ∈ getResumableTransfers s
   ↔ getTransfer (TransferInfo.id t) s = Some t
     ∧ TransferInfo.resumable t = true
     ∧ TransferInfo.state t ≠ TransferState.completed
     ∧ TransferInfo.state t ≠ TransferState.rejected
     ∧ TransferInfo.receivedChunks t ≠ ∅)
  ∧ (t ∈ getResumableTransfers s → TransferInfo.direction t = Direction.receive).
Proof.
  intros s.
  assert (well_kept (config s) (transfers s)) as Hs.
  { apply perform_all_well_kept. intros id t'. simpl. by rewrite lookup_empty. }
  assert (t ∈ getResumableTransfers s
          ↔ (∃ id, transfers s !! id = Some t)
            ∧ TransferInfo.resumable t = true
            ∧ TransferInfo.state t ≠ TransferState.completed
            ∧ TransferInfo.state t ≠ TransferState.rejected
            ∧ TransferInfo.receivedChunks t ≠ ∅) as Hin.
  { unfold getResumableTransfers.
    rewrite list_elem_of_In, filter_In, <-list_elem_of_In, elem_of_listTransfers.
    rewrite !andb_true_iff, !negb_true_iff, Z.ltb_lt.
    assert (0 < Z.of_nat (size (TransferInfo.receivedChunks t))
            ↔ TransferInfo.receivedChunks t ≠ ∅) as ->.
    { pose proof (size_non_empty_iff (TransferInfo.receivedChunks t)) as Hne.
      rewrite <-(leibniz_equiv_iff (TransferInfo.receivedChunks t) ∅), <-Hne. lia. }
    assert (∀ v, TransferState.eqb (TransferInfo.state t) v = false
                 ↔ TransferInfo.state t ≠ v) as Heqb.
    { intros v. destruct (TransferInfo.state t), v; simpl; split; congruence. }
    rewrite !Heqb. tauto. }
  split.
  - rewrite Hin. unfold getTransfer. split.
    + intros ([id Hid] & Hrest). destruct (Hs id t Hid) as [-> _]. done.
    + intros (Ht & Hrest). split; [by eexists|done].
  - intros ([id Hid] & Hr & _)%Hin. by apply (Hs id t Hid).
Qed.

End Listing.

(** * Two nodes wired back to back *)

Lemma addressed_to_snoc dest l m :
  addressed_to dest (l ++ [(dest, m)]) = addressed_to dest l ++ [m].
Proof.
  unfold addressed_to. rewrite List.filter_app, fmap_app. simpl.
  by rewrite String.eqb_refl.
Qed.

Lemma carries_snoc id from to_ msgs ps m p :
  carries id from to_ msgs ps →
  OCFTMessage.transferId m = id → OCFTMessage.from m = from →
  OCFTMessage.to m = to_ → OCFTMessage.payload m = p →
  carries id from to_ (msgs ++ [m]) (ps ++ [p]).
Proof.
  intros Hc ? ? ? ?. apply Forall2_app; [done|]. by repeat constructor.
Qed.

Lemma carries_lookup id from to_ msgs ps (i : nat) p :
  carries id from to_ msgs ps → ps !! i = Some p →
  ∃ m, msgs !! i = Some m
       ∧ OCFTMessage.transferId m = id ∧ OCFTMessage.from m = from
       ∧ OCFTMessage.to m = to_ ∧ OCFTMessage.payload m = p.
Proof.
  intros Hc Hp. destruct (Forall2_lookup_r _ _ _ _ _ Hc Hp) as (m & Hm & Hmp).
  by exists m.
Qed.

Lemma carries_length id from to_ msgs ps :
  carries id from to_ msgs ps → length msgs = length ps.
Proof. apply Forall2_length. Qed.

Lemma carries_payloads id from to_ msgs ps :
  carries id from to_ msgs ps → OCFTMessage.payload <$> msgs = ps.
Proof.
  induction 1 as [|m p msgs ps (_ & _ & _ & Hp) _ IH]; [done|].
  cbn. by rewrite Hp, IH.
Qed.

Section SessionSteps.
Context `{Platform}.

Lemma receive_run msg s :
  OCFTMessage.to msg = TransferManagerConfig.botId (config s) →
  receive msg s
  = match dispatch msg s with
    | (Ok _, s') => (Ok true, s')
    | (Throw e, s') => (Throw e, s')
    end.
Proof.
  intros Hto. unfold receive. run_m. rewrite Hto, String.eqb_refl. simpl.
  by destruct (dispatch msg s) as [[[]|e] s'].
Qed.

End SessionSteps.

Section SessionProof.
Context `{Platform}.
Variables (ca cb : TransferManagerConfig.t) (fs_a fs_b : Files).
Variables (id path out : string) (data : list byte) (cs : Z) (offer : Payload).
Let pa := TransferManagerConfig.botId ca.
Let pb := TransferManagerConfig.botId cb.
Let n := Math_ceil_div (Z.of_nat (length data)) cs.
Hypothesis Hcs : 0 < cs.
Hypothesis Hfile : readFile fs_a path = Ok data.
Hypothesis Hb64 :
  ∀ i, 0 ≤ i < n →
       Buffer_from_base64 (Buffer_toString_base64 (chunk_bytes data i cs))
       = chunk_bytes data i cs.

Lemma exchange_chunk (k f : nat) (a b : State) :
  Z.of_nat k < n →
  sender_at ca fs_a id path pb data cs offer k a →
  receiver_at cb fs_b id out pa data cs k b →
  ∃ b', exchange (S f) a b (S k) (S k) = exchange f a b' (S k) (S (S k))
        ∧ receiver_at cb fs_b id out pa data cs (S k) b'.
Proof.
  intros Hk (Hca & Hfa & Hpa & (ta & Hta & Hda & Hpeer & Hna & Hcsa & Hha & Hsa) & Hcar_a)
    (Hcb & Hfb & (tb & Htb & Hdb) & (ab & Hab & Hhb & Hnb & Hob & Hchunks) & Hcar_b).
  fold n in Hna, Hnb, Hcar_a, Hsa.
  rewrite (proj2 (Z.eqb_neq (Z.of_nat k) n)) in Hcar_a, Hsa by lia.
  rewrite Z.min_l, app_nil_r in Hcar_a by lia.
  (* nothing is left for [a] *)
  assert (inbox a b !! S k = None) as Hnone.
  { apply lookup_ge_None. unfold inbox. rewrite Hca. fold pa.
    rewrite (carries_length _ _ _ _ _ Hcar_b). simpl.
    rewrite length_fmap, length_seqZ. lia. }
  (* the next message for [b] is chunk [k] *)
  destruct (carries_lookup _ _ _ _ _ (S k) (chunk_payload data cs (Z.of_nat k)) Hcar_a)
    as (m & Hm & Hmid & Hmfrom & Hmto & Hmp).
  { simpl. rewrite list_lookup_fmap, lookup_seqZ_lt by lia. simpl. by rewrite Z.add_0_l. }
  assert (inbox b a !! S k = Some m) as Hsome.
  { unfold inbox. rewrite Hcb. by fold pb. }
  cbn [exchange]. rewrite Hnone, Hsome.
  rewrite receive_run by (by rewrite Hmto, Hcb).
  unfold dispatch. rewrite Hmp. unfold chunk_payload.
  rewrite <-Hmid in Htb, Hab.
  rewrite (handleChunk_run b m _ tb ab Htb Hdb Hab). cbn [ChunkPayload.data ChunkPayload.index ChunkPayload.hash].
  rewrite Hb64 by lia. rewrite addChunk_matching. cbv beta iota zeta. cbn [fst snd].
  eexists. split; [reflexivity|].
  split; [done|]. split; [done|]. split; [|split].
  - eexists. cbn [transfers]. rewrite Hmid, lookup_insert_eq. by split.
  - eexists. cbn [assemblers]. rewrite Hmid, lookup_insert_eq.
    split; [done|]. cbn. split; [done|]. split; [done|]. split; [done|].
    intros i. destruct (decide (i = Z.of_nat k)) as [->|Hne].
    + rewrite lookup_insert_eq. by rewrite decide_True by lia.
    + rewrite lookup_insert_ne by done. rewrite Hchunks.
      destruct (decide (0 ≤ i < Z.of_nat k)).
      * by rewrite decide_True by lia.
      * by rewrite decide_False by lia.
  - cbn [sent config]. rewrite Hmfrom. fold pa. rewrite addressed_to_snoc.
    rewrite Hcb, Nat2Z.inj_succ, <-Z.add_1_r.
    rewrite (seqZ_app 0 (Z.of_nat k) 1), fmap_app by lia.
    change (seqZ (0 + Z.of_nat k) 1) with [0 + Z.of_nat k]. rewrite Z.add_0_l.
    rewrite app_comm_cons. apply carries_snoc; try done.
Qed.

Lemma exchange_ack (k f : nat) (a b : State) :
  Z.of_nat k < n →
  sender_at ca fs_a id path pb data cs offer k a →
  receiver_at cb fs_b id out pa data cs (S k) b →
  ∃ a', exchange (S f) a b (S k) (S (S k)) = exchange f a' b (S (S k)) (S (S k))
        ∧ sender_at ca fs_a id path pb data cs offer (S k) a'.
Proof.
  intros Hk (Hca & Hfa & Hpa & (ta & Hta & Hda & Hpeer & Hna & Hcsa & Hha & Hsa) & Hcar_a)
    (Hcb & Hfb & (tb & Htb & Hdb) & (ab & Hab & Hhb & Hnb & Hob & Hchunks) & Hcar_b).
  fold n in Hna, Hnb, Hcar_a, Hsa.
  rewrite (proj2 (Z.eqb_neq (Z.of_nat k) n)) in Hcar_a, Hsa by lia.
  rewrite Z.min_l, app_nil_r in Hcar_a by lia.
  (* the next message for [a] is the acknowledgement of chunk [k] *)
  destruct (carries_lookup _ _ _ _ _ (S k)
              (PAck (AckPayload.mk (Z.of_nat k) true None)) Hcar_b)
    as (m & Hm & Hmid & Hmfrom & Hmto & Hmp).
  { simpl. rewrite list_lookup_fmap, lookup_seqZ_lt by lia. simpl.
    by rewrite Z.add_0_l. }
  assert (inbox a b !! S k = Some m) as Hsome.
  { unfold inbox. rewrite Hca. by fold pa. }
  cbn [exchange]. rewrite Hsome.
  rewrite receive_run by (by rewrite Hmto, Hca).
  unfold dispatch. rewrite Hmp.
  rewrite <-Hmid in Hta, Hpa. rewrite <-Hfa in Hfile.
  rewrite (handleAck_received a m _ ta path data Hta Hda); try done;
    [|by unfold finishing; rewrite Hsa].
  cbn [AckPayload.index]. rewrite Hna.
  destruct (Z.ltb_spec (Z.of_nat k + 1) n) as [Hlt|Hge].
  - eexists. split; [reflexivity|]. unfold sender_at. fold n.
    rewrite (proj2 (Z.eqb_neq (Z.of_nat (S k)) n)) by lia.
    rewrite Z.min_l, app_nil_r by lia.
    split; [done|]. split; [done|]. split; [by rewrite <-Hmid|]. split.
    + eexists. cbn [transfers]. rewrite Hmid, lookup_insert_eq.
      split; [done|]. by cbn.
    + cbn [sent]. rewrite Hpeer, addressed_to_snoc.
      replace (Z.of_nat (S k) + 1) with (Z.of_nat k + 1 + 1) by lia.
      rewrite (seqZ_app 0 (Z.of_nat k + 1) 1), fmap_app by lia.
      change (seqZ (0 + (Z.of_nat k + 1)) 1) with [0 + (Z.of_nat k + 1)].
      rewrite Z.add_0_l, app_comm_cons.
      apply carries_snoc; try done; [by rewrite Hca|by rewrite Hcsa].
  - assert (Z.of_nat k + 1 = n) as Hlast by lia.
    eexists. split; [reflexivity|]. unfold sender_at. fold n.
    rewrite (proj2 (Z.eqb_eq (Z.of_nat (S k)) n)) by lia.
    rewrite Z.min_r by lia.
    split; [done|]. split; [done|]. split; [by rewrite <-Hmid|]. split.
    + eexists. cbn [transfers]. rewrite Hmid, lookup_insert_eq.
      split; [done|]. by cbn.
    + cbn [sent]. rewrite Hpeer, addressed_to_snoc.
      rewrite <-Hlast. rewrite app_comm_cons.
      apply carries_snoc; try done; [by rewrite Hca|by rewrite Hha].
Qed.

Lemma exchange_chunks (j : nat) :
  ∀ (k f : nat) (a b : State),
    Z.of_nat (k + j) = n →
    sender_at ca fs_a id path pb data cs offer k a →
    receiver_at cb fs_b id out pa data cs k b →
    ∃ a' b',
      exchange (2 * j + f) a b (S k) (S k) = exchange f a' b' (S (k + j)) (S (k + j))
      ∧ sender_at ca fs_a id path pb data cs offer (k + j)%nat a'
      ∧ receiver_at cb fs_b id out pa data cs (k + j)%nat b'.
Proof.
  induction j as [|j IH]; intros k f a b Hn Ha Hb.
  - exists a, b. by rewrite Nat.add_0_r.
  - destruct (exchange_chunk k (S (2 * j + f)) a b) as (b1 & Hstep1 & Hb1);
      [lia|done|done|].
    destruct (exchange_ack k (2 * j + f) a b1) as (a1 & Hstep2 & Ha1);
      [lia|done|done|].
    destruct (IH (S k) f a1 b1) as (a' & b' & Hrest & Ha' & Hb');
      [lia|done|done|].
    exists a', b'.
    replace (2 * S j + f)%nat with (S (S (2 * j + f))) by lia.
    rewrite Hstep1, Hstep2, Hrest.
    by replace (k + S j)%nat with (S k + j)%nat by lia.
Qed.

Lemma exchange_complete (kn f : nat) (a b : State) :
  Z.of_nat kn = n →
  sender_at ca fs_a id path pb data cs offer kn a →
  receiver_at cb fs_b id out pa data cs kn b →
  ∃ b', exchange (S f) a b (S kn) (S kn) = exchange f a b' (S kn) (S (S kn))
        ∧ receiver_done cb fs_b id out pa data cs b'.
Proof.
  intros Hkn (Hca & Hfa & Hpa & (ta & Hta & Hda & Hpeer & Hna & Hcsa & Hha & Hsa) & Hcar_a)
    (Hcb & Hfb & (tb & Htb & Hdb) & (ab & Hab & Hhb & Hnb & Hob & Hchunks) & Hcar_b).
  fold n in Hna, Hnb, Hcar_a, Hsa.
  rewrite (proj2 (Z.eqb_eq (Z.of_nat kn) n)) in Hcar_a, Hsa by done.
  rewrite Z.min_r in Hcar_a by lia.
  assert (0 ≤ n) as Hn0 by lia.
  assert (inbox a b !! S kn = None) as Hnone.
  { apply lookup_ge_None. unfold inbox. rewrite Hca. fold pa.
    rewrite (carries_length _ _ _ _ _ Hcar_b). simpl.
    rewrite length_fmap, length_seqZ. lia. }
  destruct (carries_lookup _ _ _ _ _ (S kn)
              (PComplete (CompletePayload.mk n (sha256 data))) Hcar_a)
    as (m & Hm & Hmid & Hmfrom & Hmto & Hmp).
  { simpl. rewrite lookup_app_r; rewrite length_fmap, length_seqZ; [|lia].
    by replace (kn - Z.to_nat n)%nat with 0%nat by lia. }
  assert (inbox b a !! S kn = Some m) as Hsome.
  { unfold inbox. rewrite Hcb. by fold pb. }
  cbn [exchange]. rewrite Hnone, Hsome.
  rewrite receive_run by (by rewrite Hmto, Hcb).
  unfold dispatch. rewrite Hmp.
  rewrite <-Hmid in Htb, Hab.
  rewrite (handleComplete_run b m _ tb ab Htb Hdb Hab).
  assert (∀ i, 0 ≤ i < n →
            ChunkAssembler.chunks ab !! i = Some (chunk_bytes data i cs)) as Hin.
  { intros i Hi. rewrite Hchunks. by rewrite decide_True by lia. }
  assert (in_order ab = data) as Horder.
  { unfold in_order. rewrite Hnb.
    rewrite (omap_all _ (λ i, chunk_bytes data i cs)).
    - by apply concat_all_chunk_bytes.
    - intros i Hi%elem_of_seqZ. apply Hin. lia. }
  rewrite (assemble_complete ab (files b)).
  2:{ intros i. rewrite Hnb, Hchunks. destruct (decide (0 ≤ i < Z.of_nat kn)).
      - split; [lia|by eexists].
      - split; [by intros [? ?]|lia]. }
  2:{ by rewrite Hnb. }
  2:{ by rewrite Horder, Hhb. }
  cbv beta iota zeta. cbn [fst snd AssembleResult.success AssembleResult.error].
  eexists. split; [reflexivity|].
  split; [done|]. split; [by rewrite Hob, Horder, Hfb|]. split.
  - eexists. cbn [transfers]. rewrite Hmid, lookup_insert_eq. by split.
  - cbn [sent]. rewrite Hmfrom. fold pa. rewrite addressed_to_snoc.
    fold n. rewrite <-Hkn.
    apply carries_snoc; try done. by rewrite Hcb.
Qed.

Lemma exchange_final (kn f : nat) (a b : State) :
  Z.of_nat kn = n →
  sender_at ca fs_a id path pb data cs offer kn a →
  receiver_done cb fs_b id out pa data cs b →
  ∃ a', exchange (S f) a b (S kn) (S (S kn)) = (a', b)
        ∧ files a' = fs_a
        ∧ TransferInfo.state <$> transfers a' !! id = Some TransferState.completed
        ∧ sent a' = sent a.
Proof.
  intros Hkn (Hca & Hfa & Hpa & (ta & Hta & Hda & Hpeer & Hna & Hcsa & Hha & Hsa) & Hcar_a)
    (Hcb & Hfb & (tb & Htb & Hdb & Hsb) & Hcar_b).
  fold n in Hna, Hcar_a, Hcar_b, Hsa.
  rewrite (proj2 (Z.eqb_eq (Z.of_nat kn) n)) in Hcar_a, Hsa by done.
  rewrite Z.min_r in Hcar_a by lia.
  assert (0 ≤ n) as Hn0 by lia.
  destruct (carries_lookup _ _ _ _ _ (S kn)
              (PAck (AckPayload.mk (-1) true None)) Hcar_b)
    as (m & Hm & Hmid & Hmfrom & Hmto & Hmp).
  { simpl. rewrite lookup_app_r; rewrite length_fmap, length_seqZ; [|lia].
    by replace (kn - Z.to_nat n)%nat with 0%nat by lia. }
  assert (inbox a b !! S kn = Some m) as Hsome.
  { unfold inbox. rewrite Hca. by fold pa. }
  cbn [exchange]. rewrite Hsome.
  rewrite receive_run by (by rewrite Hmto, Hca).
  unfold dispatch. rewrite Hmp.
  rewrite <-Hmid in Hta.
  rewrite (handleAck_finishing a m _ ta Hta Hda)
    by (unfold finishing; by rewrite Hsa).
  cbn [AckPayload.index]. change (-1 =? -1) with true. cbv iota.
  eexists. split.
  - destruct f as [|f]; [reflexivity|]. cbn [exchange].
    assert (∀ l : list OCFTMessage.t, length l = S (S kn) → l !! S (S kn) = None) as Hend.
    { intros l Hl. apply lookup_ge_None. lia. }
    rewrite !Hend; [reflexivity| |].
    + unfold inbox. cbn [config sent]. rewrite Hcb. fold pb.
      rewrite (carries_length _ _ _ _ _ Hcar_a). simpl.
      rewrite length_app, length_fmap, length_seqZ. simpl. lia.
    + unfold inbox. cbn [config sent]. rewrite Hca. fold pa.
      rewrite (carries_length _ _ _ _ _ Hcar_b). simpl.
      rewrite length_app, length_fmap, length_seqZ. simpl. lia.
  - cbn [files transfers sent]. rewrite Hmid, lookup_insert_eq. by repeat split.
Qed.

End SessionProof.

Section SendFileRun.
Context `{Platform}.

Lemma sendFile_run st peerId path nano info :
  let id := ("xfer_" ++ nano)%string in
  let c := config st in
  let timed := match TransferManagerConfig.secretTTL c with
               | Some t => negb (t =? 0)
               | None => false
               end in
  let k := if timed then S (S (S (ticks st))) else S (S (ticks st)) in
  getFileInfo (files st) path
    (default DEFAULT_CHUNK_SIZE (TransferManagerConfig.chunkSize c)) = Ok info →
  sendFile peerId path nano st
  = (Ok id,
     mkState c
       (<[id := TransferInfo.mk id Direction.send TransferState.pending peerId
                  (FileInfo.filename info) (FileInfo.size info)
                  (FileInfo.mimeType info) (FileInfo.hash info)
                  (FileInfo.chunkSize info) (FileInfo.totalChunks info) ∅
                  (clock st (ticks st)) (clock st (S (ticks st)))
                  None None (Some path) false]> (transfers st))
       (assemblers st) (<[id := path]> (filePaths st)) (files st)
       (sent st
        ++ [(peerId,
             OCFTMessage.mk OCFT_VERSION id (TransferManagerConfig.botId c) peerId
               (clock st k)
               (POffer (OfferPayload.mk
                          (FileInfo.filename info) (FileInfo.size info)
                          (FileInfo.mimeType info) (FileInfo.hash info)
                          (FileInfo.chunkSize info) (FileInfo.totalChunks info)
                          (TrustedPeer.secret
                             <$> find_peer (TransferManagerConfig.trustedPeers c) peerId)
                          (match TransferManagerConfig.secretTTL c with
                           | Some t =>
                               if t =? 0 then None
                               else Some (clock st (S (S (ticks st))) + t)
                           | None => None
                           end)
                          None)))])
       (emitted st ++ [offer_sent id]) (clock st) (S k)).
Proof.
  intros id c timed k Hinfo. subst timed k c.
  unfold sendFile. fold id. run_m. rewrite Hinfo. run_m.
  rewrite offer_secretTTL_run. simpl.
  destruct (TransferManagerConfig.secretTTL (config st)) as [t|]; [|done].
  by destruct (t =? 0).
Qed.

End SendFileRun.

Section SessionStart.
Context `{Platform}.
Variables (ca cb : TransferManagerConfig.t) (fs_a fs_b : Files).
Variables (clk_a clk_b : nat → Z) (path nano : string) (data : list byte).
Variable peer : TrustedPeer.t.
Let CA := TransferManagerConfig.with_defaults ca.
Let CB := TransferManagerConfig.with_defaults cb.
Let a0 := TransferManager_new ca fs_a clk_a.
Let b0 := TransferManager_new cb fs_b clk_b.
Let pa := TransferManagerConfig.botId ca.
Let pb := TransferManagerConfig.botId cb.
Let cs := default DEFAULT_CHUNK_SIZE (TransferManagerConfig.chunkSize ca).
Let n := Math_ceil_div (Z.of_nat (length data)) cs.
Let id := ("xfer_" ++ nano)%string.
Let name := if truthy_string (split_pop "/" path) then split_pop "/" path else "file".
Let out := (TransferManagerConfig.downloadDir cb ++ "/" ++ name)%string.
Let p := OfferPayload.mk name (Z.of_nat (length data))
           (default (mime "application/octet-stream")
              (mimeTypes_get (toLowerCase (split_pop "." path))))
           (sha256 data) cs n (Some (TransferManagerConfig.secret cb))
           (match TransferManagerConfig.secretTTL ca with
            | Some t => if t =? 0 then None else Some (clk_a 2%nat + t)
            | None => None
            end)
           None.
Hypothesis Hfile : readFile fs_a path = Ok data.
Hypothesis Hpeer : find_peer (TransferManagerConfig.trustedPeers ca) pb = Some peer.
Hypothesis Hsecret : TrustedPeer.secret peer = TransferManagerConfig.secret cb.
Hypothesis Hne : TransferManagerConfig.secret cb ≠ "".
Hypothesis Httl :
  match TransferManagerConfig.secretTTL ca with
  | Some ttl => ttl = 0 ∨ clk_b 2%nat ≤ clk_a 2%nat + ttl
  | None => True
  end.
Hypothesis Hlimit :
  exceeds_limit (Z.of_nat (length data)) (TransferManagerConfig.maxFileSize CB) = false.

Lemma sendFile_offered :
  sender_offered CA fs_a id path pb data cs (POffer p) (sendFile pb path nano a0).2.
Proof.
  assert (find_peer (TransferManagerConfig.trustedPeers CA) pb = Some peer) as Hpeer'.
  { unfold CA. by rewrite with_defaults_find_peer. }
  rewrite (sendFile_run a0 pb path nano
             (FileInfo.mk name (Z.of_nat (length data))
                (default (mime "application/octet-stream")
                   (mimeTypes_get (toLowerCase (split_pop "." path))))
                (sha256 data) cs n)).
  2:{ change (config a0) with CA. unfold CA. rewrite with_defaults_chunkSize.
      by apply getFileInfo_readable. }
  cbn [snd FileInfo.filename FileInfo.size FileInfo.mimeType FileInfo.hash
         FileInfo.chunkSize FileInfo.totalChunks].
  change (config a0) with CA. rewrite Hpeer'. cbn [fmap option_fmap option_map].
  rewrite Hsecret.
  split; [done|]. split; [done|]. cbn [filePaths transfers sent].
  split; [by rewrite lookup_insert_eq|]. split.
  - eexists. rewrite lookup_insert_eq. by repeat split.
  - unfold addressed_to. simpl. rewrite String.eqb_refl. simpl.
    by repeat constructor.
Qed.

Lemma exchange_offer (f : nat) (a1 : State) :
  sender_offered CA fs_a id path pb data cs (POffer p) a1 →
  ∃ b1, exchange (S f) a1 b0 0 0 = exchange f a1 b1 0 1
        ∧ receiver_at CB fs_b id out pa data cs 0 b1.
Proof.
  intros (Hca & Hfa & Hpa & _ & Hcar_a).
  destruct (carries_lookup _ _ _ _ _ 0%nat (POffer p) Hcar_a)
    as (m & Hm & Hmid & Hmfrom & Hmto & Hmp); [done|].
  cbn [exchange].
  assert (inbox a1 b0 !! 0%nat = None) as -> by done.
  assert (inbox b0 a1 !! 0%nat = Some m) as -> by done.
  rewrite receive_run by done.
  unfold dispatch. rewrite Hmp.
  destruct (handleOffer_accepts b0 m p (TransferManagerConfig.secret cb))
    as (k & ->); try done.
  { subst p. simpl.
    destruct (TransferManagerConfig.secretTTL ca) as [t|]; [|by left].
    destruct (Z.eqb_spec t 0); [by left|].
    destruct Httl as [?|Httl']; [done|]. right. right. eexists. split; [done|].
    exact Httl'. }
  rewrite (acceptTransfer_run _ (OCFTMessage.transferId m) _
             (TransferInfo.mk (OCFTMessage.transferId m) Direction.receive
                TransferState.pending (OCFTMessage.from m)
                (OfferPayload.filename p) (OfferPayload.size p)
                (OfferPayload.mimeType p) (OfferPayload.hash p)
                (OfferPayload.chunkSize p) (OfferPayload.totalChunks p) ∅
                (clock b0 (ticks b0)) (clock b0 (S (ticks b0))) None None None false));
    try done; [|by apply lookup_insert_eq].
  eexists. split; [reflexivity|].
  split; [done|]. split; [done|]. split; [|split].
  - eexists. cbn [transfers]. rewrite Hmid, lookup_insert_eq. by split.
  - eexists. cbn [assemblers]. rewrite Hmid, lookup_insert_eq.
    split; [done|]. cbn. split; [done|]. split; [done|]. split; [done|].
    intros i. rewrite lookup_empty. by rewrite decide_False by lia.
  - cbn. rewrite Hmfrom. unfold addressed_to. simpl.
    rewrite String.eqb_refl. simpl. by repeat constructor.
Qed.

Lemma exchange_accept (f : nat) (a1 b1 : State) :
  0 < n →
  sender_offered CA fs_a id path pb data cs (POffer p) a1 →
  receiver_at CB fs_b id out pa data cs 0 b1 →
  ∃ a2, exchange (S f) a1 b1 0 1 = exchange f a2 b1 1 1
        ∧ sender_at CA fs_a id path pb data cs (POffer p) 0 a2.
Proof.
  intros Hn (Hca & Hfa & Hpa & (ta & Hta & Hda & Hpeer1 & Hna & Hcsa & Hha) & Hcar_a)
    (Hcb & Hfb & Htb & Hab & Hcar_b).
  destruct (carries_lookup _ _ _ _ _ 0%nat (PAccept (AcceptPayload.mk true None))
              Hcar_b) as (m & Hm & Hmid & Hmfrom & Hmto & Hmp); [done|].
  cbn [exchange].
  assert (inbox a1 b1 !! 0%nat = Some m) as ->.
  { unfold inbox. by rewrite Hca. }
  rewrite receive_run by (by rewrite Hmto, Hca).
  unfold dispatch. rewrite Hmp.
  rewrite <-Hmid in Hta, Hpa. pose proof Hfile as Hfile'. rewrite <-Hfa in Hfile'.
  rewrite (handleAccept_run a1 m _ ta path data Hta Hda Hpa Hfile').
  eexists. split; [reflexivity|]. unfold sender_at. fold n.
  rewrite (proj2 (Z.eqb_neq (Z.of_nat 0) n)) by lia.
  rewrite Z.min_l, app_nil_r by lia.
  split; [done|]. split; [done|]. split; [by rewrite <-Hmid|]. split.
  - eexists. cbn [transfers]. rewrite Hmid, lookup_insert_eq. by repeat split.
  - cbn [sent]. rewrite Hpeer1, addressed_to_snoc.
    change (seqZ 0 (Z.of_nat 0 + 1)) with [0]. simpl fmap.
    change [POffer p; chunk_payload data cs 0]
      with ([POffer p] ++ [chunk_payload data cs 0]).
    apply carries_snoc; try done; [by rewrite Hca|by rewrite Hcsa].
Qed.

End SessionStart.

Section SessionTheorem.
Context `{Platform}.

(** X27. Two nodes wired back to back deliver a file. A new sender has a
    readable file that is not empty, a positive chunk size, and among its
    trusted peers the receiver's id with the receiver's secret, which is
    not empty; the expiry it puts on the secret, if any, is not before the
    time the receiver reads for its check. A new receiver accepts files of
    that size. Base64 decoding gives back the bytes of each chunk. Then
    after [sendFile] and the exchange of messages, each node handling in
    order what the other sent to it, with fuel for 2N + 4 messages or
    more (N the number of chunks), the receiver has written the sender's
    bytes to its download directory under the file's name and has touched
    no other file, the sender's files are as they were, and both nodes
    hold the transfer as [completed]. *)
Theorem session_delivers (ca cb : TransferManagerConfig.t) (fs_a fs_b : Files)
    (clk_a clk_b : nat → Z) (path nano : string) (data : list byte)
    (peer : TrustedPeer.t) (fuel : nat) :
  let a0 := TransferManager_new ca fs_a clk_a in
  let b0 := TransferManager_new cb fs_b clk_b in
  let pb := TransferManagerConfig.botId cb in
  let cs := default DEFAULT_CHUNK_SIZE (TransferManagerConfig.chunkSize ca) in
  let n := Math_ceil_div (Z.of_nat (length data)) cs in
  let id := ("xfer_" ++ nano)%string in
  let name := if truthy_string (split_pop "/" path) then split_pop "/" path else "file" in
  let out := (TransferManagerConfig.downloadDir cb ++ "/" ++ name)%string in
  let run := exchange fuel (sendFile pb path nano a0).2 b0 0 0 in
  readFile fs_a path = Ok data →
  data ≠ [] →
  0 < cs →
  find_peer (TransferManagerConfig.trustedPeers ca) pb = Some peer →
  TrustedPeer.secret peer = TransferManagerConfig.secret cb →
  TransferManagerConfig.secret cb ≠ "" →
  match TransferManagerConfig.secretTTL ca with
  | Some ttl => ttl = 0 ∨ clk_b 2%nat ≤ clk_a 2%nat + ttl
  | None => True
  end →
  exceeds_limit (Z.of_nat (length data))
    (TransferManagerConfig.maxFileSize (TransferManagerConfig.with_defaults cb)) = false →
  (∀ i, 0 ≤ i < n →
        Buffer_from_base64 (Buffer_toString_base64 (chunk_bytes data i cs))
        = chunk_bytes data i cs) →
  (2 * Z.to_nat n + 4 ≤ fuel)%nat →
  files run.2 = <[out := data]> fs_b
  ∧ TransferInfo.state <$> transfers run.2 !! id = Some TransferState.completed
  ∧ files run.1 = fs_a
  ∧ TransferInfo.state <$> transfers run.1 !! id = Some TransferState.completed.
Proof.
  intros a0 b0 pb cs n id name out run Hfile Hdata Hcs Hpeer Hsecret Hne Httl Hlimit
    Hb64 Hfuel.
  destruct (Math_ceil_div_spec (Z.of_nat (length data)) cs) as (Hn0 & Hge & _);
    [lia|done|]. fold n in Hn0, Hge.
  assert (0 < n) as Hn.
  { destruct data; [done|]. simpl in Hge. nia. }
  pose proof (sendFile_offered ca cb fs_a clk_a path nano data peer
                Hfile Hpeer Hsecret) as Ha1.
  subst run.
  replace fuel with (S (S (2 * Z.to_nat n + S (S (fuel - (2 * Z.to_nat n + 4))))))
    by lia.
  set (f := (fuel - (2 * Z.to_nat n + 4))%nat). clearbody f. clear Hfuel.
  assert (Z.of_nat (Z.to_nat n) = n) as HN by lia.
  set (N := Z.to_nat n) in *. clearbody N.
  subst a0 b0 pb id name out n cs.
  destruct (exchange_offer ca cb fs_a fs_b clk_a clk_b path nano data Hne Httl Hlimit
              (S (2 * N + S (S f))) _ Ha1) as (b1 & -> & Hb1).
  destruct (exchange_accept ca cb fs_a fs_b clk_a path nano data Hfile
              (2 * N + S (S f)) _ b1 Hn Ha1 Hb1) as (a2 & -> & Ha2).
  destruct (exchange_chunks (TransferManagerConfig.with_defaults ca) (TransferManagerConfig.with_defaults cb)
              _ _ _ _ _ _ _ _ Hfile Hb64 N 0 (S (S f)) a2 b1
              HN Ha2 Hb1)
    as (a3 & b3 & -> & Ha3 & Hb3).
  simpl Nat.add.
  destruct (exchange_complete (TransferManagerConfig.with_defaults ca) (TransferManagerConfig.with_defaults cb)
              _ _ _ _ _ _ _ _ Hcs N (S f) a3 b3
              HN Ha3 Hb3) as (b4 & -> & Hb4).
  destruct (exchange_final (TransferManagerConfig.with_defaults ca) (TransferManagerConfig.with_defaults cb)
              _ _ _ _ _ _ _ _ N f a3 b4 HN Ha3 Hb4)
    as (a4 & -> & Hfa4 & Hsa4 & _).
  cbn [fst snd].
  destruct Hb4 as (_ & Hfb4 & (tb4 & Htb4 & _ & Hsb4) & _).
  split; [done|]. split; [by rewrite Htb4; simpl; rewrite Hsb4|].
  by split.
Qed.

End SessionTheorem.

Lemma chunk_bytes_nil (i cs : Z) : chunk_bytes [] i cs = [].
Proof. unfold chunk_bytes, subarray. by rewrite drop_nil, take_nil. Qed.

Section EmptyFile.
Context `{Platform}.
Variables (ca cb : TransferManagerConfig.t) (fs_a fs_b : Files).
Variables (id path out : string) (cs : Z) (offer : Payload).
Let pa := TransferManagerConfig.botId ca.
Let pb := TransferManagerConfig.botId cb.
Let chunk0 := chunk_payload [] cs 0.
Let missing := Some "Missing chunks: ".
Hypothesis Hfile : readFile fs_a path = Ok [].
Hypothesis Hb64 : Buffer_from_base64 (Buffer_toString_base64 []) = [].

Lemma empty_accept (f : nat) (a b : State) :
  sender_offered ca fs_a id path pb [] cs offer a →
  receiver_at cb fs_b id out pa [] cs 0 b →
  ∃ a', exchange (S f) a b 0 1 = exchange f a' b 1 1
        ∧ sender_with ca fs_a id path pb [] cs TransferState.transferring
            [offer; chunk0] a'.
Proof.
  intros (Hca & Hfa & Hpa & (ta & Hta & Hda & Hpeer1 & Hna & Hcsa & Hha) & Hcar_a)
    (Hcb & Hfb & Htb & Hab & Hcar_b).
  destruct (carries_lookup _ _ _ _ _ 0%nat (PAccept (AcceptPayload.mk true None))
              Hcar_b) as (m & Hm & Hmid & Hmfrom & Hmto & Hmp); [done|].
  cbn [exchange].
  assert (inbox a b !! 0%nat = Some m) as ->.
  { unfold inbox. by rewrite Hca. }
  rewrite receive_run by (by rewrite Hmto, Hca).
  unfold dispatch. rewrite Hmp.
  rewrite <-Hmid in Hta, Hpa. pose proof Hfile as Hfile'. rewrite <-Hfa in Hfile'.
  rewrite (handleAccept_run a m _ ta path [] Hta Hda Hpa Hfile').
  eexists. split; [reflexivity|].
  split; [done|]. split; [done|]. split; [by rewrite <-Hmid|]. split.
  - eexists. cbn [transfers]. rewrite Hmid, lookup_insert_eq. by repeat split.
  - cbn [sent]. rewrite Hpeer1, addressed_to_snoc.
    change [offer; chunk0] with ([offer] ++ [chunk0]).
    apply carries_snoc; try done; [by rewrite Hca|by rewrite Hcsa].
Qed.

Lemma empty_chunk (f : nat) (a b : State) :
  sender_with ca fs_a id path pb [] cs TransferState.transferring [offer; chunk0] a →
  receiver_at cb fs_b id out pa [] cs 0 b →
  ∃ b', exchange (S f) a b 1 1 = exchange f a b' 1 2
        ∧ receiver_with cb fs_b id out pa [] cs {[ 0 := [] ]}
            [PAccept (AcceptPayload.mk true None); PAck (AckPayload.mk 0 true None)] b'.
Proof.
  intros (Hca & Hfa & Hpa & _ & Hcar_a)
    (Hcb & Hfb & (tb & Htb & Hdb) & (ab & Hab & Hhb & Hnb & Hob & Hchunks) & Hcar_b).
  assert (inbox a b !! 1%nat = None) as Hnone.
  { apply lookup_ge_None. unfold inbox. rewrite Hca. fold pa.
    by rewrite (carries_length _ _ _ _ _ Hcar_b). }
  destruct (carries_lookup _ _ _ _ _ 1%nat chunk0 Hcar_a)
    as (m & Hm & Hmid & Hmfrom & Hmto & Hmp); [done|].
  assert (inbox b a !! 1%nat = Some m) as Hsome.
  { unfold inbox. rewrite Hcb. by fold pb. }
  cbn [exchange]. rewrite Hnone, Hsome.
  rewrite receive_run by (by rewrite Hmto, Hcb).
  unfold dispatch. rewrite Hmp. unfold chunk0, chunk_payload.
  rewrite <-Hmid in Htb, Hab.
  rewrite (handleChunk_run b m _ tb ab Htb Hdb Hab).
  cbn [ChunkPayload.data ChunkPayload.index ChunkPayload.hash].
  rewrite chunk_bytes_nil, Hb64, addChunk_matching. cbv beta iota zeta. cbn [fst snd].
  eexists. split; [reflexivity|].
  split; [done|]. split; [done|]. split; [|split].
  - eexists. cbn [transfers]. rewrite Hmid, lookup_insert_eq. by split.
  - eexists. cbn [assemblers]. rewrite Hmid, lookup_insert_eq.
    split; [done|]. cbn. split; [done|]. split; [done|]. split; [done|].
    assert (ChunkAssembler.chunks ab = ∅) as ->.
    { apply map_eq. intros i. rewrite Hchunks, lookup_empty.
      by rewrite decide_False by lia. }
    by rewrite insert_empty.
  - cbn [sent config]. rewrite Hmfrom. fold pa. rewrite addressed_to_snoc.
    change [PAccept (AcceptPayload.mk true None); PAck (AckPayload.mk 0 true None)]
      with ([PAccept (AcceptPayload.mk true None)] ++ [PAck (AckPayload.mk 0 true None)]).
    apply carries_snoc; try done. by rewrite Hcb.
Qed.

Lemma empty_ack (f : nat) (a b : State) chunks :
  sender_with ca fs_a id path pb [] cs TransferState.transferring [offer; chunk0] a →
  receiver_with cb fs_b id out pa [] cs chunks
    [PAccept (AcceptPayload.mk true None); PAck (AckPayload.mk 0 true None)] b →
  ∃ a', exchange (S f) a b 1 2 = exchange f a' b 2 2
        ∧ sender_with ca fs_a id path pb [] cs TransferState.completing
            [offer; chunk0; PComplete (CompletePayload.mk 0 (sha256 []))] a'.
Proof.
  intros (Hca & Hfa & Hpa & (ta & Hta & Hda & Hpeer1 & Hna & Hcsa & Hha & Hsa) & Hcar_a)
    (Hcb & Hfb & _ & _ & Hcar_b).
  destruct (carries_lookup _ _ _ _ _ 1%nat (PAck (AckPayload.mk 0 true None)) Hcar_b)
    as (m & Hm & Hmid & Hmfrom & Hmto & Hmp); [done|].
  assert (inbox a b !! 1%nat = Some m) as Hsome.
  { unfold inbox. rewrite Hca. by fold pa. }
  cbn [exchange]. rewrite Hsome.
  rewrite receive_run by (by rewrite Hmto, Hca).
  unfold dispatch. rewrite Hmp.
  rewrite <-Hmid in Hta, Hpa. pose proof Hfile as Hfile'. rewrite <-Hfa in Hfile'.
  rewrite (handleAck_received a m _ ta path [] Hta Hda); try done;
    [|by unfold finishing; rewrite Hsa].
  cbn [AckPayload.index]. rewrite Hna.
  change (0 + 1 <? Math_ceil_div (Z.of_nat (length (@nil byte))) cs) with false.
  cbv iota.
  eexists. split; [reflexivity|].
  split; [done|]. split; [done|]. split; [by rewrite <-Hmid|]. split.
  - eexists. cbn [transfers]. rewrite Hmid, lookup_insert_eq. by repeat split.
  - cbn [sent]. rewrite Hpeer1, addressed_to_snoc.
    change [offer; chunk0; PComplete (CompletePayload.mk 0 (sha256 []))]
      with ([offer; chunk0] ++ [PComplete (CompletePayload.mk 0 (sha256 []))]).
    apply carries_snoc; try done; [by rewrite Hca|by rewrite Hha].
Qed.

Lemma empty_complete (f : nat) (a b : State) :
  sender_with ca fs_a id path pb [] cs TransferState.completing
    [offer; chunk0; PComplete (CompletePayload.mk 0 (sha256 []))] a →
  receiver_with cb fs_b id out pa [] cs {[ 0 := [] ]}
    [PAccept (AcceptPayload.mk true None); PAck (AckPayload.mk 0 true None)] b →
  ∃ b', exchange (S f) a b 2 2 = exchange f a b' 2 3
        ∧ config b' = cb ∧ files b' = fs_b
        ∧ TransferInfo.state <$> transfers b' !! id = Some TransferState.failed
        ∧ TransferInfo.error <$> transfers b' !! id = Some missing
        ∧ carries id pb pa (addressed_to pa (sent b'))
            [PAccept (AcceptPayload.mk true None); PAck (AckPayload.mk 0 true None);
             PAck (AckPayload.mk (-1) false missing)].
Proof.
  intros (Hca & Hfa & Hpa & _ & Hcar_a)
    (Hcb & Hfb & (tb & Htb & Hdb) & (ab & Hab & Hhb & Hnb & Hob & Hchunks) & Hcar_b).
  assert (inbox a b !! 2%nat = None) as Hnone.
  { apply lookup_ge_None. unfold inbox. rewrite Hca. fold pa.
    by rewrite (carries_length _ _ _ _ _ Hcar_b). }
  destruct (carries_lookup _ _ _ _ _ 2%nat
              (PComplete (CompletePayload.mk 0 (sha256 []))) Hcar_a)
    as (m & Hm & Hmid & Hmfrom & Hmto & Hmp); [done|].
  assert (inbox b a !! 2%nat = Some m) as Hsome.
  { unfold inbox. rewrite Hcb. by fold pb. }
  cbn [exchange]. rewrite Hnone, Hsome.
  rewrite receive_run by (by rewrite Hmto, Hcb).
  unfold dispatch. rewrite Hmp.
  rewrite <-Hmid in Htb, Hab.
  rewrite (handleComplete_run b m _ tb ab Htb Hdb Hab).
  assert (ChunkAssembler.assemble ab (files b)
          = (AssembleResult.mk false missing, files b)) as ->.
  { unfold ChunkAssembler.assemble, ChunkAssembler.isComplete,
      ChunkAssembler.getMissingChunks.
    rewrite Hchunks, Hnb. by rewrite map_size_singleton. }
  cbv beta iota zeta. cbn [fst snd AssembleResult.success AssembleResult.error].
  eexists. split; [reflexivity|].
  split; [done|]. split; [done|]. cbn [transfers].
  rewrite Hmid, !lookup_insert_eq. split; [done|]. split; [done|].
  cbn [sent config]. rewrite Hmfrom. fold pa. rewrite addressed_to_snoc.
  change [PAccept (AcceptPayload.mk true None); PAck (AckPayload.mk 0 true None);
          PAck (AckPayload.mk (-1) false missing)]
    with ([PAccept (AcceptPayload.mk true None); PAck (AckPayload.mk 0 true None)]
          ++ [PAck (AckPayload.mk (-1) false missing)]).
  apply carries_snoc; try done. by rewrite Hcb.
Qed.

Lemma empty_final (f : nat) (a b : State) :
  sender_with ca fs_a id path pb [] cs TransferState.completing
    [offer; chunk0; PComplete (CompletePayload.mk 0 (sha256 []))] a →
  config b = cb →
  carries id pb pa (addressed_to pa (sent b))
    [PAccept (AcceptPayload.mk true None); PAck (AckPayload.mk 0 true None);
     PAck (AckPayload.mk (-1) false missing)] →
  ∃ a', exchange (S f) a b 2 3 = (a', b)
        ∧ TransferInfo.state <$> transfers a' !! id = Some TransferState.completed
        ∧ sent a' = sent a.
Proof.
  intros (Hca & Hfa & Hpa & (ta & Hta & Hda & Hpeer1 & Hna & Hcsa & Hha & Hsa) & Hcar_a)
    Hcb Hcar_b.
  destruct (carries_lookup _ _ _ _ _ 2%nat (PAck (AckPayload.mk (-1) false missing))
              Hcar_b) as (m & Hm & Hmid & Hmfrom & Hmto & Hmp); [done|].
  assert (inbox a b !! 2%nat = Some m) as Hsome.
  { unfold inbox. rewrite Hca. by fold pa. }
  cbn [exchange]. rewrite Hsome.
  rewrite receive_run by (by rewrite Hmto, Hca).
  unfold dispatch. rewrite Hmp.
  rewrite <-Hmid in Hta.
  rewrite (handleAck_finishing a m _ ta Hta Hda)
    by (unfold finishing; by rewrite Hsa).
  cbn [AckPayload.index]. change (-1 =? -1) with true. cbv iota.
  eexists. split.
  - destruct f as [|f]; [reflexivity|]. cbn [exchange].
    assert (∀ l : list OCFTMessage.t, length l = 3%nat → l !! 3%nat = None) as Hend.
    { intros l Hl. apply lookup_ge_None. lia. }
    rewrite !Hend; [reflexivity| |].
    + unfold inbox. cbn [config sent]. rewrite Hcb. fold pb.
      by rewrite (carries_length _ _ _ _ _ Hcar_a).
    + unfold inbox. cbn [config sent]. rewrite Hca. fold pa.
      by rewrite (carries_length _ _ _ _ _ Hcar_b).
  - split; [|done]. cbn [transfers]. by rewrite Hmid, lookup_insert_eq.
Qed.

End EmptyFile.

Section EmptyFileTheorem.
Context `{Platform}.

(** X28. An empty file cannot be transferred. In the setting of the
    session above but for a file of no bytes, after [sendFile] and the
    exchange of messages with fuel for six or more: the sender has sent,
    after the offer, a chunk with index 0 and no bytes and then the
    complete message for 0 chunks; the receiver has sent the accept, the
    acknowledgement of chunk 0 and a final acknowledgement with
    [received = false] and the error 'Missing chunks: ' (no index after
    it); the receiver has written no file and holds the transfer as
    [failed] with this error; the sender holds it as [completed]. *)
Theorem session_empty_file (ca cb : TransferManagerConfig.t) (fs_a fs_b : Files)
    (clk_a clk_b : nat → Z) (path nano : string) (peer : TrustedPeer.t) (fuel : nat) :
  let a0 := TransferManager_new ca fs_a clk_a in
  let b0 := TransferManager_new cb fs_b clk_b in
  let pa := TransferManagerConfig.botId ca in
  let pb := TransferManagerConfig.botId cb in
  let id := ("xfer_" ++ nano)%string in
  let run := exchange fuel (sendFile pb path nano a0).2 b0 0 0 in
  readFile fs_a path = Ok [] →
  find_peer (TransferManagerConfig.trustedPeers ca) pb = Some peer →
  TrustedPeer.secret peer = TransferManagerConfig.secret cb →
  TransferManagerConfig.secret cb ≠ "" →
  match TransferManagerConfig.secretTTL ca with
  | Some ttl => ttl = 0 ∨ clk_b 2%nat ≤ clk_a 2%nat + ttl
  | None => True
  end →
  exceeds_limit 0
    (TransferManagerConfig.maxFileSize (TransferManagerConfig.with_defaults cb)) = false →
  Buffer_from_base64 (Buffer_toString_base64 []) = [] →
  (6 ≤ fuel)%nat →
  files run.2 = fs_b
  ∧ TransferInfo.state <$> transfers run.2 !! id = Some TransferState.failed
  ∧ TransferInfo.error <$> transfers run.2 !! id = Some (Some "Missing chunks: ")
  ∧ TransferInfo.state <$> transfers run.1 !! id = Some TransferState.completed
  ∧ drop 1 (OCFTMessage.payload <$> addressed_to pb (sent run.1))
    = [ PChunk (ChunkPayload.mk 0 (Buffer_toString_base64 []) (sha256 []));
        PComplete (CompletePayload.mk 0 (sha256 [])) ]
  ∧ OCFTMessage.payload <$> addressed_to pa (sent run.2)
    = [ PAccept (AcceptPayload.mk true None);
        PAck (AckPayload.mk 0 true None);
        PAck (AckPayload.mk (-1) false (Some "Missing chunks: ")) ].
Proof.
  intros a0 b0 pa pb id run Hfile Hpeer Hsecret Hne Httl Hlimit Hb64 Hfuel.
  pose proof (sendFile_offered ca cb fs_a clk_a path nano [] peer
                Hfile Hpeer Hsecret) as Ha1.
  subst run.
  replace fuel with (S (S (S (S (S (S (fuel - 6))))))) by lia.
  set (f := (fuel - 6)%nat). clearbody f. clear Hfuel.
  subst a0 b0 pa pb id.
  destruct (exchange_offer ca cb fs_a fs_b clk_a clk_b path nano [] Hne Httl Hlimit
              (S (S (S (S (S f))))) _ Ha1) as (b1 & -> & Hb1).
  destruct (empty_accept (TransferManagerConfig.with_defaults ca) (TransferManagerConfig.with_defaults cb)
              _ _ _ _ _ _ _ Hfile (S (S (S (S f)))) _ b1 Ha1 Hb1)
    as (a2 & -> & Ha2).
  destruct (empty_chunk (TransferManagerConfig.with_defaults ca) (TransferManagerConfig.with_defaults cb)
              _ _ _ _ _ _ _ Hb64 (S (S (S f))) a2 b1 Ha2 Hb1)
    as (b2 & -> & Hb2).
  destruct (empty_ack (TransferManagerConfig.with_defaults ca) (TransferManagerConfig.with_defaults cb)
              _ _ _ _ _ _ _ Hfile (S (S f)) a2 b2 _ Ha2 Hb2)
    as (a3 & -> & Ha3).
  destruct (empty_complete (TransferManagerConfig.with_defaults ca) (TransferManagerConfig.with_defaults cb)
              _ _ _ _ _ _ _ (S f) a3 b2 Ha3 Hb2)
    as (b3 & -> & Hcb3 & Hfb3 & Hsb3 & Heb3 & Hcar3).
  destruct (empty_final (TransferManagerConfig.with_defaults ca) (TransferManagerConfig.with_defaults cb)
              _ _ _ _ _ f a3 b3 Ha3 Hcb3 Hcar3)
    as (a4 & -> & Hsa4 & Hsent4).
  cbn [fst snd]. do 4 (split; [done|]). split.
  - rewrite Hsent4. destruct Ha3 as (_ & _ & _ & _ & Hcar_a).
    apply carries_payloads in Hcar_a.
    change (TransferManagerConfig.botId (TransferManagerConfig.with_defaults cb))
      with (TransferManagerConfig.botId cb) in Hcar_a.
    rewrite Hcar_a. cbn [drop]. unfold chunk_payload.
    by rewrite chunk_bytes_nil.
  - apply carries_payloads in Hcar3. exact Hcar3.
Qed.

End EmptyFileTheorem.

Section SessionExamples.
Local Existing Instance node.

Lemma session_delivers_witness :
  let run := exchange 10
               (sendFile "bob" "/data/notes.txt" "abcdefghijkl"
                  (TransferManager_new dave_config sample_files sample_clock)).2
               (TransferManager_new bob_config ∅ sample_clock) 0 0 in
  files run.2 = <["/downloads/notes.txt" := list_byte_of_string "hello world!"]> ∅
  ∧ TransferInfo.state <$> transfers run.2 !! transfer_id = Some TransferState.completed
  ∧ files run.1 = sample_files
  ∧ TransferInfo.state <$> transfers run.1 !! transfer_id = Some TransferState.completed.
Proof.
  apply (session_delivers dave_config bob_config sample_files ∅ sample_clock sample_clock
           "/data/notes.txt" "abcdefghijkl" (list_byte_of_string "hello world!")
           (TrustedPeer.mk "bob" "s3cret" None None) 10).
  - vm_compute. reflexivity.
  - discriminate.
  - reflexivity.
  - reflexivity.
  - reflexivity.
  - discriminate.
  - exact I.
  - reflexivity.
  - intros i Hi.
    change (Math_ceil_div (Z.of_nat (length (list_byte_of_string "hello world!")))
              (default DEFAULT_CHUNK_SIZE (TransferManagerConfig.chunkSize dave_config)))
      with 3 in Hi.
    assert (i = 0 ∨ i = 1 ∨ i = 2) as [->|[->| ->]] by lia;
      vm_compute; reflexivity.
  - vm_compute. lia.
Defined.

Lemma session_empty_file_witness :
  let run := exchange 6
               (sendFile "bob" "/data/empty.bin" "abcdefghijkl"
                  (TransferManager_new dave_config sample_files sample_clock)).2
               (TransferManager_new bob_config ∅ sample_clock) 0 0 in
  files run.2 = ∅
  ∧ TransferInfo.state <$> transfers run.2 !! transfer_id = Some TransferState.failed
  ∧ TransferInfo.error <$> transfers run.2 !! transfer_id
    = Some (Some "Missing chunks: ")
  ∧ TransferInfo.state <$> transfers run.1 !! transfer_id = Some TransferState.completed
  ∧ drop 1 (OCFTMessage.payload <$> addressed_to "bob" (sent run.1))
    = [ PChunk (ChunkPayload.mk 0 (Buffer_toString_base64 []) (sha256 []));
        PComplete (CompletePayload.mk 0 (sha256 [])) ]
  ∧ OCFTMessage.payload <$> addressed_to "dave" (sent run.2)
    = [ PAccept (AcceptPayload.mk true None);
        PAck (AckPayload.mk 0 true None);
        PAck (AckPayload.mk (-1) false (Some "Missing chunks: ")) ].
Proof.
  apply (session_empty_file dave_config bob_config sample_files ∅ sample_clock
           sample_clock "/data/empty.bin" "abcdefghijkl"
           (TrustedPeer.mk "bob" "s3cret" None None) 6).
  - vm_compute. reflexivity.
  - reflexivity.
  - reflexivity.
  - discriminate.
  - exact I.
  - reflexivity.
  - vm_compute. reflexivity.
  - lia.
Defined.

(** The session on the sample nodes, run: what each node has sent. *)
Example session_messages :
  let run := exchange 10
               (sendFile "bob" "/data/notes.txt" "abcdefghijkl"
                  (TransferManager_new dave_config sample_files sample_clock)).2
               (TransferManager_new bob_config ∅ sample_clock) 0 0 in
  sent_payloads run.2
  = [ PAccept (AcceptPayload.mk true None);
      PAck (AckPayload.mk 0 true None); PAck (AckPayload.mk 1 true None);
      PAck (AckPayload.mk 2 true None); PAck (AckPayload.mk (-1) true None) ]
  ∧ length (sent run.1) = 5%nat.
Proof. vm_compute. split; reflexivity. Qed.

End SessionExamples.
